(** * pyfrost: threshold Schnorr signatures (FROST) over secp256k1

    A shallow embedding of [pyfrost/crypto_utils.py] and [pyfrost/frost.py].
    Python integers are [Z]; a raised exception is the [Raise] branch of
    [result], carrying the name of the exception class.  The external
    libraries (fastecdsa, hashlib, web3, cryptography) are interfaces, given
    as type classes, with the laws the proofs rely on. *)

From Stdlib Require Import ZArith Zdivisibility Lia List String Ascii.
From Stdlib.Strings Require Byte.
From stdpp Require Import base option list gmap strings.

Local Open Scope string_scope.
Local Open Scope Z_scope.

(** ** Python results *)

Inductive result (A : Type) : Type :=
  | Ok (a : A)
  | Raise (exc : string).
Arguments Ok {A} a.
Arguments Raise {A} exc.

#[global] Instance result_bind : MBind result := fun A B k r =>
  match r with
  | Ok a => k a
  | Raise e => Raise e
  end.
#[global] Instance result_ret : MRet result := fun A a => Ok a.

Definition is_ok {A} (r : result A) : bool :=
  match r with Ok _ => true | Raise _ => false end.

(** [l[i]] on a Python list. *)
Definition py_index {A} (l : list A) (i : nat) : result A :=
  match l !! i with
  | Some a => Ok a
  | None => Raise "IndexError"
  end.

(** A list comprehension, or [list(map(f, l))], whose [f] may raise. *)
Fixpoint traverse {A B} (f : A -> result B) (l : list A) : result (list B) :=
  match l with
  | [] => Ok []
  | a :: rest => b ← f a; bs ← traverse f rest; Ok (b :: bs)
  end.

(** [math.prod] and [sum] fold from the left, starting at 1 and 0. *)
Definition math_prod (l : list Z) : Z := fold_left Z.mul l 1.
Definition py_sum (l : list Z) : Z := fold_left Z.add l 0.

(** ** crypto_utils: Polynomial *)

Record Polynomial : Type := mkPolynomial {
  threshold : Z;
  coefficients : list Z
}.

(** The optional argument [coefficient0]: a hexadecimal [str] or an [int]. *)
Inductive coefficient0 : Type :=
  | Coef0Str (s : string)
  | Coef0Int (z : Z).

(** The loop of [Polynomial.evaluate]: [result += coefficients[i] * pow(x, i)]. *)
Fixpoint evaluate_loop (coefs : list Z) (x : Z) (i : nat) (acc : Z) : Z :=
  match coefs with
  | [] => acc
  | c :: rest => evaluate_loop rest x (S i) (acc + c * x ^ Z.of_nat i)
  end.

Definition evaluate (p : Polynomial) (x : Z) : Z :=
  evaluate_loop (coefficients p) x 0 0.

(** The sum [Σ aᵢ·xⁱ] of the data model, over the integers. *)
Fixpoint poly_sum_from (coefs : list Z) (x : Z) (i : nat) : Z :=
  match coefs with
  | [] => 0
  | c :: rest => c * x ^ Z.of_nat i + poly_sum_from rest x (S i)
  end.

Definition poly_sum (coefs : list Z) (x : Z) : Z := poly_sum_from coefs x 0.

(** ** crypto_utils: mod_inverse *)

(** The [while number > 1] loop.  [fuel] bounds the number of iterations;
    [mod_inverse_enough_fuel] below shows that the bound is never reached. *)
Fixpoint mod_inverse_loop (fuel : nat) (number modulus inverse intermediate : Z)
    : result Z :=
  if number >? 1 then
    match fuel with
    | O => Raise "OutOfFuel"
    | S fuel' =>
        if modulus =? 0 then Raise "ZeroDivisionError"
        else
          let quotient := number / modulus in
          let temp := modulus in
          let modulus' := number mod modulus in
          let number' := temp in
          let temp := intermediate in
          let intermediate' := inverse - quotient * intermediate in
          let inverse' := temp in
          mod_inverse_loop fuel' number' modulus' inverse' intermediate'
    end
  else Ok inverse.

Definition mod_inverse_fuel (modulus : Z) : nat :=
  Z.to_nat (2 * Z.log2 modulus + 4).

Definition mod_inverse (number modulus : Z) : result Z :=
  let original_modulus := modulus in
  let inverse := 1 in
  let intermediate := 0 in
  if modulus =? 0 then Raise "ZeroDivisionError"
  else
    let number := number mod modulus in
    if modulus =? 1 then Ok 0
    else
      inverse ← mod_inverse_loop (mod_inverse_fuel modulus)
                  number modulus inverse intermediate;
      Ok (if inverse <? 0 then inverse + original_modulus else inverse).

(** The order of secp256k1, [curve.secp256k1.q] of fastecdsa. *)
Definition secp256k1_q : Z :=
  0xFFFFFFFFFFFFFFFFFFFFFFFFFFFFFFFEBAAEDCE6AF48A03BBFD25E8CD0364141.

(** ** Python integers, strings and bytes

    A Python [str] is a [string] (its UTF-8 bytes), a [bytes] value a
    [list byte].  [int(s, base)] is modelled on digit strings, with the
    optional [0x] prefix for base 16; signs, blanks and underscores, which
    Python also accepts, are rejected here. *)

Abbreviation chars := list_ascii_of_string.
Abbreviation text := string_of_list_ascii.
Abbreviation byte := Init.Byte.byte.

(** [s[i:]], [s[:j]] and [s[-k:]] on strings. *)
Definition str_drop (i : nat) (s : string) : string := text (drop i (chars s)).
Definition str_take (j : nat) (s : string) : string := text (take j (chars s)).
Definition str_last (k : nat) (s : string) : string :=
  text (drop (length (chars s) - k) (chars s)).

(** The digits of a non-negative integer, most significant first. *)
Fixpoint to_digits_acc (fuel : nat) (base n : Z) (acc : list Z) : list Z :=
  match fuel with
  | O => n :: acc
  | S fuel' =>
      if n <? base then n :: acc
      else to_digits_acc fuel' base (n / base) (n mod base :: acc)
  end.

Definition to_digits (base n : Z) : list Z :=
  to_digits_acc (Z.to_nat (Z.log2 n)) base n [].

Definition of_digits (base : Z) (ds : list Z) : Z :=
  fold_left (fun acc d => acc * base + d) ds 0.

Definition digit_char (d : Z) : ascii :=
  if d <? 10 then ascii_of_N (Z.to_N (48 + d)) else ascii_of_N (Z.to_N (87 + d)).

Definition char_digit (c : ascii) : option Z :=
  let n := Z.of_N (N_of_ascii c) in
  if (48 <=? n) && (n <=? 57) then Some (n - 48)
  else if (97 <=? n) && (n <=? 102) then Some (n - 87)
  else if (65 <=? n) && (n <=? 70) then Some (n - 55)
  else None.

Definition digit_string (base n : Z) : string :=
  text (map digit_char (to_digits base n)).

(** The string that [str(n)] returns, and [hex(n)]. *)
Definition py_str (n : Z) : string :=
  if n <? 0 then "-" ++ digit_string 10 (- n) else digit_string 10 n.

(** The default limit of CPython on the number of digits of a conversion
    between [int] and [str] in a base that is not a power of 2
    ([sys.int_info.default_max_str_digits]). *)
Definition int_max_str_digits : Z := 4300.

(** [str(n)] on an integer: [ValueError] when [n] has more digits than
    the limit. *)
Definition py_str_checked (n : Z) : result string :=
  if bool_decide (int_max_str_digits < Z.of_nat (length (to_digits 10 (Z.abs n))))
  then Raise "ValueError"
  else Ok (py_str n).

Definition py_hex (n : Z) : string :=
  if n <? 0 then "-0x" ++ digit_string 16 (- n) else "0x" ++ digit_string 16 n.

Fixpoint parse_digits (base : Z) (cs : list ascii) (acc : Z) : option Z :=
  match cs with
  | [] => Some acc
  | c :: rest =>
      match char_digit c with
      | Some d => if d <? base then parse_digits base rest (acc * base + d) else None
      | None => None
      end
  end.

Definition strip_0x (cs : list ascii) : list ascii :=
  match cs with
  | "0"%char :: "x"%char :: rest => rest
  | "0"%char :: "X"%char :: rest => rest
  | _ => cs
  end.

(** [int(s, base)] for base 10 and base 16, on strings of ASCII digits
    (after the prefix [0x] in base 16) that stay below the limit of digits;
    the signs, blanks, underscores and other digits that [int] accepts as
    well are rejected here. *)
Definition py_int_base (base : Z) (s : string) : result Z :=
  let cs := if base =? 16 then strip_0x (chars s) else chars s in
  match cs with
  | [] => Raise "ValueError"
  | _ => match parse_digits base cs 0 with
         | Some n => Ok n
         | None => Raise "ValueError"
         end
  end.

Definition py_int (s : string) : result Z := py_int_base 10 s.

(** [f'{s:0>64}']: pad on the left with zeros up to [width]. *)
Definition zfill_left (width : nat) (s : string) : string :=
  text (replicate (width - length (chars s)) "0"%char ++ chars s).

Definition byte_val (b : byte) : Z := Z.of_N (Byte.to_N b).

Definition byte_of_Z (z : Z) : byte :=
  match Byte.of_N (Z.to_N (z mod 256)) with
  | Some b => b
  | None => Byte.x00
  end.

(** [int.from_bytes(bs, 'big')] and [n.to_bytes(len, 'big')]. *)
Definition int_from_bytes (bs : list byte) : Z :=
  fold_left (fun acc b => acc * 256 + byte_val b) bs 0.

Fixpoint to_bytes_acc (len : nat) (n : Z) (acc : list byte) : list byte :=
  match len with
  | O => acc
  | S len' => to_bytes_acc len' (n / 256) (byte_of_Z n :: acc)
  end.

Definition int_to_bytes (n : Z) (len : nat) : result (list byte) :=
  if (n <? 0) || (256 ^ Z.of_nat len <=? n) then Raise "OverflowError"
  else Ok (to_bytes_acc len n []).

(** [bs.hex()] and [bytes.fromhex(s)] (on strings without blanks). *)
Definition bytes_hex (bs : list byte) : string :=
  text (flat_map (fun b => [digit_char (byte_val b / 16); digit_char (byte_val b mod 16)]) bs).

Fixpoint fromhex_chars (cs : list ascii) : option (list byte) :=
  match cs with
  | [] => Some []
  | c1 :: c2 :: rest =>
      match char_digit c1, char_digit c2, fromhex_chars rest with
      | Some h, Some l, Some bs => Some (byte_of_Z (h * 16 + l) :: bs)
      | _, _, _ => None
      end
  | _ => None
  end.

Definition bytes_fromhex (s : string) : result (list byte) :=
  match fromhex_chars (chars s) with
  | Some bs => Ok bs
  | None => Raise "ValueError"
  end.

(** [s.encode()]. *)
Definition str_encode (s : string) : list byte := list_byte_of_string s.

(** [Polynomial.__init__]: [coefficient0], when given, is the first
    coefficient (converted with [int(coefficient0, 16)] when it is a [str]);
    the other coefficients are drawn with [keys.gen_private_key], here the
    successive values [gen 0], [gen 1], ... *)
Definition Polynomial_init (threshold : Z) (coefficient0 : option coefficient0)
    (gen : nat -> Z) : result Polynomial :=
  first ← match coefficient0 with
          | Some (Coef0Str s) => c ← py_int_base 16 s; Ok [c]
          | Some (Coef0Int c) => Ok [c]
          | None => Ok []
          end;
  let missing := Z.to_nat (threshold - Z.of_nat (length first)) in
  Ok (mkPolynomial threshold (first ++ map gen (seq 0 missing))).

(** ** The external libraries *)

(** fastecdsa: the curve [curve.secp256k1], its points ([Point.__add__],
    [Point.__rmul__], [Point.__eq__]) and [SEC1Encoder] with
    [compressed=True].  The laws say that the points form a commutative
    group in which [G] has prime order [q], and that the encoder round-trips
    on every point but the identity, on 33 bytes starting with 02 or 03. *)
Class Fastecdsa : Type := {
  point : Type;
  point_eq_dec :: EqDecision point;
  q : Z;
  G : point;
  IDENTITY : point;
  padd : point -> point -> point;
  pmul : Z -> point -> point;
  px : point -> Z;
  py : point -> Z;
  is_point_on_curve : Z -> Z -> bool;
  encode_public_key : point -> list byte;
  decode_public_key : list byte -> result point;
  q_prime : Z.prime q;
  q_bound : q < 2 ^ 256;
  padd_comm : forall P Q, padd P Q = padd Q P;
  padd_assoc : forall P Q R, padd P (padd Q R) = padd (padd P Q) R;
  pmul_1 : forall P, pmul 1 P = P;
  pmul_add : forall a b P, pmul (a + b) P = padd (pmul a P) (pmul b P);
  pmul_pmul : forall a b P, pmul a (pmul b P) = pmul (a * b) P;
  pmul_G_eq : forall a b, pmul a G = pmul b G <-> a mod q = b mod q;
  pmul_0_G : pmul 0 G = IDENTITY;
  coordinates_nonneg : forall P, 0 <= px P /\ 0 <= py P;
  on_curve : forall P, P <> IDENTITY -> is_point_on_curve (px P) (py P) = true;
  encode_shape : forall P, P <> IDENTITY ->
    exists b rest, encode_public_key P = b :: rest /\ length rest = 32%nat /\
                   (byte_val b = 2 \/ byte_val b = 3);
  decode_encode : forall P, P <> IDENTITY ->
    decode_public_key (encode_public_key P) = Ok P
}.

(** hashlib and web3: [hashlib.sha256(b).digest()], [Web3.keccak(n)] on an
    [int] and [Web3.to_checksum_address]. *)
Class Hashes : Type := {
  sha256 : list byte -> list byte;
  keccak : Z -> list byte;
  to_checksum_address : string -> string;
  keccak_length : forall n, length (keccak n) = 32%nat;
  checksum_shape : forall body,
    Forall (fun c => is_Some (char_digit c)) (chars body) ->
    exists body', to_checksum_address ("0x" ++ body) = "0x" ++ body' /\
                  Forall (fun c => is_Some (char_digit c)) (chars body')
}.

(** cryptography: HKDF-SHA256 with 32 bytes of output, and Fernet.  [iv]
    stands for the time stamp and the initialisation vector that
    [Fernet.encrypt] draws; the key is the raw 32-byte key, before
    [base64.b64encode]. *)
Class Cryptography : Type := {
  hkdf_derive : list byte -> list byte;
  fernet_encrypt : list byte -> Z -> string -> string;
  fernet_decrypt : list byte -> string -> result string;
  hkdf_length : forall ikm, length (hkdf_derive ikm) = 32%nat;
  fernet_decrypt_encrypt : forall key iv data,
    length key = 32%nat -> fernet_decrypt key (fernet_encrypt key iv data) = Ok data
}.

(** The dictionaries that are serialised with [json]: the share sent in
    round 2, [{"receiver_id": id, "f": value}], and a published nonce
    commitment, [{"id": ..., "public_nonce_d": ..., "public_nonce_e": ...}]. *)
Record share_payload : Type := mkPayload {
  sp_receiver_id : string;
  sp_f : Z
}.

Record nonce_commitment : Type := mkCommitment {
  nc_id : Z;
  public_nonce_d : Z;
  public_nonce_e : Z
}.

(** json: [json.dumps] and [json.loads] on these dictionaries. *)
Class Json : Type := {
  json_dumps_share : share_payload -> string;
  json_loads_share : string -> result share_payload;
  json_dumps_nonces : list nonce_commitment -> string;
  json_loads_dumps : forall p, json_loads_share (json_dumps_share p) = Ok p
}.

(** ** crypto_utils *)

Section CryptoUtils.
Context {curve : Fastecdsa} {hashes : Hashes} {crypto : Cryptography} {json : Json}.

Definition N : Z := q.

(** [keys.get_public_key(d, curve)] is [d * curve.G]. *)
Definition get_public_key (d : Z) : point := pmul d G.

Definition coef_pub_keys (p : Polynomial) : list point :=
  map get_public_key (coefficients p).

Definition pub_to_addr (public_key : point) : result string :=
  let pub_key_hex := str_drop 2 (py_hex (px public_key)) ++ str_drop 2 (py_hex (py public_key)) in
  n ← py_int_base 16 pub_key_hex;
  let pub_hash := keccak n in
  Ok (to_checksum_address ("0x" ++ str_last 40 (bytes_hex pub_hash))).

Definition pub_to_code (public_key : point) : result Z :=
  let comp_pub := encode_public_key public_key in
  py_int_base 16 (bytes_hex comp_pub).

Definition str_remove_x (s : string) : string :=
  text (filter (fun c => c <> "x"%char) (chars s)).

Definition code_to_pub (key : Z) : result point :=
  key_byte ← bytes_fromhex (str_remove_x (py_hex key));
  decode_public_key key_byte.

Definition private_to_point (private_key : Z) : point :=
  get_public_key private_key.

Record compressed_pub : Type := mkCompressed {
  cp_x : string;
  cp_y_parity : Z
}.

Definition pub_compress (public_key : point) : result compressed_pub :=
  let coded := encode_public_key public_key in
  let x := "0x" ++ str_drop 2 (bytes_hex coded) in
  c ← py_index (chars (bytes_hex coded)) 1;
  y ← py_int (text [c]);
  Ok (mkCompressed x (y - 2)).

Definition pub_decompress (pub_dict : compressed_pub) : result point :=
  let x := cp_x pub_dict in
  let y := cp_y_parity pub_dict + 2 in
  y_digits ← py_str_checked y;
  let coded := "0" ++ y_digits ++ str_drop 2 x in
  bs ← bytes_fromhex coded;
  decode_public_key bs.

(** The second loop of [calc_poly_point], from index [i] on. *)
Fixpoint calc_poly_point_loop (polynomial : list point) (x : Z) (i : nat)
    (acc : point) : point :=
  match polynomial with
  | [] => acc
  | p :: rest =>
      calc_poly_point_loop rest x (S i) (padd acc (pmul (x ^ Z.of_nat i mod N) p))
  end.

Definition calc_poly_point (polynomial : list point) (x : Z) : result point :=
  match polynomial with
  | [] => Raise "IndexError"
  | p0 :: rest => Ok (calc_poly_point_loop rest x 1 (pmul (x ^ 0 mod N) p0))
  end.

(** The loop of [langrange_coef] over the indices [k != index]; [ids] is
    the list of the [id] fields of [shares], the only field that is read. *)
Fixpoint langrange_loop (ks : list nat) (ids : list Z) (x x_j : Z)
    (nums denums : list Z) : result (list Z * list Z) :=
  match ks with
  | [] => Ok (nums, denums)
  | k :: rest =>
      x_k ← py_index ids k;
      langrange_loop rest ids x x_j (nums ++ [x - x_k]) (denums ++ [x_j - x_k])
  end.

Definition langrange_coef (index threshold : nat) (ids : list Z) (x : Z) : result Z :=
  x_j ← py_index ids index;
  nd ← langrange_loop (filter (fun i => i <> index) (seq 0 threshold)) ids x x_j [] [];
  let num := math_prod nd.1 in
  let denum := math_prod nd.2 in
  inv ← mod_inverse denum N;
  Ok (inv * num).

Record share : Type := mkShare {
  share_id : Z;
  share_key : Z
}.

Fixpoint reconstruct_loop (js : list nat) (shares : list share) (threshold : nat)
    (x : Z) (sum : Z) : result Z :=
  match js with
  | [] => Ok sum
  | j :: rest =>
      coef ← langrange_coef j threshold (map share_id shares) x;
      s ← py_index shares j;
      let key := share_key s in
      reconstruct_loop rest shares threshold x ((sum + (key * coef mod N)) mod N)
  end.

Definition reconstruct_share (shares : list share) (threshold : nat) (x : Z) : result Z :=
  if bool_decide (length shares = threshold) then
    sum ← reconstruct_loop (seq 0 threshold) shares threshold x 0;
    Ok (sum mod N)
  else Raise "AssertionError".

Record signature : Type := mkSignature {
  sig_s : Z;
  sig_e : Z
}.

Definition schnorr_hash (public_key : point) (message : Z) : result (list byte) :=
  address ← pub_to_addr public_key;
  let addressBuff := str_drop 2 address in
  let msgBuff := str_drop 2 (py_hex message) in
  let totalBuff := addressBuff ++ msgBuff in
  n ← py_int_base 16 totalBuff;
  Ok (keccak n).

Definition schnorr_sign (shared_private_key nounce_private : Z)
    (nounce_public : point) (message : Z) : result signature :=
  h ← schnorr_hash nounce_public message;
  let e := int_from_bytes h in
  let s := (nounce_private - e * shared_private_key) mod N in
  Ok (mkSignature s e).

Definition stringify_signature (sg : signature) : string :=
  let S := zfill_left 64 (str_drop 2 (py_hex (sig_s sg))) in
  let E := zfill_left 64 (str_drop 2 (py_hex (sig_e sg))) in
  "0x" ++ E ++ S.

(** A [str] is modelled by its bytes: [len] and the slices count bytes,
    which are the characters of an ASCII string such as the ones that
    [stringify_signature] returns. *)
Definition split_signature (string_signature : string) : result signature :=
  let raw_bytes := str_drop 2 string_signature in
  if bool_decide (length (chars raw_bytes) = 128%nat) then
    let e := "0x" ++ str_take 64 raw_bytes in
    let s := "0x" ++ str_drop 64 raw_bytes in
    s' ← py_int_base 16 s;
    e' ← py_int_base 16 e;
    Ok (mkSignature s' e')
  else Raise "AssertionError".

(** [schnorr_verify] on an [int] message and a [str] signature, as
    [KeyGen.round2] calls it. *)
Definition schnorr_verify (public_key : point) (message : Z)
    (sg : string) : result bool :=
  sg ← split_signature sg;
  if sig_s sg <? N then
    let r_v := padd (pmul (sig_s sg) G) (pmul (sig_e sg) public_key) in
    e_v ← schnorr_hash r_v message;
    Ok (bool_decide (int_from_bytes e_v = sig_e sg))
  else Raise "AssertionError".

(** The loop of [schnorr_aggregate_signatures] over [range(threshold)];
    [party] is the list of the identifiers, the [id] fields of the
    dictionaries that are passed to [langrange_coef]. *)
Fixpoint schnorr_aggregate_loop (js : list nat) (threshold : nat)
    (signatures : list signature) (party : list Z) (aggregated_signature : Z)
    : result Z :=
  match js with
  | [] => Ok aggregated_signature
  | j :: rest =>
      coef ← langrange_coef j threshold party 0;
      sg ← py_index signatures j;
      schnorr_aggregate_loop rest threshold signatures party
        (aggregated_signature + sig_s sg * coef)
  end.

Definition schnorr_aggregate_signatures (threshold : nat) (signatures : list signature)
    (party : list Z) : result signature :=
  if bool_decide (threshold <= length signatures)%nat then
    aggregated_signature ← schnorr_aggregate_loop (seq 0 threshold) threshold
                             signatures party 0;
    let s := aggregated_signature mod N in
    first ← py_index signatures 0;
    Ok (mkSignature s (sig_e first))
  else Raise "AssertionError".

Definition complaint_sign (private_key nonce hash : Z) : Z :=
  (nonce + private_key * hash) mod N.

Record complaint_proof : Type := mkProof {
  proof_public_nonce : point;
  proof_commitment : point;
  proof_signature : Z
}.

Definition complaint_verify (public_complaintant public_malicious encryption_key : point)
    (proof : complaint_proof) (hash : Z) : bool :=
  let public_nonce := proof_public_nonce proof in
  let public_commitment := proof_commitment proof in
  let sg := proof_signature proof in
  let point1 := padd public_nonce (pmul hash public_complaintant) in
  let point2 := pmul sg G in
  let verification1 := bool_decide (point1 = point2) in
  let point1 := padd public_commitment (pmul hash encryption_key) in
  let point2 := pmul sg public_malicious in
  let verification2 := bool_decide (point1 = point2) in
  verification1 && verification2.

Definition generate_hkdf_key (key : Z) : result (list byte) :=
  key_digits ← py_str_checked key;
  ikm ← bytes_fromhex key_digits;
  Ok (hkdf_derive ikm).

(** The [data] argument of [encrypt]: a [str], or a dictionary that
    [encrypt] first passes to [json.dumps]. *)
Inductive plain_data : Type :=
  | DataStr (s : string)
  | DataShare (p : share_payload).

Definition encrypt (data : plain_data) (key : list byte) (iv : Z) : string :=
  let data := match data with
              | DataStr s => s
              | DataShare p => json_dumps_share p
              end in
  fernet_encrypt key iv data.

Definition decrypt (data : string) (key : list byte) : result string :=
  fernet_decrypt key data.

End CryptoUtils.

(** ** frost: the data of the key generation *)

(** A proof of possession, [{"nonce": ..., "signature": ...}]. *)
Record pop_signature : Type := mkPop {
  pop_nonce : Z;
  pop_sig : string
}.

(** The broadcast of round 1. *)
Record round1_data : Type := mkRound1 {
  r1_sender_id : string;
  r1_public_fx : list Z;
  r1_coefficient0_signature : pop_signature;
  r1_public_key : Z;
  r1_secret_signature : pop_signature;
  r1_key_type : string
}.

(** An entry of [self.malicious], [{"id": ..., "complaint": data}]. *)
Record malicious_entry : Type := mkMalicious {
  mal_id : string;
  mal_complaint : round1_data
}.

(** A message of round 2. *)
Record round2_data : Type := mkRound2 {
  r2_receiver_id : string;
  r2_sender_id : string;
  r2_data : string
}.

Record dkg_key_pair : Type := mkKeyPair {
  kp_share : Z;
  kp_dkg_public_key : Z
}.

(** The complaint that [__create_complaint] assembles. *)
Record complaint : Type := mkComplaint {
  c_complaintant : string;
  c_malicious : string;
  c_encryption_key : Z;
  c_public_nonce : Z;
  c_nonce : Z;
  c_signature : Z
}.

(** The dictionary that [round3] returns: [{"status": "COMPLAINT", "data":
    complaints}], or the dictionary with ["status": "SUCCESSFUL"]. *)
Inductive round3_result : Type :=
  | Round3Complaint (data : list complaint)
  | Round3Successful (dkg_public_key public_share : Z) (key_pair : dkg_key_pair)
      (key_type : string).

Definition round3_status (r : round3_result) : string :=
  match r with
  | Round3Complaint _ => "COMPLAINT"
  | Round3Successful _ _ _ _ => "SUCCESSFUL"
  end.

(** The random draws of round 1: three calls of [keys.gen_keypair] and the
    coefficients of the polynomial. *)
Record round1_random : Type := mkRandom {
  rnd_secret_key : Z;
  rnd_secret_nonce : Z;
  rnd_coefficients : nat -> Z;
  rnd_coef0_nonce : Z
}.

(** An attribute that is set by a later method is [None] until then;
    reading it before raises [AttributeError]. *)
Definition getattr {A} (o : option A) : result A :=
  match o with
  | Some a => Ok a
  | None => Raise "AttributeError"
  end.

(** [d[k]] on a dictionary. *)
Definition dict_get {A} (d : gmap string A) (k : string) : result A :=
  match d !! k with
  | Some a => Ok a
  | None => Raise "KeyError"
  end.

(** [l.remove(x)]: removes the first occurrence, [ValueError] when absent. *)
Fixpoint list_remove_first (x : string) (l : list string) : option (list string) :=
  match l with
  | [] => None
  | y :: rest =>
      if bool_decide (y = x) then Some rest
      else rest' ← list_remove_first x rest; Some (y :: rest')
  end.

(** ** frost: KeyGen *)

Section KeyGenRounds.
Context {curve : Fastecdsa} {hashes : Hashes} {crypto : Cryptography} {json : Json}.

Record KeyGen : Type := mkKeyGen {
  kg_threshold : Z;
  kg_dkg_id : string;
  kg_node_id : string;
  kg_partners : list string;
  kg_coefficient0 : option coefficient0;
  kg_malicious : list malicious_entry;
  kg_key_type : string;
  kg_status : string;
  kg_secret_key : option Z;
  kg_fx : option Polynomial;
  kg_public_fx : option (list point);
  kg_coef0_signature : option pop_signature;
  kg_round1_broadcasted_data : option (list round1_data);
  kg_partners_public_keys : option (gmap string Z);
  kg_dkg_key_pair : option dkg_key_pair
}.

Definition KeyGen_init (dkg_id : string) (threshold : Z) (node_id : string)
    (partners : list string) (coefficient0 : option coefficient0)
    (key_type : string) : KeyGen :=
  mkKeyGen threshold dkg_id node_id partners coefficient0 [] key_type "STARTED"
    None None None None None None None.

(** The hash of a proof of possession:
    [sha256(id.encode() + dkg_id.encode() + key.to_bytes(33, "big")
            + nonce.to_bytes(33, "big")).digest()]. *)
Definition pop_hash (id dkg_id : string) (key_code nonce_code : Z) : result (list byte) :=
  key_bytes ← int_to_bytes key_code 33;
  nonce_bytes ← int_to_bytes nonce_code 33;
  Ok (sha256 (str_encode id ++ str_encode dkg_id ++ key_bytes ++ nonce_bytes)).

Definition round1 (self : KeyGen) (rnd : round1_random) : result (KeyGen * round1_data) :=
  let secret_key := rnd_secret_key rnd in
  let public_key := get_public_key secret_key in
  let secret_nonce := rnd_secret_nonce rnd in
  let public_nonce := get_public_key secret_nonce in
  public_key_code ← pub_to_code public_key;
  public_nonce_code ← pub_to_code public_nonce;
  secret_pop_hash ← pop_hash (kg_node_id self) (kg_dkg_id self)
                      public_key_code public_nonce_code;
  secret_pop_sign ← schnorr_sign secret_key secret_nonce public_nonce
                      (int_from_bytes secret_pop_hash);
  let secret_signature := mkPop public_nonce_code (stringify_signature secret_pop_sign) in
  fx ← Polynomial_init (kg_threshold self) (kg_coefficient0 self) (rnd_coefficients rnd);
  let public_fx := coef_pub_keys fx in
  let coef0_nonce := rnd_coef0_nonce rnd in
  let public_coef0_nonce := get_public_key coef0_nonce in
  public_fx_0 ← py_index public_fx 0;
  public_fx_0_code ← pub_to_code public_fx_0;
  public_coef0_nonce_code ← pub_to_code public_coef0_nonce;
  coef0_pop_hash ← pop_hash (kg_node_id self) (kg_dkg_id self)
                     public_fx_0_code public_coef0_nonce_code;
  coefficient_0 ← py_index (coefficients fx) 0;
  coef0_pop_sign ← schnorr_sign coefficient_0 coef0_nonce public_coef0_nonce
                     (int_from_bytes coef0_pop_hash);
  let coef0_signature := mkPop public_coef0_nonce_code (stringify_signature coef0_pop_sign) in
  public_fx_codes ← traverse pub_to_code public_fx;
  let self' := mkKeyGen (kg_threshold self) (kg_dkg_id self) (kg_node_id self)
                 (kg_partners self) (kg_coefficient0 self) (kg_malicious self)
                 (kg_key_type self) "ROUND1"
                 (Some secret_key) (Some fx) (Some public_fx) (Some coef0_signature)
                 (kg_round1_broadcasted_data self) (kg_partners_public_keys self)
                 (kg_dkg_key_pair self) in
  Ok (self', mkRound1 (kg_node_id self) public_fx_codes coef0_signature
               public_key_code secret_signature (kg_key_type self)).

(** The verification of one proof of possession in [round2]. *)
Definition verify_pop (sender_id dkg_id : string) (key_code : Z)
    (pop : pop_signature) : result bool :=
  h ← pop_hash sender_id dkg_id key_code (pop_nonce pop);
  key ← code_to_pub key_code;
  schnorr_verify key (int_from_bytes h) (pop_sig pop).

(** The first loop of [round2], over [round1_broadcasted_data]. *)
Fixpoint round2_verify_loop (self_id dkg_id : string) (datas : list round1_data)
    (malicious : list malicious_entry) (partners_public_keys : gmap string Z)
    : result (list malicious_entry * gmap string Z) :=
  match datas with
  | [] => Ok (malicious, partners_public_keys)
  | data :: rest =>
      let sender_id := r1_sender_id data in
      if bool_decide (sender_id = self_id) then
        round2_verify_loop self_id dkg_id rest malicious partners_public_keys
      else
        let sender_public_fx := r1_public_fx data in
        sender_public_fx_0 ← py_index sender_public_fx 0;
        coef0_verification ← verify_pop sender_id dkg_id sender_public_fx_0
                               (r1_coefficient0_signature data);
        let sender_public_key := r1_public_key data in
        secret_verification ← verify_pop sender_id dkg_id sender_public_key
                                (r1_secret_signature data);
        let malicious' :=
          if negb secret_verification || negb coef0_verification
          then (malicious ++ [mkMalicious sender_id data])%list
          else malicious in
        round2_verify_loop self_id dkg_id rest malicious'
          (<[sender_id := sender_public_key]> partners_public_keys)
  end.

(** [qualified.remove(node["id"])] for every malicious node, inside
    [try ... except: pass]. *)
Fixpoint remove_malicious (malicious : list malicious_entry) (qualified : list string)
    : list string :=
  match malicious with
  | [] => qualified
  | node :: rest =>
      match list_remove_first (mal_id node) qualified with
      | Some qualified' => remove_malicious rest qualified'
      | None => remove_malicious rest qualified
      end
  end.

(** The last loop of [round2], over [qualified]; [ivs i] is what
    [Fernet.encrypt] draws at the iteration [i]. *)
Fixpoint round2_send_loop (self_id : string) (secret_key : Z) (fx : Polynomial)
    (partners_public_keys : gmap string Z) (ivs : nat -> Z) (i : nat)
    (qualified : list string) : result (list round2_data) :=
  match qualified with
  | [] => Ok []
  | id :: rest =>
      partner_key ← dict_get partners_public_keys id;
      partner_point ← code_to_pub partner_key;
      encryption_joint_key ← pub_to_code (pmul secret_key partner_point);
      encryption_key ← generate_hkdf_key encryption_joint_key;
      id_as_int ← py_int id;
      let data := mkRound2 id self_id
                    (encrypt (DataShare (mkPayload id (evaluate fx id_as_int)))
                       encryption_key (ivs i)) in
      result_data ← round2_send_loop self_id secret_key fx partners_public_keys ivs (S i) rest;
      Ok (data :: result_data)
  end.

Definition round2 (self : KeyGen) (round1_broadcasted_data : list round1_data)
    (ivs : nat -> Z) : result (KeyGen * list round2_data) :=
  fx ← getattr (kg_fx self);
  secret_key ← getattr (kg_secret_key self);
  verified ← round2_verify_loop (kg_node_id self) (kg_dkg_id self)
               round1_broadcasted_data (kg_malicious self) ∅;
  let malicious := verified.1 in
  let partners_public_keys := verified.2 in
  let qualified := remove_malicious malicious (kg_partners self) in
  result_data ← round2_send_loop (kg_node_id self) secret_key fx partners_public_keys
                  ivs 0 qualified;
  let self' := mkKeyGen (kg_threshold self) (kg_dkg_id self) (kg_node_id self)
                 qualified (kg_coefficient0 self) malicious
                 (kg_key_type self) "ROUND2"
                 (kg_secret_key self) (kg_fx self) (kg_public_fx self)
                 (kg_coef0_signature self)
                 (Some round1_broadcasted_data) (Some partners_public_keys)
                 (kg_dkg_key_pair self) in
  Ok (self', result_data).

(** [self.complain]: the class [KeyGen] defines no method [complain] and no
    method sets such an attribute, so that the attribute lookup raises. *)
Definition KeyGen_complain (self : KeyGen) (secret_key : Z) (sender_id : string)
    (partner_public : Z) : result complaint :=
  Raise "AttributeError".

(** The inner loop of [round3], over [self.round1_broadcasted_data]. *)
Fixpoint round3_check_loop (self : KeyGen) (secret_key : Z) (sender_id : string)
    (partner_public : Z) (f : Z) (datas : list round1_data)
    (complaints : list complaint) : result (list complaint) :=
  match datas with
  | [] => Ok complaints
  | round1_data :: rest =>
      if bool_decide (r1_sender_id round1_data = sender_id) then
        let public_fx := r1_public_fx round1_data in
        points ← traverse code_to_pub public_fx;
        node_int ← py_int (kg_node_id self);
        point1 ← calc_poly_point points node_int;
        let point2 := pmul f G in
        if bool_decide (point1 <> point2) then
          c ← KeyGen_complain self secret_key sender_id partner_public;
          round3_check_loop self secret_key sender_id partner_public f rest
            (complaints ++ [c])%list
        else
          round3_check_loop self secret_key sender_id partner_public f rest complaints
      else
        round3_check_loop self secret_key sender_id partner_public f rest complaints
  end.

(** The loop of [round3] over [round2_encrypted_data]. *)
Fixpoint round3_message_loop (self : KeyGen) (secret_key : Z)
    (partners_public_keys : gmap string Z) (messages : list round2_data)
    (round2_datas : list share_payload) (complaints : list complaint)
    : result (list share_payload * list complaint) :=
  match messages with
  | [] => Ok (round2_datas, complaints)
  | message :: rest =>
      let sender_id := r2_sender_id message in
      let receiver_id := r2_receiver_id message in
      let encrypted_data := r2_data message in
      partner_key ← dict_get partners_public_keys sender_id;
      partner_point ← code_to_pub partner_key;
      encryption_joint_key ← pub_to_code (pmul secret_key partner_point);
      encryption_key ← generate_hkdf_key encryption_joint_key;
      if bool_decide (receiver_id = kg_node_id self) then
        plain ← decrypt encrypted_data encryption_key;
        data ← json_loads_share plain;
        broadcasted ← getattr (kg_round1_broadcasted_data self);
        complaints' ← round3_check_loop self secret_key sender_id partner_key
                        (sp_f data) broadcasted complaints;
        round3_message_loop self secret_key partners_public_keys rest
          (round2_datas ++ [data])%list complaints'
      else Raise "AssertionError"
  end.

(** The loop of [round3] that collects the constant commitments of the
    partners. *)
Fixpoint round3_public_loop (partners : list string) (datas : list round1_data)
    (public_fx : list point) : result (list point) :=
  match datas with
  | [] => Ok public_fx
  | data :: rest =>
      if bool_decide (r1_sender_id data ∈ partners) then
        code ← py_index (r1_public_fx data) 0;
        P ← code_to_pub code;
        round3_public_loop partners rest (public_fx ++ [P])%list
      else round3_public_loop partners rest public_fx
  end.

Definition round3 (self : KeyGen) (round2_encrypted_data : list round2_data)
    : result (KeyGen * round3_result) :=
  secret_key ← getattr (kg_secret_key self);
  partners_public_keys ← getattr (kg_partners_public_keys self);
  received ← round3_message_loop self secret_key partners_public_keys
               round2_encrypted_data [] [];
  let round2_datas := received.1 in
  let complaints := received.2 in
  if (0 <? length complaints)%nat then
    let self' := mkKeyGen (kg_threshold self) (kg_dkg_id self) (kg_node_id self)
                   (kg_partners self) (kg_coefficient0 self) (kg_malicious self)
                   (kg_key_type self) "COMPLAINT"
                   (kg_secret_key self) (kg_fx self) (kg_public_fx self)
                   (kg_coef0_signature self) (kg_round1_broadcasted_data self)
                   (kg_partners_public_keys self) (kg_dkg_key_pair self) in
    Ok (self', Round3Complaint complaints)
  else
    fx ← getattr (kg_fx self);
    node_int ← py_int (kg_node_id self);
    let my_fragment := evaluate fx node_int in
    let share_fragments := my_fragment :: map sp_f round2_datas in
    own_public_fx ← getattr (kg_public_fx self);
    own_public_fx_0 ← py_index own_public_fx 0;
    broadcasted ← getattr (kg_round1_broadcasted_data self);
    public_fx ← round3_public_loop (kg_partners self) broadcasted [own_public_fx_0];
    public_fx_0 ← py_index public_fx 0;
    let dkg_public_key := fold_left padd (drop 1 public_fx) public_fx_0 in
    let share := py_sum share_fragments in
    dkg_public_key_code ← pub_to_code dkg_public_key;
    let key_pair := mkKeyPair share dkg_public_key_code in
    public_share ← pub_to_code (get_public_key share);
    let self' := mkKeyGen (kg_threshold self) (kg_dkg_id self) (kg_node_id self)
                   (kg_partners self) (kg_coefficient0 self) (kg_malicious self)
                   (kg_key_type self) "COMPLETED"
                   (kg_secret_key self) (kg_fx self) (kg_public_fx self)
                   (kg_coef0_signature self) (kg_round1_broadcasted_data self)
                   (kg_partners_public_keys self) (Some key_pair) in
    Ok (self', Round3Successful dkg_public_key_code public_share key_pair
                 (kg_key_type self)).

(** [__create_complaint], which no method calls: [keys.gen_keypair] is
    called without its [curve] argument. *)
Definition __create_complaint (node_id : string) (secret_key : Z)
    (partner_id : string) (partner_public : point) : result complaint :=
  encryption_joint_key ← pub_to_code (pmul secret_key partner_public);
  let public_key := get_public_key secret_key in
  Raise "TypeError".

End KeyGenRounds.

(** ** frost: signing *)

(** The result of [single_sign]. *)
Record signature_share : Type := mkSigShare {
  ss_id : Z;
  ss_signature : Z;
  ss_public_key : Z;
  ss_aggregated_public_nonce : Z;
  ss_key_type : string
}.

(** The result of [aggregate_signatures]. *)
Record group_signature : Type := mkGroupSig {
  gs_nonce : string;
  gs_public_nonce : compressed_pub;
  gs_public_key : compressed_pub;
  gs_signature : Z;
  gs_message : string;
  gs_key_type : string
}.

(** The private half of a nonce pair, as [Key.sign] reads it. *)
Record nonce_pair : Type := mkNoncePair {
  nonce_d : Z;
  nonce_e : Z
}.

(** The argument [dkg_key] of [Key.__init__]; [Key] reads its entries
    [share], [dkg_public_key] and [key_type]. *)
Record key_dict : Type := mkKeyDict {
  kd_share : Z;
  kd_dkg_public_key : Z;
  kd_key_type : option string
}.

(** The modules [eth_utils] and [btc_utils] are imported by [frost.py] but
    are not among the sources.  The ETH profile is modelled from the
    specification below; it needs the integer [m_int] that stands for the
    message, whose encoding the specification leaves open.  The functions
    of the BTC profile are taken as an interface. *)
Class Profiles `{Fastecdsa} : Type := {
  message_int : string -> Z;
  message_int_nonneg : forall m, 0 <= message_int m;
  tweaked_pubkey : Type;
  calculate_tweaked : Z -> compressed_pub -> result (Z * tweaked_pubkey);
  btc_challenge : tweaked_pubkey -> string -> point -> result Z;
  btc_generate_signature_share :
    Z -> Z -> Z -> point -> Z -> Z -> option (list byte) -> result Z;
  btc_verify_group_signature : group_signature -> result bool
}.

Section Signing.
Context {curve : Fastecdsa} {hashes : Hashes} {crypto : Cryptography} {json : Json}
        {profiles : Profiles}.

(** Modelled from the spec: [eth_utils.eth_challenge], which is not among
    the sources.  "ETH: c = int_be(keccak256(addr(R) || hex_digits(m_int)))",
    the hash that [schnorr_hash] computes. *)
Definition eth_challenge (group_key_pub : compressed_pub) (message : string)
    (aggregated_public_nonce : point) : result Z :=
  h ← schnorr_hash aggregated_public_nonce (message_int message);
  Ok (int_from_bytes h).

(** Modelled from the spec: [eth_utils.eth_generate_signature_share], which
    is not among the sources.  "ETH: z_i = rho_i * e_i + d_i - lambda_i * c *
    share_i mod n", with [rho_i] the integer of the signer's row; the row is
    [None] when the signer's identifier is not in the commitments. *)
Definition eth_generate_signature_share (share coef challenge nonce_d nonce_e : Z)
    (row : option (list byte)) : result Z :=
  match row with
  | Some row =>
      Ok ((int_from_bytes row * nonce_e + nonce_d - coef * challenge * share) mod N)
  | None => Raise "TypeError"
  end.

(** Modelled from the spec: [eth_utils.eth_verify_group_sign], which is not
    among the sources.  "standard Schnorr verify against Y (ETH: keccak
    challenge with address-of-R)": the point [z * G + c * Y] must have the
    address of the nonce. *)
Definition eth_verify_group_sign (group_pub_key : compressed_pub) (message : string)
    (aggregated_signature : group_signature) : result bool :=
  R ← pub_decompress (gs_public_nonce aggregated_signature);
  challenge ← eth_challenge group_pub_key message R;
  Y ← pub_decompress group_pub_key;
  let point := padd (pmul (gs_signature aggregated_signature) G) (pmul challenge Y) in
  address ← pub_to_addr point;
  Ok (bool_decide (address = gs_nonce aggregated_signature)).

(** Modelled from the spec: [lagrange_coef], which [frost.py] imports from
    [crypto_utils] and which is not defined there.  "lambda_j(x) = prod_{k<>j}
    (x - x_k) * (x_j - x_k)^-1 mod n" on the identifiers of the commitments,
    computed the way [langrange_coef] of [crypto_utils] computes it. *)
Definition lagrange_coef (index threshold : nat) (shares : list nonce_commitment)
    (x : Z) : result Z :=
  langrange_coef index threshold (map nc_id shares) x.

(** [sha256(nonce["id"].to_bytes(32, "big") + message_bytes + nonces_hash).digest()] *)
Definition row_hash (id : Z) (message_bytes nonces_hash : list byte) : result (list byte) :=
  id_bytes ← int_to_bytes id 32;
  Ok (sha256 (id_bytes ++ message_bytes ++ nonces_hash)).

Definition add_nonce (aggregated : option point) (public_nonce : point) : option point :=
  match aggregated with
  | None => Some public_nonce
  | Some acc => Some (padd acc public_nonce)
  end.

(** The loop of [single_sign] over [enumerate(nonces_list)]; [my_row] is
    [None] as long as it is the initial [0], which is not a [bytes]. *)
Fixpoint single_sign_loop (id : Z) (message_bytes nonces_hash : list byte)
    (nonces : list nonce_commitment) (idx : nat)
    (aggregated : option point) (my_row : option (list byte)) (index : nat)
    : result (option point * option (list byte) * nat) :=
  match nonces with
  | [] => Ok (aggregated, my_row, index)
  | nonce :: rest =>
      nonce_d_public ← code_to_pub (public_nonce_d nonce);
      nonce_e_public ← code_to_pub (public_nonce_e nonce);
      if is_point_on_curve (px nonce_d_public) (py nonce_d_public) then
        if is_point_on_curve (px nonce_e_public) (py nonce_e_public) then
          row ← row_hash (nc_id nonce) message_bytes nonces_hash;
          let public_nonce := padd nonce_d_public (pmul (int_from_bytes row) nonce_e_public) in
          let aggregated' := add_nonce aggregated public_nonce in
          if bool_decide (id = nc_id nonce) then
            single_sign_loop id message_bytes nonces_hash rest (S idx)
              aggregated' (Some row) idx
          else
            single_sign_loop id message_bytes nonces_hash rest (S idx)
              aggregated' my_row index
        else Raise "AssertionError"
      else Raise "AssertionError"
  end.

(** [pub_to_addr(None)], [pub_to_code(None)]: the aggregated nonce is
    [None] when there is no commitment. *)
Definition the_point (aggregated : option point) : result point :=
  match aggregated with
  | Some R => Ok R
  | None => Raise "AttributeError"
  end.

(** [single_sign]; [nonces_dict] is the dictionary of the commitments, in
    the order of insertion. *)
Definition single_sign (id share nonce_d nonce_e : Z) (message : string)
    (nonces_dict : list (string * nonce_commitment)) (group_key : Z)
    (key_type : string) : result signature_share :=
  let message_bytes := str_encode message in
  let nonces_list := map snd nonces_dict in
  let nonces_hash := sha256 (str_encode (json_dumps_nonces nonces_list)) in
  looped ← single_sign_loop id message_bytes nonces_hash nonces_list 0 None None 0;
  let aggregated_public_nonce := looped.1.1 in
  let my_row := looped.1.2 in
  let index := looped.2 in
  group_key_point ← code_to_pub group_key;
  group_key_pub ← pub_compress group_key_point;
  share_and_signature ←
    (if bool_decide (key_type = "ETH") then
       R ← the_point aggregated_public_nonce;
       challenge ← eth_challenge group_key_pub message R;
       coef ← lagrange_coef index (length nonces_list) nonces_list 0;
       signature_share ← eth_generate_signature_share share coef challenge
                           nonce_d nonce_e my_row;
       Ok (share, signature_share)
     else if bool_decide (key_type = "BTC") then
       tweaked ← calculate_tweaked share group_key_pub;
       R ← the_point aggregated_public_nonce;
       challenge ← btc_challenge tweaked.2 message R;
       coef ← lagrange_coef index (length nonces_list) nonces_list 0;
       signature_share ← btc_generate_signature_share tweaked.1 (coef mod q) challenge R
                           nonce_d nonce_e my_row;
       Ok (tweaked.1, signature_share)
     else Raise "UnboundLocalError");
  public_key ← pub_to_code (get_public_key share_and_signature.1);
  R ← the_point aggregated_public_nonce;
  aggregated_code ← pub_to_code R;
  Ok (mkSigShare id share_and_signature.2 public_key aggregated_code key_type).

Record Key : Type := mkKey {
  key_share : Z;
  key_dkg_public_key : point;
  key_node_id : string;
  key_key_type : string
}.

Definition Key_init (dkg_key : key_dict) (node_id : string) : result Key :=
  dkg_public_key ← code_to_pub (kd_dkg_public_key dkg_key);
  key_type ← match kd_key_type dkg_key with
             | Some t => Ok t
             | None => Raise "KeyError"
             end;
  Ok (mkKey (kd_share dkg_key) dkg_public_key node_id key_type).

Definition Key_sign (self : Key) (nonces_dict : list (string * nonce_commitment))
    (message : string) (pair : nonce_pair) : result signature_share :=
  id ← py_int (key_node_id self);
  group_key ← pub_to_code (key_dkg_public_key self);
  single_sign id (key_share self) (nonce_d pair) (nonce_e pair) message nonces_dict
    group_key (key_key_type self).

(** A private nonce pair of [create_nonces],
    [{"nonce_d_pair": {D: d}, "nonce_e_pair": {E: e}}]. *)
Record nonce_private : Type := mkNoncePrivate {
  np_public_d : Z;
  np_d : Z;
  np_public_e : Z;
  np_e : Z
}.

(** The loop of [create_nonces]; [gen i] is the pair that the two calls of
    [generate_random_private] return at the iteration [i]. *)
Fixpoint create_nonces_loop (node_id : Z) (gen : nat -> Z * Z) (i count : nat)
    : result (list nonce_commitment * list nonce_private) :=
  match count with
  | O => Ok ([], [])
  | S count' =>
      let d := (gen i).1 in
      let e := (gen i).2 in
      code_d ← pub_to_code (get_public_key d);
      code_e ← pub_to_code (get_public_key e);
      rest ← create_nonces_loop node_id gen (S i) count';
      Ok (mkCommitment node_id code_d code_e :: rest.1,
          mkNoncePrivate code_d d code_e e :: rest.2)
  end.

Definition create_nonces (node_id : Z) (number_of_nonces : nat) (gen : nat -> Z * Z)
    : result (list nonce_commitment * list nonce_private) :=
  create_nonces_loop node_id gen 0 number_of_nonces.

Fixpoint aggregate_nonce_loop (message_bytes nonces_hash : list byte)
    (nonces : list nonce_commitment) (aggregated : option point)
    : result (option point) :=
  match nonces with
  | [] => Ok aggregated
  | nonce :: rest =>
      nonce_d_public ← code_to_pub (public_nonce_d nonce);
      nonce_e_public ← code_to_pub (public_nonce_e nonce);
      row ← row_hash (nc_id nonce) message_bytes nonces_hash;
      let public_nonce := padd nonce_d_public (pmul (int_from_bytes row) nonce_e_public) in
      aggregate_nonce_loop message_bytes nonces_hash rest (add_nonce aggregated public_nonce)
  end.

Definition aggregate_nonce (message : string)
    (nonces_dict : list (string * nonce_commitment)) : result (option point) :=
  let nonces_list := map snd nonces_dict in
  let nonces_hash := sha256 (str_encode (json_dumps_nonces nonces_list)) in
  let message_bytes := str_encode message in
  aggregate_nonce_loop message_bytes nonces_hash nonces_list None.

Definition aggregate_signatures (message : string)
    (single_signatures : list signature_share) (aggregated_public_nonce : point)
    (group_key : Z) (key_type : string) : result group_signature :=
  let aggregated_signature := py_sum (map ss_signature single_signatures) mod N in
  nonce ← pub_to_addr aggregated_public_nonce;
  public_nonce ← pub_compress aggregated_public_nonce;
  group_key_point ← code_to_pub group_key;
  public_key ← pub_compress group_key_point;
  Ok (mkGroupSig nonce public_nonce public_key aggregated_signature message key_type).

(** [verify_group_signature]; the result is [None] when the key type is
    neither "ETH" nor "BTC". *)
Definition verify_group_signature (aggregated_signature : group_signature)
    : result (option bool) :=
  let group_pub_key := gs_public_key aggregated_signature in
  let message := gs_message aggregated_signature in
  if bool_decide (gs_key_type aggregated_signature = "ETH") then
    b ← eth_verify_group_sign group_pub_key message aggregated_signature; Ok (Some b)
  else if bool_decide (gs_key_type aggregated_signature = "BTC") then
    b ← btc_verify_group_signature aggregated_signature; Ok (Some b)
  else Ok None.

End Signing.

(** ** tests/test_keygen.py: a run of the protocol *)

Section Protocol.
Context {curve : Fastecdsa} {hashes : Hashes} {crypto : Cryptography} {json : Json}
        {profiles : Profiles}.

(** [partners = PARTY.copy(); partners.remove(node_id)] *)
Definition partners_of (node_id : string) (party : list string) : list string :=
  match list_remove_first node_id party with
  | Some partners => partners
  | None => party
  end.

Definition make_keys (dkg_id : string) (threshold : Z) (party : list string)
    (coefficient0 : option coefficient0) (key_type : string) : list KeyGen :=
  map (fun node_id =>
         KeyGen_init dkg_id threshold node_id (partners_of node_id party)
           coefficient0 key_type) party.

(** [for key in keys: round1_received_data.append(key.round1())]; [rnd i]
    holds the random draws of the participant at the position [i]. *)
Fixpoint run_round1 (keys : list KeyGen) (rnd : nat -> round1_random) (i : nat)
    : result (list KeyGen * list round1_data) :=
  match keys with
  | [] => Ok ([], [])
  | key :: rest =>
      sent ← round1 key (rnd i);
      others ← run_round1 rest rnd (S i);
      Ok (sent.1 :: others.1, sent.2 :: others.2)
  end.

Fixpoint run_round2 (keys : list KeyGen) (round1_received_data : list round1_data)
    (ivs : nat -> nat -> Z) (i : nat) : result (list KeyGen * list (list round2_data)) :=
  match keys with
  | [] => Ok ([], [])
  | key :: rest =>
      sent ← round2 key round1_received_data (ivs i);
      others ← run_round2 rest round1_received_data ivs (S i);
      Ok (sent.1 :: others.1, sent.2 :: others.2)
  end.

(** [round2_received_data[node_id]]: the messages addressed to [node_id],
    in the order in which they were sent. *)
Definition inbox (node_id : string) (sent : list (list round2_data)) : list round2_data :=
  filter (fun message => r2_receiver_id message = node_id) (concat sent).

Fixpoint run_round3 (keys : list KeyGen) (sent : list (list round2_data))
    : result (list (KeyGen * round3_result)) :=
  match keys with
  | [] => Ok []
  | key :: rest =>
      done ← round3 key (inbox (kg_node_id key) sent);
      others ← run_round3 rest sent;
      Ok (done :: others)
  end.

Definition run_dkg (dkg_id : string) (threshold : Z) (party : list string)
    (coefficient0 : option coefficient0) (key_type : string)
    (rnd : nat -> round1_random) (ivs : nat -> nat -> Z)
    : result (list (KeyGen * round3_result)) :=
  let keys := make_keys dkg_id threshold party coefficient0 key_type in
  after1 ← run_round1 keys rnd 0;
  after2 ← run_round2 after1.1 after1.2 ivs 0;
  run_round3 after2.1 after2.2.

(** [Key(key.dkg_key_pair, key.node_id)] of the test: the dictionary that
    [round3] stores in [self.dkg_key_pair] has the entries ["share"] and
    ["dkg_public_key"], and no entry ["key_type"]. *)
Definition make_sign_key (key : KeyGen) : result Key :=
  pair ← getattr (kg_dkg_key_pair key);
  Key_init (mkKeyDict (kp_share pair) (kp_dkg_public_key pair) None) (kg_node_id key).

(** A signer of the subset: its identifier, its share and the nonce pair
    that it uses. *)
Record signer : Type := mkSigner {
  signer_node_id : string;
  signer_id : Z;
  signer_share : Z;
  signer_nonce_d : Z;
  signer_nonce_e : Z
}.

(** [commitments_data[key.node_id] = commitment], with the commitment that
    [create_nonces] publishes for the nonce pair. *)
Definition commitment_of (s : signer) : result (string * nonce_commitment) :=
  code_d ← pub_to_code (get_public_key (signer_nonce_d s));
  code_e ← pub_to_code (get_public_key (signer_nonce_e s));
  Ok (signer_node_id s, mkCommitment (signer_id s) code_d code_e).

(** The signing of [message] by [subset], the aggregation of the shares
    and the verification of the group signature. *)
Definition run_sign (subset : list signer) (message : string) (group_key : Z)
    (key_type : string) : result (option bool) :=
  commitments_data ← traverse commitment_of subset;
  signs ← traverse (fun s =>
             single_sign (signer_id s) (signer_share s) (signer_nonce_d s)
               (signer_nonce_e s) message commitments_data group_key key_type) subset;
  aggregated ← aggregate_nonce message commitments_data;
  R ← the_point aggregated;
  group_sign ← aggregate_signatures message signs R group_key key_type;
  verify_group_signature group_sign.

End Protocol.

Local Close Scope string_scope.

(** * A small instance of the interfaces

    The group of the integers modulo 7, generated by 1, with toy hash
    functions and a toy cipher: an instance that shows that the laws of the
    interfaces can be met, on which the model is run. *)
Module Toy.

Definition toy_q : Z := 7.

Definition toy_point : Type := dsig (fun z : Z => 0 <= z < toy_q).

Lemma mod_in_range (z : Z) : 0 <= z mod toy_q < toy_q.
Proof. apply Z.mod_pos_bound. reflexivity. Qed.

Definition mk (z : Z) : toy_point := dexist (z mod toy_q) (mod_in_range z).

Definition val (P : toy_point) : Z := proj1_sig P.

Lemma val_range (P : toy_point) : 0 <= val P < toy_q.
Proof. destruct P as [z Hz]. exact (bool_decide_unpack _ Hz). Qed.

Lemma val_mk (z : Z) : val (mk z) = z mod toy_q.
Proof. reflexivity. Qed.

Lemma mk_eq (a b : Z) : a mod toy_q = b mod toy_q -> mk a = mk b.
Proof. intros E. apply dsig_eq. exact E. Qed.

Lemma mk_val (P : toy_point) : mk (val P) = P.
Proof. apply dsig_eq. cbn. apply Z.mod_small. apply val_range. Qed.

Lemma mk_inj (a b : Z) : mk a = mk b -> a mod toy_q = b mod toy_q.
Proof. intros E. apply (f_equal val) in E. exact E. Qed.

Definition toy_encode (P : toy_point) : list byte :=
  Byte.x02 :: to_bytes_acc 32 (val P) [].

Definition toy_decode (bs : list byte) : result toy_point :=
  match bs with
  | b :: rest =>
      let v := int_from_bytes rest in
      if (byte_val b =? 2) && (length rest =? 32)%nat && (1 <=? v) && (v <? toy_q)
      then Ok (mk v) else Raise "ValueError"
  | [] => Raise "ValueError"
  end.

Lemma toy_prime : Z.prime toy_q.
Proof.
  split; [reflexivity|]. intros n Hn [k Hk]. unfold toy_q in *.
  assert (n = 2 \/ n = 3 \/ n = 4 \/ n = 5 \/ n = 6) as Hc by lia.
  destruct Hc as [->|[->|[->|[->| ->]]]]; lia.
Qed.

Lemma toy_cases (P : toy_point) :
  P = mk 0 \/ P = mk 1 \/ P = mk 2 \/ P = mk 3 \/ P = mk 4 \/ P = mk 5 \/ P = mk 6.
Proof.
  pose proof (val_range P) as H. unfold toy_q in H.
  rewrite <- (mk_val P).
  assert (val P = 0 \/ val P = 1 \/ val P = 2 \/ val P = 3 \/ val P = 4 \/
          val P = 5 \/ val P = 6) as Hc by lia.
  repeat (destruct Hc as [->|Hc]; [tauto|]). rewrite Hc. tauto.
Qed.

#[local] Instance toy_point_eq_dec : EqDecision toy_point := _.

Definition toy_padd (P Q : toy_point) : toy_point := mk (val P + val Q).

Definition toy_pmul (k : Z) (P : toy_point) : toy_point := mk (k * val P).

Lemma toy_q_bound : toy_q < 2 ^ 256.
Proof. reflexivity. Qed.

Lemma toy_padd_comm P Q : toy_padd P Q = toy_padd Q P.
Proof. unfold toy_padd. f_equal. lia. Qed.

Lemma toy_padd_assoc P Q R : toy_padd P (toy_padd Q R) = toy_padd (toy_padd P Q) R.
Proof.
  unfold toy_padd. apply mk_eq. rewrite !val_mk.
  rewrite Zplus_mod_idemp_r, Zplus_mod_idemp_l. f_equal. lia.
Qed.

Lemma toy_pmul_1 P : toy_pmul 1 P = P.
Proof. unfold toy_pmul. rewrite Z.mul_1_l. apply mk_val. Qed.

Lemma toy_pmul_add a b P : toy_pmul (a + b) P = toy_padd (toy_pmul a P) (toy_pmul b P).
Proof.
  unfold toy_pmul, toy_padd. apply mk_eq. rewrite !val_mk.
  rewrite <- Zplus_mod. f_equal. lia.
Qed.

Lemma toy_pmul_pmul a b P : toy_pmul a (toy_pmul b P) = toy_pmul (a * b) P.
Proof.
  unfold toy_pmul. apply mk_eq. rewrite val_mk.
  rewrite Zmult_mod_idemp_r. f_equal. lia.
Qed.

Lemma toy_pmul_G_eq a b :
  toy_pmul a (mk 1) = toy_pmul b (mk 1) <-> a mod toy_q = b mod toy_q.
Proof.
  unfold toy_pmul. rewrite val_mk. change (1 mod toy_q) with 1. rewrite !Z.mul_1_r.
  split; [apply mk_inj | apply mk_eq].
Qed.

Lemma toy_pmul_0_G : toy_pmul 0 (mk 1) = mk 0.
Proof. reflexivity. Qed.

Lemma toy_coordinates_nonneg (P : toy_point) : 0 <= val P /\ 0 <= 0.
Proof. pose proof (val_range P). lia. Qed.

Lemma toy_on_curve (P : toy_point) : P <> mk 0 -> true = true.
Proof. reflexivity. Qed.

Lemma toy_encode_shape (P : toy_point) :
  P <> mk 0 ->
  exists b rest, toy_encode P = b :: rest /\ length rest = 32%nat /\
                 (byte_val b = 2 \/ byte_val b = 3).
Proof.
  intros HP.
  exists Byte.x02, (to_bytes_acc 32 (val P) []). split; [reflexivity|].
  split; [|left; reflexivity].
  destruct (toy_cases P) as [->|[->|[->|[->|[->|[->| ->]]]]]]; reflexivity.
Qed.

Lemma toy_decode_encode (P : toy_point) :
  P <> mk 0 -> toy_decode (toy_encode P) = Ok P.
Proof.
  intros HP.
  destruct (toy_cases P) as [->|[->|[->|[->|[->|[->| ->]]]]]];
    [congruence|..]; vm_compute; f_equal; apply dsig_eq; reflexivity.
Qed.

Instance toy_curve : Fastecdsa := {|
  point := toy_point;
  point_eq_dec := toy_point_eq_dec;
  q := toy_q;
  G := mk 1;
  IDENTITY := mk 0;
  padd := toy_padd;
  pmul := toy_pmul;
  px := val;
  py := fun _ => 0;
  is_point_on_curve := fun _ _ => true;
  encode_public_key := toy_encode;
  decode_public_key := toy_decode;
  q_prime := toy_prime;
  q_bound := toy_q_bound;
  padd_comm := toy_padd_comm;
  padd_assoc := toy_padd_assoc;
  pmul_1 := toy_pmul_1;
  pmul_add := toy_pmul_add;
  pmul_pmul := toy_pmul_pmul;
  pmul_G_eq := toy_pmul_G_eq;
  pmul_0_G := toy_pmul_0_G;
  coordinates_nonneg := toy_coordinates_nonneg;
  on_curve := toy_on_curve;
  encode_shape := toy_encode_shape;
  decode_encode := toy_decode_encode
|}.

Lemma to_bytes_acc_length (len : nat) : forall n acc,
  length (to_bytes_acc len n acc) = (len + length acc)%nat.
Proof.
  induction len as [|len IH]; intros n acc; cbn [to_bytes_acc]; [reflexivity|].
  rewrite IH. cbn [length]. lia.
Qed.

Definition toy_sha256 (bs : list byte) : list byte :=
  to_bytes_acc 32 (31 * int_from_bytes bs + 7) [].

Definition toy_keccak (n : Z) : list byte := to_bytes_acc 32 (17 * n + 3) [].

Lemma toy_keccak_length n : length (toy_keccak n) = 32%nat.
Proof. apply to_bytes_acc_length. Qed.

Lemma toy_checksum_shape (body : string) :
  Forall (fun c => is_Some (char_digit c)) (chars body) ->
  exists body', ("0x" ++ body)%string = ("0x" ++ body')%string /\
                Forall (fun c => is_Some (char_digit c)) (chars body').
Proof. intros Hbody. exists body. split; [reflexivity | exact Hbody]. Qed.

Instance toy_hashes : Hashes := {|
  sha256 := toy_sha256;
  keccak := toy_keccak;
  to_checksum_address := fun s => s;
  keccak_length := toy_keccak_length;
  checksum_shape := toy_checksum_shape
|}.

Definition toy_hkdf (ikm : list byte) : list byte :=
  to_bytes_acc 32 (int_from_bytes ikm) [].

Lemma toy_hkdf_length ikm : length (toy_hkdf ikm) = 32%nat.
Proof. apply to_bytes_acc_length. Qed.

Lemma toy_decrypt_encrypt (key : list byte) (iv : Z) (data : string) :
  length key = 32%nat -> Ok (A:=string) data = Ok data.
Proof. reflexivity. Qed.

Instance toy_crypto : Cryptography := {|
  hkdf_derive := toy_hkdf;
  fernet_encrypt := fun _ _ data => data;
  fernet_decrypt := fun _ token => Ok token;
  hkdf_length := toy_hkdf_length;
  fernet_decrypt_encrypt := toy_decrypt_encrypt
|}.

(** A toy serialisation: the sign of [f], [|f|] in unary, a comma and the
    identifier of the receiver. *)
Fixpoint toy_read_unary (s : string) (n : Z) : Z * string :=
  match s with
  | String "1" rest => toy_read_unary rest (n + 1)
  | String _ rest => (n, rest)
  | EmptyString => (n, EmptyString)
  end.

Fixpoint toy_unary (k : nat) (rest : string) : string :=
  match k with
  | O => rest
  | S k' => String "1" (toy_unary k' rest)
  end.

Definition toy_dumps_share (p : share_payload) : string :=
  String (if sp_f p <? 0 then "-"%char else "+"%char)
    (toy_unary (Z.to_nat (Z.abs (sp_f p))) (String "," (sp_receiver_id p))).

Definition toy_loads_share (s : string) : result share_payload :=
  match s with
  | String "-" rest => let r := toy_read_unary rest 0 in Ok (mkPayload r.2 (- r.1))
  | String "+" rest => let r := toy_read_unary rest 0 in Ok (mkPayload r.2 r.1)
  | _ => Raise "JSONDecodeError"
  end.

Lemma toy_read_unary_unary (k : nat) : forall rest n,
  toy_read_unary (toy_unary k (String "," rest)) n = (n + Z.of_nat k, rest).
Proof.
  induction k as [|k IH]; intros rest n; cbn [toy_unary toy_read_unary].
  - rewrite Z.add_0_r. reflexivity.
  - rewrite IH. f_equal. lia.
Qed.

Definition toy_dumps_nonces (l : list nonce_commitment) : string :=
  fold_right (fun c acc => (py_str (nc_id c) ++ "," ++ py_str (public_nonce_d c) ++ ","
                            ++ py_str (public_nonce_e c) ++ ";" ++ acc)%string)
    EmptyString l.

Lemma toy_loads_dumps (p : share_payload) : toy_loads_share (toy_dumps_share p) = Ok p.
Proof.
  destruct p as [id f]. unfold toy_dumps_share, toy_loads_share. cbn [sp_f sp_receiver_id].
  destruct (Z.ltb_spec f 0); rewrite toy_read_unary_unary; cbn [fst snd];
    do 2 f_equal; lia.
Qed.

Instance toy_json : Json := {|
  json_dumps_share := toy_dumps_share;
  json_loads_share := toy_loads_share;
  json_dumps_nonces := toy_dumps_nonces;
  json_loads_dumps := toy_loads_dumps
|}.

Definition toy_message_int (m : string) : Z := Z.of_nat (String.length m).

Lemma toy_message_int_nonneg m : 0 <= toy_message_int m.
Proof. unfold toy_message_int. lia. Qed.

Instance toy_profiles : Profiles := {|
  message_int := toy_message_int;
  message_int_nonneg := toy_message_int_nonneg;
  tweaked_pubkey := unit;
  calculate_tweaked := fun _ _ => Raise "NotImplementedError";
  btc_challenge := fun _ _ _ => Raise "NotImplementedError";
  btc_generate_signature_share := fun _ _ _ _ _ _ _ => Raise "NotImplementedError";
  btc_verify_group_signature := fun _ => Raise "NotImplementedError"
|}.

(** The draws, the initialisation vectors and the party of a run on the
    toy instance. *)
Definition toy_rnd (i : nat) : round1_random :=
  mkRandom (Z.of_nat i + 2) (Z.of_nat i + 3) (fun k => Z.of_nat (i + k) mod 6 + 1)
    (Z.of_nat i + 1).

Definition toy_ivs (_ _ : nat) : Z := 0.

Definition toy_party : list string := ["1"; "2"; "3"].

(** A message of round 2 whose share is replaced by the share plus one. *)
Definition toy_tamper (m : round2_data) : round2_data :=
  match toy_loads_share (r2_data m) with
  | Ok p =>
      mkRound2 (r2_receiver_id m) (r2_sender_id m)
        (toy_dumps_share (mkPayload (sp_receiver_id p) (sp_f p + 1)))
  | Raise _ => m
  end.

(** Rounds 1 and 2 among the three participants, then [round3] of the first
    one on the messages addressed to it, those of "2" changed by [change]. *)
Definition toy_round3 (change : round2_data -> round2_data)
    : result (KeyGen * round3_result) :=
  after1 ← run_round1 (make_keys "7" 2 toy_party None "ETH") toy_rnd 0;
  after2 ← run_round2 after1.1 after1.2 toy_ivs 0;
  receiver ← py_index after2.1 0;
  round3 receiver
    (map (fun m => if bool_decide (r2_sender_id m = "2") then change m else m)
       (inbox "1" after2.2)).

End Toy.

(** * Proofs: Python integers, strings and bytes *)

Definition hex_char (c : ascii) : Prop := is_Some (char_digit c).
Definition in_base (base d : Z) : Prop := 0 <= d < base.

Lemma small_cases (d : Z) (P : Z -> Prop) :
  0 <= d < 16 ->
  P 0 -> P 1 -> P 2 -> P 3 -> P 4 -> P 5 -> P 6 -> P 7 ->
  P 8 -> P 9 -> P 10 -> P 11 -> P 12 -> P 13 -> P 14 -> P 15 -> P d.
Proof.
  intros Hd. intros.
  assert (d = 0 \/ d = 1 \/ d = 2 \/ d = 3 \/ d = 4 \/ d = 5 \/ d = 6 \/ d = 7 \/
          d = 8 \/ d = 9 \/ d = 10 \/ d = 11 \/ d = 12 \/ d = 13 \/ d = 14 \/ d = 15)
    as Hc by lia.
  repeat (destruct Hc as [->|Hc]; [assumption|]). subst. assumption.
Qed.

Lemma char_digit_digit_char d : 0 <= d < 16 -> char_digit (digit_char d) = Some d.
Proof. intros Hd. pattern d. apply small_cases; [exact Hd|..]; reflexivity. Qed.

Lemma char_digit_range c d : char_digit c = Some d -> 0 <= d < 16.
Proof.
  unfold char_digit. set (n := Z.of_N (N_of_ascii c)).
  repeat match goal with
         | |- context [if ?b then _ else _] => destruct b eqn:?
         end; intros [= <-]; lia.
Qed.

Lemma digit_char_hex d : 0 <= d < 16 -> hex_char (digit_char d).
Proof. intros Hd. unfold hex_char. rewrite char_digit_digit_char by assumption. eauto. Qed.

Lemma digit_char_not_x d : 0 <= d < 16 -> digit_char d <> "x"%char.
Proof.
  intros Hd E. pose proof (char_digit_digit_char d Hd) as H. rewrite E in H. discriminate.
Qed.

Lemma filter_all {A} (P : A -> Prop) `{forall x, Decision (P x)} (l : list A) :
  Forall P l -> filter P l = l.
Proof.
  induction 1 as [|x l Hx Hl IH]; [reflexivity|].
  rewrite filter_cons. destruct (decide (P x)); [|contradiction]. f_equal. exact IH.
Qed.

(** ** Digits *)

Section Digits.
Variable base : Z.
Hypothesis base_ge_2 : 2 <= base.

Lemma of_digits_app ds d :
  of_digits base (ds ++ [d]) = of_digits base ds * base + d.
Proof. unfold of_digits. rewrite fold_left_app. reflexivity. Qed.

Lemma of_digits_acc ds : forall a,
  fold_left (fun acc d => acc * base + d) ds a
  = a * base ^ Z.of_nat (length ds) + of_digits base ds.
Proof.
  unfold of_digits. induction ds as [|d ds IH]; intros a; cbn [fold_left length].
  - rewrite Z.pow_0_r. lia.
  - rewrite IH, (IH (0 * base + d)), Nat2Z.inj_succ, Z.pow_succ_r by lia. lia.
Qed.

Lemma of_digits_cons d ds :
  of_digits base (d :: ds) = d * base ^ Z.of_nat (length ds) + of_digits base ds.
Proof. unfold of_digits at 1. cbn [fold_left]. rewrite of_digits_acc. lia. Qed.

Lemma of_digits_bounds ds :
  Forall (in_base base) ds -> 0 <= of_digits base ds < base ^ Z.of_nat (length ds).
Proof.
  induction 1 as [|d ds Hd Hds IH].
  - cbn. lia.
  - rewrite of_digits_cons. cbn [length]. rewrite Nat2Z.inj_succ, Z.pow_succ_r by lia.
    unfold in_base in Hd. nia.
Qed.

Lemma to_digits_acc_of_digits ds :
  ds <> [] -> Forall (in_base base) ds -> (forall t, ds = 0 :: t -> t = []) ->
  forall fuel acc,
    of_digits base ds < base ^ Z.of_nat (S fuel) ->
    to_digits_acc fuel base (of_digits base ds) acc = ds ++ acc.
Proof.
  induction ds as [|d ds' IH] using rev_ind; [congruence|].
  intros _ Hrange Hcanon fuel acc Hfuel.
  apply Forall_app in Hrange. destruct Hrange as [Hds' Hd].
  inversion Hd as [|? ? Hd0 _]; subst. unfold in_base in Hd0.
  rewrite of_digits_app in *.
  destruct ds' as [|h t].
  - cbn [of_digits fold_left] in *. cbn [app].
    destruct fuel; cbn [to_digits_acc]; [f_equal; lia|].
    destruct (Z.ltb_spec (0 * base + d) base); [f_equal; lia | lia].
  - pose proof (of_digits_bounds _ Hds') as Hb.
    assert (Hh : h <> 0).
    { intros ->. specialize (Hcanon (t ++ [d]) eq_refl). destruct t; discriminate. }
    assert (Hlow : 1 <= of_digits base (h :: t)).
    { rewrite of_digits_cons. inversion Hds' as [|? ? Hh0 Ht]; subst. unfold in_base in Hh0.
      pose proof (of_digits_bounds _ Ht).
      assert (0 < base ^ Z.of_nat (length t)) by (apply Z.pow_pos_nonneg; lia). nia. }
    destruct fuel as [|fuel].
    { change (Z.of_nat 1) with 1 in Hfuel. rewrite Z.pow_1_r in Hfuel. nia. }
    cbn [to_digits_acc].
    destruct (Z.ltb_spec (of_digits base (h :: t) * base + d) base); [nia|].
    replace ((of_digits base (h :: t) * base + d) / base) with (of_digits base (h :: t)).
    2:{ apply Z.div_unique with d; lia. }
    replace ((of_digits base (h :: t) * base + d) mod base) with d.
    2:{ apply Z.mod_unique with (of_digits base (h :: t)); lia. }
    rewrite IH; [rewrite <- app_assoc; reflexivity|discriminate|assumption| |].
    + intros t' [= -> ->]. congruence.
    + rewrite (Nat2Z.inj_succ (S fuel)), Z.pow_succ_r in Hfuel by lia. nia.
Qed.

Lemma pow2_le_base n : 0 <= n -> 2 ^ n <= base ^ n.
Proof. intros Hn. apply Z.pow_le_mono_l. lia. Qed.

(** A list of digits without a leading zero is the list of digits of its value. *)
Lemma to_digits_of_digits ds :
  ds <> [] -> Forall (in_base base) ds -> (forall t, ds = 0 :: t -> t = []) ->
  to_digits base (of_digits base ds) = ds.
Proof.
  intros Hne Hrange Hcanon. unfold to_digits.
  rewrite to_digits_acc_of_digits; [apply app_nil_r|assumption..|].
  pose proof (of_digits_bounds _ Hrange) as [Hlo _].
  set (n := of_digits base ds) in *.
  rewrite Nat2Z.inj_succ, Z2Nat.id by apply Z.log2_nonneg.
  destruct (Z.eq_dec n 0) as [->|Hn].
  - cbn. lia.
  - pose proof (Z.log2_spec n ltac:(lia)) as [_ Hup].
    pose proof (pow2_le_base (Z.succ (Z.log2 n)) ltac:(pose proof (Z.log2_nonneg n); lia)).
    lia.
Qed.

(** The digits of [n], computed by division: a reference definition. *)
Lemma digits_exist n :
  0 <= n ->
  exists ds, ds <> [] /\ Forall (in_base base) ds /\ (forall t, ds = 0 :: t -> t = []) /\
             of_digits base ds = n.
Proof.
  intros Hn. revert Hn. pattern n.
  apply (well_founded_induction (Z.lt_wf 0)). clear n. intros n IH Hn.
  destruct (Z.ltb_spec n base) as [Hsmall|Hbig].
  - exists [n]. split; [discriminate|]. split; [repeat constructor; lia|].
    split; [congruence | cbn; lia].
  - pose proof (Z.div_mod n base ltac:(lia)) as Hdm.
    pose proof (Z.mod_pos_bound n base ltac:(lia)) as Hm.
    assert (Hq : 1 <= n / base) by (apply Z.div_le_lower_bound; lia).
    destruct (IH (n / base)) as (ds & Hne & Hr & Hc & Hv); [nia | lia |].
    exists (ds ++ [n mod base]). split; [|split; [|split]].
    + destruct ds; discriminate.
    + apply Forall_app. split; [assumption|]. repeat constructor; lia.
    + intros t Ht. destruct ds as [|h ds']; [congruence|].
      cbn [app] in Ht. injection Ht as -> _.
      rewrite (Hc ds' eq_refl) in Hv. cbn in Hv. lia.
    + rewrite of_digits_app, Hv. lia.
Qed.

Lemma to_digits_spec n :
  0 <= n ->
  to_digits base n <> [] /\ Forall (in_base base) (to_digits base n) /\
  (forall t, to_digits base n = 0 :: t -> t = []) /\
  of_digits base (to_digits base n) = n.
Proof.
  intros Hn. destruct (digits_exist n Hn) as (ds & Hne & Hr & Hc & <-).
  rewrite to_digits_of_digits by assumption. auto.
Qed.

Lemma to_digits_length n d :
  base ^ Z.of_nat d <= n < base ^ Z.of_nat (S d) -> length (to_digits base n) = S d.
Proof.
  intros Hn.
  assert (0 < base ^ Z.of_nat d) by (apply Z.pow_pos_nonneg; lia).
  destruct (to_digits_spec n ltac:(lia)) as (Hne & Hr & Hc & Hv).
  set (ds := to_digits base n) in *.
  pose proof (of_digits_bounds _ Hr) as Hb. rewrite Hv in Hb.
  destruct ds as [|h t]; [congruence|].
  assert (Hlow : t <> [] -> base ^ Z.of_nat (length t) <= n).
  { intros Ht. rewrite <- Hv, of_digits_cons.
    inversion Hr as [|? ? Hh Ht']; subst. unfold in_base in Hh.
    pose proof (of_digits_bounds _ Ht').
    assert (h <> 0) by (intros ->; apply Ht; apply Hc; reflexivity).
    assert (0 < base ^ Z.of_nat (length t)) by (apply Z.pow_pos_nonneg; lia). nia. }
  cbn [length] in *. f_equal.
  destruct (lt_eq_lt_dec (length t) d) as [[Hlt|Heq]|Hgt]; [|exact Heq|].
  - exfalso.
    assert (base ^ Z.of_nat (S (length t)) <= base ^ Z.of_nat d)
      by (apply Z.pow_le_mono_r; lia). lia.
  - exfalso.
    assert (t <> []) by (destruct t; [cbn in Hgt; lia | discriminate]).
    assert (base ^ Z.of_nat (S d) <= base ^ Z.of_nat (length t))
      by (apply Z.pow_le_mono_r; lia).
    specialize (Hlow ltac:(assumption)). lia.
Qed.

End Digits.

(** ** Strings *)

Lemma chars_text l : chars (text l) = l.
Proof. apply list_ascii_of_string_of_list_ascii. Qed.

Lemma text_chars s : text (chars s) = s.
Proof. apply string_of_list_ascii_of_string. Qed.

Lemma chars_app s1 s2 : chars (s1 ++ s2)%string = chars s1 ++ chars s2.
Proof. induction s1 as [|c s1 IH]; simpl; [reflexivity | f_equal; exact IH]. Qed.

Lemma chars_inj s1 s2 : chars s1 = chars s2 -> s1 = s2.
Proof. intros E. rewrite <- (text_chars s1), <- (text_chars s2), E. reflexivity. Qed.

Lemma chars_digit_string base n :
  chars (digit_string base n) = map digit_char (to_digits base n).
Proof. apply chars_text. Qed.

Lemma digits_hex_chars base ds :
  base <= 16 -> Forall (in_base base) ds -> Forall hex_char (map digit_char ds).
Proof.
  intros Hb H. apply Forall_forall. intros c Hc.
  apply list_elem_of_In, List.in_map_iff in Hc. destruct Hc as (d & <- & Hd).
  rewrite Forall_forall in H. specialize (H d ltac:(apply list_elem_of_In; exact Hd)).
  apply digit_char_hex. unfold in_base in H. lia.
Qed.

Lemma digit_string_hex_chars base n :
  2 <= base <= 16 -> 0 <= n -> Forall hex_char (chars (digit_string base n)).
Proof.
  intros Hb Hn. rewrite chars_digit_string.
  apply (digits_hex_chars base); [lia|]. apply to_digits_spec; lia.
Qed.

(** ** [bytes.fromhex] *)

Lemma fromhex_chars_hex (n : nat) : forall cs,
  (length cs <= n)%nat -> Forall hex_char cs ->
  if Nat.even (length cs)
  then exists bs, fromhex_chars cs = Some bs /\ (2 * length bs = length cs)%nat
  else fromhex_chars cs = None.
Proof.
  induction n as [|n IH]; intros cs Hlen Hhex.
  - destruct cs; [|cbn in Hlen; lia]. cbn. exists []. auto.
  - destruct cs as [|c1 [|c2 rest]].
    + cbn. exists []. auto.
    + reflexivity.
    + inversion Hhex as [|? ? [h Hh] Hhex']; subst.
      inversion Hhex' as [|? ? [l Hl] Hrest]; subst.
      specialize (IH rest ltac:(cbn in Hlen; lia) Hrest).
      change (length (c1 :: c2 :: rest)) with (S (S (length rest))).
      change (Nat.even (S (S (length rest)))) with (Nat.even (length rest)).
      cbn [fromhex_chars]. rewrite Hh, Hl.
      destruct (Nat.even (length rest)).
      * destruct IH as (bs & -> & Hbs). eexists. split; [reflexivity|]. cbn [length]. lia.
      * rewrite IH. reflexivity.
Qed.

Lemma bytes_fromhex_hex s :
  Forall hex_char (chars s) ->
  if Nat.even (length (chars s))
  then exists bs, bytes_fromhex s = Ok bs /\ (2 * length bs = length (chars s))%nat
  else bytes_fromhex s = Raise "ValueError".
Proof.
  intros Hhex. unfold bytes_fromhex.
  pose proof (fromhex_chars_hex (length (chars s)) (chars s) (le_n _) Hhex) as H.
  destruct (Nat.even (length (chars s))).
  - destruct H as (bs & -> & Hbs). eauto.
  - rewrite H. reflexivity.
Qed.

(** ** generate_hkdf_key *)

Section Hkdf.
Context {curve : Fastecdsa} {hashes : Hashes} {crypto : Cryptography} {json : Json}.

Definition decimal_digits (key : Z) : nat := length (to_digits 10 key).

Lemma py_str_checked_nonneg (key : Z) :
  0 <= key ->
  py_str_checked key
  = if bool_decide (int_max_str_digits < Z.of_nat (decimal_digits key))
    then Raise "ValueError" else Ok (digit_string 10 key).
Proof.
  intros Hkey. unfold py_str_checked, py_str, decimal_digits.
  rewrite Z.abs_eq by exact Hkey.
  destruct (Z.ltb_spec key 0) as [|_]; [lia | reflexivity].
Qed.

Lemma generate_hkdf_key_partial (key : Z) :
  0 <= key ->
  (int_max_str_digits < Z.of_nat (decimal_digits key) ->
   generate_hkdf_key key = Raise "ValueError") /\
  (Z.of_nat (decimal_digits key) <= int_max_str_digits ->
   (Nat.Odd (decimal_digits key) -> generate_hkdf_key key = Raise "ValueError") /\
   (Nat.Even (decimal_digits key) ->
      exists k, generate_hkdf_key key = Ok k /\ length k = 32%nat)).
Proof.
  intros Hkey. unfold generate_hkdf_key. rewrite py_str_checked_nonneg by exact Hkey.
  split.
  - intros Hlimit. rewrite bool_decide_eq_true_2 by exact Hlimit. reflexivity.
  - intros Hlimit. rewrite bool_decide_eq_false_2 by lia. cbn [mbind result_bind].
    unfold decimal_digits.
    pose proof (bytes_fromhex_hex (digit_string 10 key)
                  (digit_string_hex_chars 10 key ltac:(lia) Hkey)) as H.
    rewrite chars_digit_string, length_map in H.
    split.
    + intros Hodd. apply Nat.odd_spec in Hodd. rewrite <- Nat.negb_even in Hodd.
      destruct (Nat.even (length (to_digits 10 key))); [discriminate|].
      rewrite H. reflexivity.
    + intros Heven. apply Nat.even_spec in Heven. rewrite Heven in H.
      destruct H as (bs & -> & _). cbn. eexists. split; [reflexivity|]. apply hkdf_length.
Qed.

End Hkdf.

(** ** Parsing digits *)

Lemma parse_digits_digits base ds : forall acc,
  base <= 16 -> Forall (in_base base) ds ->
  parse_digits base (map digit_char ds) acc
  = Some (fold_left (fun a d => a * base + d) ds acc).
Proof.
  induction ds as [|d ds IH]; intros acc Hb Hds; [reflexivity|].
  inversion Hds as [|? ? Hd Hds']; subst. unfold in_base in Hd.
  cbn [map parse_digits fold_left]. rewrite char_digit_digit_char by lia.
  destruct (Z.ltb_spec d base); [|lia]. apply IH; assumption.
Qed.

Lemma parse_digits_hex cs : forall acc,
  Forall hex_char cs -> exists n, parse_digits 16 cs acc = Some n.
Proof.
  induction cs as [|c cs IH]; intros acc Hcs; [eexists; reflexivity|].
  inversion Hcs as [|? ? [d Hd] Hcs']; subst.
  cbn [parse_digits]. rewrite Hd. pose proof (char_digit_range _ _ Hd).
  destruct (Z.ltb_spec d 16); [|lia]. apply IH. assumption.
Qed.

Lemma strip_0x_hex cs : Forall hex_char cs -> strip_0x cs = cs.
Proof.
  intros Hcs. destruct cs as [|c1 [|c2 cs]]; try reflexivity.
  - destruct c1 as [[] [] [] [] [] [] [] []]; reflexivity.
  - inversion Hcs as [|? ? _ Hcs']; subst. inversion Hcs' as [|? ? [d Hd] _]; subst.
    unfold strip_0x.
    destruct (ascii_dec c2 "x") as [->|Hx]; [discriminate|].
    destruct (ascii_dec c2 "X") as [->|HX]; [discriminate|].
    destruct c1 as [[] [] [] [] [] [] [] []]; try reflexivity;
      destruct c2 as [[] [] [] [] [] [] [] []]; try reflexivity; congruence.
Qed.

Lemma py_int_base_16_hex s :
  chars s <> [] -> Forall hex_char (chars s) -> exists n, py_int_base 16 s = Ok n.
Proof.
  intros Hne Hhex. unfold py_int_base. cbn [Z.eqb Pos.eqb].
  rewrite strip_0x_hex by assumption.
  destruct (parse_digits_hex (chars s) 0 Hhex) as [n Hn]. rewrite Hn.
  destruct (chars s); [congruence|]. eauto.
Qed.

Lemma py_int_base_16_digits ds :
  ds <> [] -> Forall (in_base 16) ds ->
  py_int_base 16 (text (map digit_char ds)) = Ok (of_digits 16 ds).
Proof.
  intros Hne Hds. unfold py_int_base. cbn [Z.eqb Pos.eqb].
  rewrite chars_text, strip_0x_hex by (apply (digits_hex_chars 16); [lia|assumption]).
  rewrite parse_digits_digits by (try lia; assumption).
  destruct ds; [congruence|]. reflexivity.
Qed.

Lemma py_int_base_16_0x ds :
  ds <> [] -> Forall (in_base 16) ds ->
  py_int_base 16 ("0x" ++ text (map digit_char ds))%string = Ok (of_digits 16 ds).
Proof.
  intros Hne Hds. unfold py_int_base. cbn [Z.eqb Pos.eqb].
  rewrite chars_app, chars_text. cbn [chars app strip_0x].
  rewrite parse_digits_digits by (try lia; assumption).
  destruct ds; [congruence|]. reflexivity.
Qed.

Lemma py_int_digits s :
  s <> EmptyString -> Forall (fun c => exists d, char_digit c = Some d /\ d < 10) (chars s) ->
  exists z, py_int s = Ok z /\ 0 <= z.
Proof.
  intros Hne Hs. unfold py_int, py_int_base. cbn [Z.eqb Pos.eqb].
  assert (H : forall cs acc, 0 <= acc ->
            Forall (fun c => exists d, char_digit c = Some d /\ d < 10) cs ->
            exists z, parse_digits 10 cs acc = Some z /\ 0 <= z).
  { induction cs as [|c cs IH]; intros acc Hacc Hcs; [eauto|].
    inversion Hcs as [|? ? (d & Hd & Hlt) Hcs']; subst.
    cbn [parse_digits]. rewrite Hd. pose proof (char_digit_range _ _ Hd).
    destruct (Z.ltb_spec d 10); [|lia]. apply IH; [lia|assumption]. }
  destruct (H (chars s) 0 ltac:(lia) Hs) as (z & Hz & Hz0). rewrite Hz.
  destruct s; [congruence|]. cbn. eauto.
Qed.

(** ** Bytes *)

Lemma byte_val_range b : 0 <= byte_val b < 256.
Proof. unfold byte_val. pose proof (Byte.to_N_bounded b). lia. Qed.

Lemma byte_of_Z_val b : byte_of_Z (byte_val b) = b.
Proof.
  unfold byte_of_Z. rewrite Z.mod_small by apply byte_val_range.
  unfold byte_val. rewrite N2Z.id, Byte.of_to_N. reflexivity.
Qed.

Lemma byte_val_of_Z z : byte_val (byte_of_Z z) = z mod 256.
Proof.
  unfold byte_of_Z. pose proof (Z.mod_pos_bound z 256 ltac:(lia)) as Hz.
  destruct (Byte.of_N (Z.to_N (z mod 256))) as [b|] eqn:E.
  - apply Byte.to_of_N in E. unfold byte_val. rewrite E. lia.
  - apply Byte.of_N_None_iff in E. lia.
Qed.

Lemma int_from_bytes_of_digits bs :
  int_from_bytes bs = of_digits 256 (map byte_val bs).
Proof.
  unfold int_from_bytes, of_digits. generalize 0.
  induction bs as [|b bs IH]; intros a; cbn [map fold_left]; [reflexivity|]. apply IH.
Qed.

Lemma bytes_in_base bs : Forall (in_base 256) (map byte_val bs).
Proof.
  apply Forall_forall. intros z Hz. apply list_elem_of_In, List.in_map_iff in Hz.
  destruct Hz as (b & <- & _). apply byte_val_range.
Qed.

Lemma int_from_bytes_bounds bs : 0 <= int_from_bytes bs < 256 ^ Z.of_nat (length bs).
Proof.
  rewrite int_from_bytes_of_digits.
  pose proof (of_digits_bounds 256 ltac:(lia) _ (bytes_in_base bs)) as H.
  rewrite length_map in H. exact H.
Qed.

Lemma int_from_bytes_app bs b :
  int_from_bytes (bs ++ [b]) = int_from_bytes bs * 256 + byte_val b.
Proof. unfold int_from_bytes. rewrite fold_left_app. reflexivity. Qed.

Lemma int_from_bytes_cons b bs :
  int_from_bytes (b :: bs) = byte_val b * 256 ^ Z.of_nat (length bs) + int_from_bytes bs.
Proof.
  rewrite !int_from_bytes_of_digits. cbn [map].
  rewrite of_digits_cons, length_map by lia. reflexivity.
Qed.

Lemma to_bytes_acc_from_bytes bs : forall acc,
  to_bytes_acc (length bs) (int_from_bytes bs) acc = bs ++ acc.
Proof.
  induction bs as [|b bs IH] using rev_ind; intros acc; [reflexivity|].
  rewrite length_app, Nat.add_comm. cbn [length Nat.add to_bytes_acc].
  rewrite int_from_bytes_app.
  pose proof (byte_val_range b) as Hb.
  replace ((int_from_bytes bs * 256 + byte_val b) / 256) with (int_from_bytes bs)
    by (apply Z.div_unique with (byte_val b); lia).
  replace (byte_of_Z (int_from_bytes bs * 256 + byte_val b)) with b.
  - rewrite IH, <- app_assoc. reflexivity.
  - rewrite <- (byte_of_Z_val b) at 1. unfold byte_of_Z.
    rewrite Z.add_comm, Z.mod_add by lia. reflexivity.
Qed.

Lemma int_to_bytes_from_bytes bs :
  int_to_bytes (int_from_bytes bs) (length bs) = Ok bs.
Proof.
  unfold int_to_bytes. pose proof (int_from_bytes_bounds bs) as H.
  destruct (Z.ltb_spec (int_from_bytes bs) 0); [lia|].
  destruct (Z.leb_spec (256 ^ Z.of_nat (length bs)) (int_from_bytes bs)); [lia|].
  cbn [orb]. rewrite to_bytes_acc_from_bytes, app_nil_r. reflexivity.
Qed.

(** ** [bytes.hex] *)

Definition hex_pairs (bs : list byte) : list Z :=
  flat_map (fun b => [byte_val b / 16; byte_val b mod 16]) bs.

Lemma chars_bytes_hex bs : chars (bytes_hex bs) = map digit_char (hex_pairs bs).
Proof.
  unfold bytes_hex, hex_pairs. rewrite chars_text.
  induction bs as [|b bs IH]; [reflexivity|]. cbn [flat_map app map]. rewrite IH. reflexivity.
Qed.

Lemma hex_pairs_in_base bs : Forall (in_base 16) (hex_pairs bs).
Proof.
  induction bs as [|b bs IH]; [constructor|]. cbn [hex_pairs flat_map app].
  pose proof (byte_val_range b).
  constructor; [|constructor; [|exact IH]]; unfold in_base.
  - split; [apply Z.div_pos; lia | apply Z.div_lt_upper_bound; lia].
  - apply Z.mod_pos_bound. lia.
Qed.

Lemma hex_pairs_length bs : length (hex_pairs bs) = (2 * length bs)%nat.
Proof.
  induction bs as [|b bs IH]; [reflexivity|].
  cbn [hex_pairs flat_map app length]. fold (hex_pairs bs). rewrite IH. lia.
Qed.

Lemma of_digits_hex_pairs bs : of_digits 16 (hex_pairs bs) = int_from_bytes bs.
Proof.
  induction bs as [|b bs IH] using rev_ind; [reflexivity|].
  unfold hex_pairs in *. rewrite flat_map_app. cbn [flat_map app].
  replace (flat_map (fun b0 => [byte_val b0 / 16; byte_val b0 mod 16]) bs
           ++ [byte_val b / 16; byte_val b mod 16])
    with ((flat_map (fun b0 => [byte_val b0 / 16; byte_val b0 mod 16]) bs
           ++ [byte_val b / 16]) ++ [byte_val b mod 16])
    by (rewrite <- app_assoc; reflexivity).
  rewrite !of_digits_app, IH, int_from_bytes_app.
  pose proof (Z.div_mod (byte_val b) 16 ltac:(lia)). lia.
Qed.

Lemma bytes_hex_chars bs : Forall hex_char (chars (bytes_hex bs)).
Proof.
  rewrite chars_bytes_hex. apply (digits_hex_chars 16); [lia|]. apply hex_pairs_in_base.
Qed.

Lemma py_int_bytes_hex bs :
  bs <> [] -> py_int_base 16 (bytes_hex bs) = Ok (int_from_bytes bs).
Proof.
  intros Hne. rewrite <- of_digits_hex_pairs.
  rewrite <- py_int_base_16_digits; [|destruct bs; [congruence|discriminate]|apply hex_pairs_in_base].
  f_equal. apply chars_inj. rewrite chars_text. apply chars_bytes_hex.
Qed.

Lemma fromhex_hex_pairs bs : fromhex_chars (map digit_char (hex_pairs bs)) = Some bs.
Proof.
  induction bs as [|b bs IH]; [reflexivity|].
  cbn [hex_pairs flat_map app map fromhex_chars]. fold (hex_pairs bs).
  pose proof (byte_val_range b).
  rewrite !char_digit_digit_char.
  2:{ apply Z.mod_pos_bound. lia. }
  2:{ split; [apply Z.div_pos; lia | apply Z.div_lt_upper_bound; lia]. }
  rewrite IH. do 2 f_equal.
  rewrite <- (byte_of_Z_val b) at 3. f_equal.
  pose proof (Z.div_mod (byte_val b) 16 ltac:(lia)). lia.
Qed.

Lemma bytes_fromhex_hex_pairs s bs :
  chars s = map digit_char (hex_pairs bs) -> bytes_fromhex s = Ok bs.
Proof. intros E. unfold bytes_fromhex. rewrite E, fromhex_hex_pairs. reflexivity. Qed.

Lemma bytes_fromhex_bytes_hex bs : bytes_fromhex (bytes_hex bs) = Ok bs.
Proof. apply bytes_fromhex_hex_pairs, chars_bytes_hex. Qed.

(** * Proofs: the codes of the public keys *)

Section Codes.
Context {curve : Fastecdsa} {hashes : Hashes} {crypto : Cryptography} {json : Json}.

(** The code of a point: its SEC1 encoding read as an integer. *)
Definition code (P : point) : Z := int_from_bytes (encode_public_key P).

Lemma encode_nonempty P : P <> IDENTITY -> encode_public_key P <> [].
Proof. intros HP. destruct (encode_shape P HP) as (b & rest & -> & _). discriminate. Qed.

Lemma encode_length P : P <> IDENTITY -> length (encode_public_key P) = 33%nat.
Proof. intros HP. destruct (encode_shape P HP) as (b & rest & -> & Hl & _). cbn. lia. Qed.

Lemma pub_to_code_ok P : P <> IDENTITY -> pub_to_code P = Ok (code P).
Proof. intros HP. unfold pub_to_code. apply py_int_bytes_hex, encode_nonempty, HP. Qed.

Lemma code_range P : P <> IDENTITY -> 2 * 256 ^ 32 <= code P < 4 * 256 ^ 32.
Proof.
  intros HP. unfold code. destruct (encode_shape P HP) as (b & rest & -> & Hl & Hb).
  rewrite int_from_bytes_cons, Hl. pose proof (int_from_bytes_bounds rest) as Hr.
  rewrite Hl in Hr. change (Z.of_nat 32) with 32 in *. lia.
Qed.

Lemma code_to_bytes P : P <> IDENTITY -> int_to_bytes (code P) 33 = Ok (encode_public_key P).
Proof. intros HP. rewrite <- (encode_length P HP). apply int_to_bytes_from_bytes. Qed.

Lemma code_digits (b : byte) (rest : list byte) :
  byte_val b = 2 \/ byte_val b = 3 ->
  to_digits 16 (int_from_bytes (b :: rest)) = byte_val b :: hex_pairs rest.
Proof.
  intros Hb.
  assert (E : int_from_bytes (b :: rest) = of_digits 16 (byte_val b :: hex_pairs rest)).
  { rewrite of_digits_cons, of_digits_hex_pairs, int_from_bytes_cons, hex_pairs_length by lia.
    f_equal. f_equal. rewrite Nat2Z.inj_mul, Z.pow_mul_r by lia. reflexivity. }
  rewrite E. apply to_digits_of_digits; [lia|discriminate| |].
  - constructor; [unfold in_base; lia | apply hex_pairs_in_base].
  - intros t [= H0 _]. lia.
Qed.

Lemma code_hex_chars (b : byte) (rest : list byte) :
  byte_val b = 2 \/ byte_val b = 3 ->
  chars (str_remove_x (py_hex (int_from_bytes (b :: rest))))
  = map digit_char (hex_pairs (b :: rest)).
Proof.
  intros Hb. unfold str_remove_x, py_hex.
  pose proof (int_from_bytes_bounds (b :: rest)) as Hn.
  destruct (Z.ltb_spec (int_from_bytes (b :: rest)) 0); [lia|].
  rewrite chars_text, chars_app, chars_digit_string, code_digits by assumption.
  cbn [chars app]. rewrite filter_cons_True by discriminate.
  rewrite filter_cons_False by (intros Hx; apply Hx; reflexivity).
  rewrite filter_all.
  - cbn [hex_pairs flat_map app map].
    replace (byte_val b / 16) with 0 by (destruct Hb as [-> | ->]; reflexivity).
    replace (byte_val b mod 16) with (byte_val b) by (destruct Hb as [-> | ->]; reflexivity).
    reflexivity.
  - apply Forall_forall. intros c Hc.
    apply list_elem_of_In, List.in_map_iff in Hc. destruct Hc as (d & <- & Hd).
    apply digit_char_not_x.
    assert (Hall : Forall (in_base 16) (byte_val b :: hex_pairs rest)).
    { constructor; [unfold in_base; lia | apply hex_pairs_in_base]. }
    rewrite Forall_forall in Hall. apply Hall, list_elem_of_In, Hd.
Qed.

Lemma code_to_pub_code P : P <> IDENTITY -> code_to_pub (code P) = Ok P.
Proof.
  intros HP. unfold code_to_pub, code.
  destruct (encode_shape P HP) as (b & rest & E & Hl & Hb). rewrite E.
  rewrite (bytes_fromhex_hex_pairs _ (b :: rest)) by (apply code_hex_chars; exact Hb).
  cbn. rewrite <- E. apply decode_encode, HP.
Qed.

Lemma code_decimal_digits P : P <> IDENTITY -> decimal_digits (code P) = 78%nat.
Proof.
  intros HP. unfold decimal_digits. apply to_digits_length; [lia|].
  pose proof (code_range P HP) as H.
  assert (10 ^ Z.of_nat 77 <= 2 * 256 ^ 32) by (vm_compute; discriminate).
  assert (4 * 256 ^ 32 < 10 ^ Z.of_nat 78) by (vm_compute; reflexivity).
  lia.
Qed.

Lemma generate_hkdf_key_code P :
  P <> IDENTITY -> exists k, generate_hkdf_key (code P) = Ok k /\ length k = 32%nat.
Proof.
  intros HP. pose proof (code_range P HP).
  apply generate_hkdf_key_partial; [lia | |];
    rewrite code_decimal_digits by exact HP.
  - unfold int_max_str_digits. lia.
  - exists 39%nat. reflexivity.
Qed.

End Codes.

Local Open Scope string_scope.
Local Open Scope Z_scope.

(** * Proofs: mod_inverse *)

Lemma mod_inverse_loop_spec (n a0 : Z) (fuel : nat) :
  forall number modulus inverse intermediate,
    1 < n ->
    0 <= modulus < number ->
    Z.gcd number modulus = 1 ->
    (n | inverse * a0 - number) ->
    (n | intermediate * a0 - modulus) ->
    inverse * intermediate <= 0 ->
    Z.abs inverse * modulus + Z.abs intermediate * number = n ->
    Z.abs inverse < n ->
    number * modulus < 2 ^ Z.of_nat fuel ->
    exists b, mod_inverse_loop fuel number modulus inverse intermediate = Ok b /\
              Z.abs b < n /\ (n | b * a0 - 1).
Proof.
  induction fuel as [|fuel IH];
    intros number modulus inverse intermediate Hn Hrange Hgcd Hinv Hitm Hsign Hdet Hbound Hfuel.
  - assert (modulus = 0) by (change (2 ^ Z.of_nat 0) with 1 in Hfuel; nia).
    subst modulus. rewrite Z.gcd_0_r in Hgcd.
    assert (number = 1) by lia. subst number.
    exists inverse. simpl. auto.
  - cbn [mod_inverse_loop].
    destruct (Z.gtb_spec number 1) as [Hgt|Hle].
    2:{ assert (number = 1) by lia. subst number. exists inverse. auto. }
    destruct (Z.eqb_spec modulus 0) as [->|Hm].
    { rewrite Z.gcd_0_r in Hgcd. lia. }
    assert (Hmpos : 0 < modulus) by lia.
    pose proof (Z.mod_pos_bound number modulus Hmpos) as Hr.
    pose proof (Z.div_mod number modulus Hm) as Hdm.
    assert (Hq : 1 <= number / modulus).
    { apply Z.div_le_lower_bound; lia. }
    set (quo := number / modulus) in *.
    set (r := number mod modulus) in *.
    apply IH; auto.
    + subst r. rewrite Z.gcd_comm, Z.gcd_mod by lia. rewrite Z.gcd_comm. assumption.
    + replace ((inverse - quo * intermediate) * a0 - r)
        with ((inverse * a0 - number) - quo * (intermediate * a0 - modulus)) by lia.
      apply Z.divide_sub_r; [assumption|]. apply Z.divide_mul_r. assumption.
    + nia.
    + replace (Z.abs (inverse - quo * intermediate))
        with (Z.abs inverse + quo * Z.abs intermediate) by nia.
      nia.
    + nia.
    + rewrite Nat2Z.inj_succ, Z.pow_succ_r in Hfuel by lia. nia.
Qed.

Lemma mod_inverse_loop_enough_fuel (fuel : nat) :
  forall number modulus inverse intermediate,
    0 <= modulus < number ->
    number * modulus < 2 ^ Z.of_nat fuel ->
    mod_inverse_loop (S fuel) number modulus inverse intermediate <> Raise "OutOfFuel".
Proof.
  induction fuel as [|fuel IH]; intros number modulus inverse intermediate Hrange Hfuel.
  - change (2 ^ Z.of_nat 0) with 1 in Hfuel.
    assert (modulus = 0) by nia. subst modulus.
    simpl. destruct (number >? 1); discriminate.
  - cbn [mod_inverse_loop].
    destruct (Z.gtb_spec number 1) as [Hgt|Hle]; [|discriminate].
    destruct (Z.eqb_spec modulus 0) as [->|Hm]; [discriminate|].
    assert (Hmpos : 0 < modulus) by lia.
    pose proof (Z.mod_pos_bound number modulus Hmpos) as Hr.
    pose proof (Z.div_mod number modulus Hm) as Hdm.
    assert (Hq : 1 <= number / modulus) by (apply Z.div_le_lower_bound; lia).
    apply IH; [lia|].
    rewrite Nat2Z.inj_succ, Z.pow_succ_r in Hfuel by lia. nia.
Qed.

Lemma mod_inverse_fuel_bound (n a : Z) :
  1 < n -> 0 <= a < n ->
  n * a < 2 ^ Z.of_nat (Nat.pred (Nat.pred (mod_inverse_fuel n))).
Proof.
  intros Hn Ha. unfold mod_inverse_fuel.
  pose proof (Z.log2_nonneg n) as Hl.
  replace (Z.of_nat (Nat.pred (Nat.pred (Z.to_nat (2 * Z.log2 n + 4)))))
    with (Z.succ (Z.log2 n) + Z.succ (Z.log2 n)) by lia.
  rewrite Z.pow_add_r by lia.
  destruct (Z.log2_spec n) as [_ Hup]; [lia|].
  nia.
Qed.

Lemma mod_inverse_fuel_succ (n : Z) :
  mod_inverse_fuel n = S (S (Nat.pred (Nat.pred (mod_inverse_fuel n)))).
Proof. unfold mod_inverse_fuel. pose proof (Z.log2_nonneg n). lia. Qed.

(** The iteration bound of [mod_inverse_loop] is never reached. *)
Lemma mod_inverse_enough_fuel (number modulus : Z) :
  mod_inverse number modulus <> Raise "OutOfFuel".
Proof.
  unfold mod_inverse.
  destruct (Z.eqb_spec modulus 0) as [|Hm0]; [discriminate|].
  destruct (Z.eqb_spec modulus 1) as [|Hm1]; [discriminate|].
  rewrite (mod_inverse_fuel_succ modulus).
  destruct (Z.ltb_spec modulus 0) as [Hneg|Hpos].
  - pose proof (Z.mod_neg_bound number modulus Hneg) as Hb.
    cbn [mod_inverse_loop].
    destruct (Z.gtb_spec (number mod modulus) 1); [lia|].
    cbn. discriminate.
  - assert (Hn : 1 < modulus) by lia.
    pose proof (Z.mod_pos_bound number modulus ltac:(lia)) as Hb.
    set (a := number mod modulus) in *.
    set (fuel := Nat.pred (Nat.pred (mod_inverse_fuel modulus))).
    pose proof (mod_inverse_loop_enough_fuel fuel
                  modulus a 0 (1 - 0 * 0) ltac:(lia)
                  (mod_inverse_fuel_bound modulus a Hn Hb)) as Hloop.
    change (mod_inverse_loop (S (S fuel)) a modulus 1 0)
      with (if a >? 1 then
              if modulus =? 0 then Raise "ZeroDivisionError"
              else mod_inverse_loop (S fuel) modulus (a mod modulus) 0 (1 - a / modulus * 0)
            else Ok 1).
    destruct (Z.gtb_spec a 1) as [Hgt|Hle]; [|cbn; discriminate].
    destruct (Z.eqb_spec modulus 0); [lia|].
    rewrite (Z.mod_small a modulus), (Z.div_small a modulus) by lia.
    destruct (mod_inverse_loop (S fuel) modulus a 0 (1 - 0 * 0)); cbn; [discriminate|].
    intros [= ->]. contradiction.
Qed.

Lemma mod_inverse_coprime (a n : Z) :
  1 < n -> Z.gcd a n = 1 ->
  exists b, mod_inverse a n = Ok b /\ 1 <= b < n /\ (a * b) mod n = 1.
Proof.
  intros Hn Hgcd. unfold mod_inverse.
  destruct (Z.eqb_spec n 0); [lia|].
  destruct (Z.eqb_spec n 1); [lia|].
  pose proof (Z.mod_pos_bound a n ltac:(lia)) as Hb.
  assert (Hgcd0 : Z.gcd n (a mod n) = 1).
  { rewrite Z.gcd_comm, Z.gcd_mod by lia. rewrite Z.gcd_comm. assumption. }
  assert (Hcong : (n | a mod n - a)).
  { exists (- (a / n)). pose proof (Z.div_mod a n ltac:(lia)). lia. }
  set (a0 := a mod n) in *.
  assert (Hfin : forall b, Z.abs b < n -> (n | b * a0 - 1) ->
            let r := if b <? 0 then b + n else b in 1 <= r < n /\ (a * r) mod n = 1).
  { intros b Habs Hdiv r.
    assert (Hr : (n | a * r - 1)).
    { replace (a * r - 1) with ((b * a0 - 1) + (r - b) * a - b * (a0 - a)) by lia.
      apply Z.divide_sub_r; [apply Z.divide_add_r|]; auto.
      - subst r. destruct (b <? 0); [exists a | exists 0]; lia.
      - apply Z.divide_mul_r; assumption. }
    assert (Hrange : 0 <= r < n) by (subst r; destruct (Z.ltb_spec b 0); lia).
    assert (r <> 0).
    { intros Hr0. rewrite Hr0, Z.mul_0_r in Hr. destruct Hr as [k Hk].
      assert (k <= -1 \/ k = 0 \/ 1 <= k) as [|[|]] by lia; nia. }
    split; [lia|].
    destruct Hr as [k Hk].
    replace (a * r) with (1 + k * n) by lia.
    rewrite Z.mod_add by lia. apply Z.mod_small. lia. }
  rewrite (mod_inverse_fuel_succ n).
  set (fuel := Nat.pred (Nat.pred (mod_inverse_fuel n))).
  change (mod_inverse_loop (S (S fuel)) a0 n 1 0)
    with (if a0 >? 1 then
            if n =? 0 then Raise "ZeroDivisionError"
            else mod_inverse_loop (S fuel) n (a0 mod n) 0 (1 - a0 / n * 0)
          else Ok 1).
  destruct (Z.gtb_spec a0 1) as [Hgt|Hle].
  - destruct (Z.eqb_spec n 0); [lia|].
    rewrite (Z.mod_small a0 n), (Z.div_small a0 n) by lia.
    destruct (mod_inverse_loop_spec n a0 (S fuel) n a0 0 (1 - 0 * 0))
      as (b & Hloop & Habs & Hdiv); try lia.
    + exists (-1). lia.
    + exists 0. lia.
    + pose proof (mod_inverse_fuel_bound n a0 Hn Hb) as Hfb. fold fuel in Hfb.
      rewrite Nat2Z.inj_succ, Z.pow_succ_r by lia. lia.
    + rewrite Hloop. cbn. eexists; split; [reflexivity|]. apply Hfin; assumption.
  - cbn. eexists; split; [reflexivity|].
    assert (a0 = 1).
    { destruct (Z.eq_dec a0 0) as [H0|]; [|lia].
      rewrite H0, Z.gcd_0_r in Hgcd0. lia. }
    apply (Hfin 1); [lia|]. exists 0. lia.
Qed.

Lemma mod_inverse_of_zero (a n : Z) :
  1 < n -> a mod n = 0 -> mod_inverse a n = Ok 1.
Proof.
  intros Hn Ha. unfold mod_inverse.
  destruct (Z.eqb_spec n 0); [lia|].
  destruct (Z.eqb_spec n 1); [lia|].
  rewrite Ha. rewrite (mod_inverse_fuel_succ n). reflexivity.
Qed.

Lemma inverse_unique (a n b b' : Z) :
  0 <= b < n -> 0 <= b' < n ->
  (a * b) mod n = 1 -> (a * b') mod n = 1 -> b = b'.
Proof.
  intros Hb Hb' H1 H2.
  assert (Hn : n <> 0) by lia.
  pose proof (Z.div_mod (a * b) n Hn) as E1.
  pose proof (Z.div_mod (a * b') n Hn) as E2.
  rewrite H1 in E1. rewrite H2 in E2.
  assert (Hd : (n | b - b')).
  { exists (b' * (a * b / n) - b * (a * b' / n)).
    set (q1 := a * b / n) in *. set (q2 := a * b' / n) in *.
    pose proof (f_equal (Z.mul b') E1) as F1.
    pose proof (f_equal (Z.mul b) E2) as F2. lia. }
  destruct Hd as [k Hk].
  assert (k <= -1 \/ k = 0 \/ 1 <= k) as [|[|]] by lia; nia.
Qed.

Local Close Scope string_scope.

Local Open Scope string_scope.
Local Open Scope Z_scope.

(** * Proofs: polynomials over the integers *)

Fixpoint horner (cs : list Z) (x : Z) : Z :=
  match cs with
  | [] => 0
  | c :: rest => c + x * horner rest x
  end.

Lemma poly_sum_from_horner cs x i :
  poly_sum_from cs x i = x ^ Z.of_nat i * horner cs x.
Proof.
  revert i. induction cs as [|c rest IH]; intros i; simpl.
  - lia.
  - rewrite IH, Nat2Z.inj_succ, Z.pow_succ_r by lia. lia.
Qed.

Lemma evaluate_loop_sum cs x i acc :
  evaluate_loop cs x i acc = acc + poly_sum_from cs x i.
Proof.
  revert i acc. induction cs as [|c rest IH]; intros i acc; simpl.
  - lia.
  - rewrite IH. lia.
Qed.

Lemma evaluate_poly_sum p x : evaluate p x = poly_sum (coefficients p) x.
Proof. unfold evaluate, poly_sum. rewrite evaluate_loop_sum. lia. Qed.

Lemma poly_sum_horner cs x : poly_sum cs x = horner cs x.
Proof. unfold poly_sum. rewrite poly_sum_from_horner. simpl. lia. Qed.

(** Division of a polynomial by [x - r]. *)
Fixpoint quotient_by (r : Z) (cs : list Z) : list Z :=
  match cs with
  | [] => []
  | _ :: rest =>
      match rest with
      | [] => []
      | _ :: _ => horner rest r :: quotient_by r rest
      end
  end.

Lemma quotient_by_length r cs : length (quotient_by r cs) = Nat.pred (length cs).
Proof.
  induction cs as [|c rest IH]; [reflexivity|].
  destruct rest as [|c' rest']; [reflexivity|].
  cbn [quotient_by length Nat.pred] in *. rewrite IH. reflexivity.
Qed.

Lemma quotient_by_spec r cs x :
  horner cs x - horner cs r = (x - r) * horner (quotient_by r cs) x.
Proof.
  induction cs as [|c rest IH]; [simpl; lia|].
  destruct rest as [|c' rest']; [simpl; lia|].
  change (quotient_by r (c :: c' :: rest'))
    with (horner (c' :: rest') r :: quotient_by r (c' :: rest')).
  set (rest := c' :: rest') in *.
  change (horner (c :: rest) x) with (c + x * horner rest x).
  change (horner (c :: rest) r) with (c + r * horner rest r).
  change (horner (horner rest r :: quotient_by r rest) x)
    with (horner rest r + x * horner (quotient_by r rest) x).
  replace (c + x * horner rest x - (c + r * horner rest r))
    with (x * (horner rest x - horner rest r) + (x - r) * horner rest r) by ring.
  rewrite IH. ring.
Qed.

(** Coefficient lists of sums, multiples and products by [x - c]. *)
Fixpoint poly_add (a b : list Z) : list Z :=
  match a, b with
  | [], _ => b
  | _, [] => a
  | x :: a', y :: b' => (x + y) :: poly_add a' b'
  end.

Definition poly_scale (k : Z) (a : list Z) : list Z := map (Z.mul k) a.

Definition add_head (a : Z) (l : list Z) : list Z :=
  match l with
  | [] => [a]
  | b :: l' => (a + b) :: l'
  end.

Fixpoint lin_mul (c : Z) (cs : list Z) : list Z :=
  match cs with
  | [] => []
  | a :: rest => (- c * a) :: add_head a (lin_mul c rest)
  end.

Fixpoint prod_lin (ys : list Z) : list Z :=
  match ys with
  | [] => [1]
  | y :: rest => lin_mul y (prod_lin rest)
  end.

Definition lprod (zs : list Z) : Z := fold_right Z.mul 1 zs.

Lemma horner_poly_add a b x : horner (poly_add a b) x = horner a x + horner b x.
Proof.
  revert b. induction a as [|c a IH]; intros [|d b]; simpl; try lia.
  rewrite IH. lia.
Qed.

Lemma length_poly_add a b : length (poly_add a b) = Nat.max (length a) (length b).
Proof.
  revert b. induction a as [|c a IH]; intros [|d b]; simpl; try lia.
  rewrite IH. lia.
Qed.

Lemma horner_poly_scale k a x : horner (poly_scale k a) x = k * horner a x.
Proof. induction a as [|c a IH]; simpl; [lia|]. fold (poly_scale k a). rewrite IH. lia. Qed.

Lemma length_poly_scale k a : length (poly_scale k a) = length a.
Proof. apply length_map. Qed.

Lemma horner_add_head a l x : horner (add_head a l) x = a + horner l x.
Proof. destruct l; simpl; lia. Qed.

Lemma horner_lin_mul c cs x : horner (lin_mul c cs) x = (x - c) * horner cs x.
Proof.
  induction cs as [|a rest IH]; simpl; [lia|].
  rewrite horner_add_head, IH. lia.
Qed.

Lemma length_lin_mul c cs : (length (lin_mul c cs) <= S (length cs))%nat.
Proof.
  induction cs as [|a rest IH]; simpl; [lia|].
  destruct (lin_mul c rest); simpl in *; lia.
Qed.

Lemma horner_prod_lin ys x : horner (prod_lin ys) x = lprod (map (fun y => x - y) ys).
Proof.
  induction ys as [|y rest IH]; simpl; [lia|].
  rewrite horner_lin_mul, IH. reflexivity.
Qed.

Lemma length_prod_lin ys : (length (prod_lin ys) <= S (length ys))%nat.
Proof.
  induction ys as [|y rest IH]; simpl; [lia|].
  pose proof (length_lin_mul y (prod_lin rest)). lia.
Qed.

Lemma math_prod_lprod l : math_prod l = lprod l.
Proof.
  unfold math_prod, lprod.
  assert (H : forall a, fold_left Z.mul l a = a * fold_right Z.mul 1 l).
  { induction l as [|z l IH]; intros a; simpl; [lia|]. rewrite IH. lia. }
  rewrite H. lia.
Qed.

Lemma py_sum_fold l : py_sum l = fold_right Z.add 0 l.
Proof.
  unfold py_sum.
  assert (H : forall a, fold_left Z.add l a = a + fold_right Z.add 0 l).
  { induction l as [|z l IH]; intros a; simpl; [lia|]. rewrite IH. lia. }
  rewrite H. lia.
Qed.

Section Roots.
Variable p : Z.
Hypothesis p_prime : Z.prime p.

Definition distinct_mod (xs : list Z) : Prop := NoDup (map (fun x => x mod p) xs).

Lemma p_gt_1 : 1 < p.
Proof. destruct p_prime. lia. Qed.

Lemma divide_mod_eq a b : (p | a - b) <-> a mod p = b mod p.
Proof.
  pose proof p_gt_1.
  split.
  - intros [k Hk]. replace a with (b + k * p) by lia. apply Z.mod_add. lia.
  - intros E. apply Z.mod_divide; [lia|].
    rewrite Zminus_mod, E, Z.sub_diag. apply Z.mod_0_l. lia.
Qed.

(** A polynomial with at most [m] coefficients and [m] roots that are
    distinct modulo [p] vanishes modulo [p] everywhere. *)
Lemma roots_vanish (roots : list Z) :
  forall cs,
    (length cs <= length roots)%nat ->
    distinct_mod roots ->
    Forall (fun r => (p | horner cs r)) roots ->
    forall x, (p | horner cs x).
Proof.
  induction roots as [|r rs IH]; intros cs Hlen Hdist Hroots x.
  - destruct cs; [apply Z.divide_0_r | simpl in Hlen; lia].
  - destruct cs as [|c rest]; [apply Z.divide_0_r|].
    inversion Hroots as [|? ? Hr Hrs]; subst.
    inversion Hdist as [|? ? Hnotin Hdist']; subst.
    assert (Hq : forall y, (p | horner (quotient_by r (c :: rest)) y)).
    { apply IH; [rewrite quotient_by_length; simpl in *; lia | exact Hdist' |].
      rewrite Forall_forall in Hrs |- *. intros r' Hin.
      specialize (Hrs r' Hin).
      assert (Hprod : (p | (r' - r) * horner (quotient_by r (c :: rest)) r')).
      { rewrite <- quotient_by_spec. apply Z.divide_sub_r; assumption. }
      apply (Z.divide_prime_mul _ _ _ p_prime) in Hprod.
      destruct Hprod as [Hbad|]; [|assumption].
      exfalso. apply Hnotin. apply divide_mod_eq in Hbad. rewrite <- Hbad.
      apply list_elem_of_In, List.in_map_iff. exists r'.
      split; [reflexivity | apply list_elem_of_In; exact Hin]. }
    replace (horner (c :: rest) x)
      with (horner (c :: rest) r + (x - r) * horner (quotient_by r (c :: rest)) x).
    + apply Z.divide_add_r; [assumption|]. apply Z.divide_mul_r. apply Hq.
    + rewrite <- quotient_by_spec. lia.
Qed.

(** Two polynomials with at most [m] coefficients that agree modulo [p]
    on [m] points, distinct modulo [p], agree modulo [p] everywhere. *)
Lemma polys_agree (pts : list Z) (a b : list Z) :
  (length a <= length pts)%nat ->
  (length b <= length pts)%nat ->
  distinct_mod pts ->
  Forall (fun r => horner a r mod p = horner b r mod p) pts ->
  forall x, horner a x mod p = horner b x mod p.
Proof.
  intros Ha Hb Hdist Hagree x.
  apply divide_mod_eq.
  pose proof (roots_vanish pts (poly_add a (poly_scale (-1) b))) as H.
  rewrite length_poly_add, length_poly_scale in H.
  specialize (H ltac:(lia) Hdist).
  assert (Hx : forall y, horner (poly_add a (poly_scale (-1) b)) y = horner a y - horner b y).
  { intros y. rewrite horner_poly_add, horner_poly_scale. lia. }
  rewrite <- Hx. apply H.
  eapply Forall_impl; [exact Hagree|].
  intros r Hr. cbv beta in Hr |- *. rewrite Hx. apply divide_mod_eq. exact Hr.
Qed.

End Roots.

Local Close Scope string_scope.

(** * Proofs: Lagrange interpolation *)

Definition other_ids (j : nat) (ids : list Z) : list Z :=
  map (fun k => nth k ids 0) (filter (fun i => i <> j) (seq 0 (length ids))).

Lemma filter_neq_seq (j n : nat) :
  (j < n)%nat ->
  filter (fun i => i <> j) (seq 0 n) = seq 0 j ++ seq (S j) (n - S j).
Proof.
  intros Hj.
  replace n with (j + S (n - S j))%nat at 1 by lia.
  rewrite seq_app. cbn [seq Nat.add]. rewrite filter_app, filter_cons.
  destruct (decide (j <> j)); [congruence|].
  rewrite !filter_all; [reflexivity| |].
  - apply Forall_forall. intros i Hi. apply elem_of_seq in Hi. lia.
  - apply Forall_forall. intros i Hi. apply elem_of_seq in Hi. lia.
Qed.

Lemma other_ids_length j ids :
  (j < length ids)%nat -> length (other_ids j ids) = Nat.pred (length ids).
Proof.
  intros Hj. unfold other_ids.
  rewrite length_map, filter_neq_seq, length_app, !length_seq by exact Hj. lia.
Qed.

Lemma other_ids_elem j ids y :
  y ∈ other_ids j ids <-> exists k, k <> j /\ (k < length ids)%nat /\ y = nth k ids 0.
Proof.
  unfold other_ids. rewrite list_elem_of_In, List.in_map_iff. split.
  - intros (k & <- & Hk). apply list_elem_of_In, list_elem_of_filter in Hk.
    destruct Hk as [Hne Hin]. apply elem_of_seq in Hin. exists k. repeat split; [assumption|lia].
  - intros (k & Hne & Hlt & ->). exists k. split; [reflexivity|].
    apply list_elem_of_In, list_elem_of_filter. split; [assumption|].
    apply elem_of_seq. lia.
Qed.

Lemma langrange_loop_ok `{Fastecdsa} ks ids x x_j :
  forall nums denums,
    Forall (fun k => (k < length ids)%nat) ks ->
    langrange_loop ks ids x x_j nums denums =
      Ok (nums ++ map (fun k => x - nth k ids 0) ks,
          denums ++ map (fun k => x_j - nth k ids 0) ks).
Proof.
  induction ks as [|k rest IH]; intros nums denums Hks.
  - simpl. rewrite !app_nil_r. reflexivity.
  - inversion Hks as [|? ? Hk Hrest]; subst.
    cbn [langrange_loop]. unfold py_index.
    destruct (lookup_lt_is_Some_2 ids k Hk) as [y Hy]. rewrite Hy. cbn.
    rewrite IH by assumption.
    rewrite (nth_lookup_Some _ _ 0 _ Hy). cbn [map].
    rewrite <- !app_assoc. reflexivity.
Qed.

Definition lnum (ids : list Z) (j : nat) (x : Z) : Z :=
  lprod (map (fun y => x - y) (other_ids j ids)).

Lemma langrange_coef_unfold `{Fastecdsa} j T ids x :
  length ids = T -> (j < T)%nat ->
  langrange_coef j T ids x =
    (inv ← mod_inverse (lnum ids j (nth j ids 0)) N; Ok (inv * lnum ids j x)).
Proof.
  intros <- Hj. unfold langrange_coef, py_index.
  destruct (lookup_lt_is_Some_2 ids j Hj) as [x_j Hxj]. rewrite Hxj. cbn.
  rewrite langrange_loop_ok.
  2:{ apply Forall_forall. intros k Hk. apply list_elem_of_filter in Hk.
      destruct Hk as [_ Hk]. apply elem_of_seq in Hk. lia. }
  cbn -[math_prod mod_inverse]. rewrite !math_prod_lprod.
  rewrite (nth_lookup_Some _ _ 0 _ Hxj).
  unfold lnum, other_ids. rewrite !List.map_map. reflexivity.
Qed.

Lemma lprod_zero l : 0 ∈ l -> lprod l = 0.
Proof.
  induction l as [|z l IH]; intros Hin.
  - inversion Hin.
  - apply elem_of_cons in Hin. destruct Hin as [<-|Hin]; simpl; [lia|].
    rewrite IH by assumption. lia.
Qed.

Lemma lprod_not_divide p l :
  Z.prime p -> Forall (fun z => ~ (p | z)) l -> ~ (p | lprod l).
Proof.
  intros Hp. induction 1 as [|z l Hz Hl IH]; simpl.
  - intros Hd. apply Z.divide_1_r in Hd. destruct Hp. lia.
  - intros Hd. apply (Z.divide_prime_mul _ _ _ Hp) in Hd. tauto.
Qed.

Section Lagrange.
Context {curve : Fastecdsa}.

Lemma N_prime : Z.prime N.
Proof. exact q_prime. Qed.

Lemma N_gt_1 : 1 < N.
Proof. destruct N_prime. lia. Qed.

Lemma lnum_other ids i j :
  i <> j -> (i < length ids)%nat -> lnum ids j (nth i ids 0) = 0.
Proof.
  intros Hne Hi. unfold lnum. apply lprod_zero.
  apply list_elem_of_In, List.in_map_iff. exists (nth i ids 0). split; [lia|].
  apply list_elem_of_In, other_ids_elem. exists i. auto.
Qed.

Lemma distinct_mod_nth ids i j :
  distinct_mod N ids -> (i < length ids)%nat -> (j < length ids)%nat ->
  nth i ids 0 mod N = nth j ids 0 mod N -> i = j.
Proof.
  intros Hd Hi Hj Heq. unfold distinct_mod in Hd.
  eapply NoDup_lookup; [exact Hd| |].
  - change (map (fun x => x mod N) ids) with ((fun x => x mod N) <$> ids).
    rewrite list_lookup_fmap.
    destruct (lookup_lt_is_Some_2 ids i Hi) as [y Hy]. rewrite Hy. cbn.
    rewrite <- (nth_lookup_Some _ _ 0 _ Hy). reflexivity.
  - change (map (fun x => x mod N) ids) with ((fun x => x mod N) <$> ids).
    rewrite list_lookup_fmap.
    destruct (lookup_lt_is_Some_2 ids j Hj) as [y Hy]. rewrite Hy. cbn.
    rewrite <- (nth_lookup_Some _ _ 0 _ Hy). rewrite Heq. reflexivity.
Qed.

Lemma lnum_self ids j :
  distinct_mod N ids -> (j < length ids)%nat ->
  ~ (N | lnum ids j (nth j ids 0)).
Proof.
  intros Hd Hj. unfold lnum. apply lprod_not_divide; [exact N_prime|].
  apply Forall_forall. intros z Hz.
  apply list_elem_of_In, List.in_map_iff in Hz. destruct Hz as (y & <- & Hy).
  apply list_elem_of_In, other_ids_elem in Hy. destruct Hy as (k & Hne & Hk & ->).
  intros Hdiv. apply (divide_mod_eq N N_prime) in Hdiv.
  apply Hne. symmetry. eapply distinct_mod_nth; eauto.
Qed.

Definition inv_of (ids : list Z) (j : nat) : Z :=
  match mod_inverse (lnum ids j (nth j ids 0)) N with
  | Ok b => b
  | Raise _ => 0
  end.

Lemma mod_inverse_lnum ids j :
  distinct_mod N ids -> (j < length ids)%nat ->
  mod_inverse (lnum ids j (nth j ids 0)) N = Ok (inv_of ids j) /\
  (lnum ids j (nth j ids 0) * inv_of ids j) mod N = 1.
Proof.
  intros Hd Hj. unfold inv_of.
  destruct (mod_inverse_coprime (lnum ids j (nth j ids 0)) N N_gt_1) as (b & -> & _ & Hb).
  - rewrite Z.gcd_comm. apply Z.coprime_prime_l; [exact N_prime|].
    apply lnum_self; assumption.
  - split; [reflexivity | exact Hb].
Qed.

(** The interpolating polynomial [Σ_j w_j · Π_{k≠j} (x − x_k)]. *)
Definition interp (w : nat -> Z) (ids : list Z) (js : list nat) : list Z :=
  fold_right (fun j acc => poly_add (poly_scale (w j) (prod_lin (other_ids j ids))) acc) [] js.

Definition interp_sum (w : nat -> Z) (ids : list Z) (js : list nat) (x : Z) : Z :=
  fold_right (fun j acc => w j * lnum ids j x + acc) 0 js.

Lemma horner_interp w ids js x : horner (interp w ids js) x = interp_sum w ids js x.
Proof.
  induction js as [|j js IH]; simpl; [reflexivity|].
  rewrite horner_poly_add, horner_poly_scale, horner_prod_lin, IH. reflexivity.
Qed.

Lemma length_interp w ids js :
  Forall (fun j => (j < length ids)%nat) js ->
  (length (interp w ids js) <= length ids)%nat.
Proof.
  induction 1 as [|j js Hj Hjs IH]; simpl; [lia|].
  rewrite length_poly_add, length_poly_scale.
  pose proof (length_prod_lin (other_ids j ids)) as Hl.
  rewrite other_ids_length in Hl by assumption. lia.
Qed.

Lemma interp_sum_at_node w ids js i :
  (i < length ids)%nat -> NoDup js ->
  interp_sum w ids js (nth i ids 0) =
    if bool_decide (i ∈ js) then w i * lnum ids i (nth i ids 0) else 0.
Proof.
  intros Hi. induction 1 as [|j js Hnotin Hnd IH]; simpl; [reflexivity|].
  rewrite IH. destruct (decide (j = i)) as [->|Hne].
  - rewrite (bool_decide_eq_true_2 (i ∈ i :: js)) by (apply elem_of_cons; auto).
    rewrite (bool_decide_eq_false_2 (i ∈ js)) by assumption. lia.
  - rewrite lnum_other by auto.
    destruct (bool_decide (i ∈ js)) eqn:E.
    + apply bool_decide_eq_true in E.
      rewrite (bool_decide_eq_true_2 (i ∈ j :: js)) by (apply elem_of_cons; auto). lia.
    + apply bool_decide_eq_false in E.
      rewrite (bool_decide_eq_false_2 (i ∈ j :: js)); [lia|].
      intros Hin. apply elem_of_cons in Hin. destruct Hin; congruence.
Qed.

End Lagrange.

Section Reconstruct.
Context {curve : Fastecdsa}.

Definition weight (shares : list share) (j : nat) : Z :=
  share_key (nth j shares (mkShare 0 0)) * inv_of (map share_id shares) j.

Lemma reconstruct_loop_ok shares x js :
  forall sum,
    distinct_mod N (map share_id shares) ->
    Forall (fun j => (j < length shares)%nat) js ->
    exists r, reconstruct_loop js shares (length shares) x sum = Ok r /\
              r mod N = (sum + interp_sum (weight shares) (map share_id shares) js x) mod N.
Proof.
  induction js as [|j js IH]; intros sum Hd Hjs.
  - exists sum. split; [reflexivity|]. simpl. f_equal. lia.
  - inversion Hjs as [|? ? Hj Hrest]; subst.
    cbn [reconstruct_loop].
    rewrite langrange_coef_unfold by (rewrite ?length_map; auto).
    destruct (mod_inverse_lnum (map share_id shares) j Hd) as [Hinv _];
      [rewrite length_map; exact Hj|].
    rewrite Hinv. cbn -[N]. unfold py_index.
    destruct (lookup_lt_is_Some_2 shares j Hj) as [s Hs]. rewrite Hs. cbn -[N].
    destruct (IH ((sum + share_key s * (inv_of (map share_id shares) j *
                    lnum (map share_id shares) j x) mod N) mod N) Hd Hrest)
      as (r & Hr & Hmod).
    exists r. split; [exact Hr|]. rewrite Hmod.
    cbn [interp_sum fold_right]. fold (interp_sum (weight shares) (map share_id shares) js x).
    unfold weight at 2. rewrite (nth_lookup_Some _ _ _ _ Hs).
    pose proof N_gt_1 as HN.
    rewrite Zplus_mod_idemp_l.
    rewrite (Z.add_comm sum), <- Z.add_assoc, Zplus_mod_idemp_l.
    f_equal. lia.
Qed.

Lemma seq_all_lt n : Forall (fun j => (j < n)%nat) (seq 0 n).
Proof. apply Forall_forall. intros j Hj. apply elem_of_seq in Hj. lia. Qed.

Lemma interp_at_node shares i :
  distinct_mod N (map share_id shares) -> (i < length shares)%nat ->
  interp_sum (weight shares) (map share_id shares) (seq 0 (length shares))
    (nth i (map share_id shares) 0) mod N
  = share_key (nth i shares (mkShare 0 0)) mod N.
Proof.
  intros Hd Hi.
  rewrite interp_sum_at_node by (rewrite ?length_map; auto using NoDup_seq).
  rewrite bool_decide_eq_true_2 by (apply elem_of_seq; lia).
  destruct (mod_inverse_lnum (map share_id shares) i Hd) as [_ Hone];
    [rewrite length_map; exact Hi|].
  unfold weight. rewrite <- Z.mul_assoc, Z.mul_mod by (pose proof N_gt_1; lia).
  rewrite (Z.mul_comm (inv_of _ _)), Hone, Z.mul_1_r.
  apply Z.mod_mod. pose proof N_gt_1; lia.
Qed.

(** The weighted sum of the Lagrange numerators agrees modulo [N] with
    every polynomial of at most as many coefficients as there are shares
    that takes the values of the shares at their identifiers. *)
Lemma interp_sum_agrees (cs : list Z) (shares : list share) (x : Z) :
  (length cs <= length shares)%nat ->
  distinct_mod N (map share_id shares) ->
  Forall (fun s => share_key s mod N = horner cs (share_id s) mod N) shares ->
  interp_sum (weight shares) (map share_id shares) (seq 0 (length shares)) x mod N
  = horner cs x mod N.
Proof.
  intros Hlen Hd Hkeys.
  rewrite <- horner_interp.
  apply (polys_agree N N_prime (map share_id shares)).
  - apply length_interp. rewrite length_map. apply seq_all_lt.
  - rewrite length_map. exact Hlen.
  - exact Hd.
  - apply Forall_forall. intros y Hy.
    apply list_elem_of_lookup in Hy. destruct Hy as [i Hi].
    pose proof (lookup_lt_Some _ _ _ Hi) as Hlt. rewrite length_map in Hlt.
    rewrite <- (nth_lookup_Some _ _ 0 _ Hi).
    rewrite horner_interp, interp_at_node by assumption.
    destruct (lookup_lt_is_Some_2 shares i Hlt) as [s Hs].
    rewrite (nth_lookup_Some _ _ _ _ Hs).
    rewrite Forall_forall in Hkeys. rewrite (Hkeys s) by (eapply list_elem_of_lookup_2; eauto).
    change (map share_id shares) with (share_id <$> shares).
    erewrite nth_lookup_Some; [reflexivity|].
    rewrite list_lookup_fmap, Hs. reflexivity.
Qed.

Lemma reconstruct_share_ok (f : Polynomial) (shares : list share) (x : Z) :
  (length (coefficients f) <= length shares)%nat ->
  distinct_mod N (map share_id shares) ->
  Forall (fun s => share_key s mod N = evaluate f (share_id s) mod N) shares ->
  reconstruct_share shares (length shares) x = Ok (evaluate f x mod N).
Proof.
  intros Hlen Hd Hkeys. unfold reconstruct_share.
  rewrite bool_decide_eq_true_2 by reflexivity.
  destruct (reconstruct_loop_ok shares x (seq 0 (length shares)) 0 Hd (seq_all_lt _))
    as (r & -> & Hr).
  cbn -[N]. f_equal. rewrite Hr, Z.add_0_l.
  rewrite evaluate_poly_sum, poly_sum_horner.
  apply interp_sum_agrees; try assumption.
  eapply Forall_impl; [exact Hkeys|]. intros s Hs. cbn beta in Hs.
  rewrite Hs, evaluate_poly_sum, poly_sum_horner. reflexivity.
Qed.

End Reconstruct.

(** * Proofs: the Feldman check *)

Section Feldman.
Context {curve : Fastecdsa}.

Lemma pmul_G_mod a : pmul (a mod N) G = pmul a G.
Proof. apply pmul_G_eq. apply Z.mod_mod. pose proof N_gt_1. unfold N in *. lia. Qed.

Lemma pmul_G_congr a b : a mod N = b mod N -> pmul a G = pmul b G.
Proof. apply pmul_G_eq. Qed.

Fixpoint reduced_sum_from (coefs : list Z) (x : Z) (i : nat) : Z :=
  match coefs with
  | [] => 0
  | c :: rest => (x ^ Z.of_nat i mod N) * c + reduced_sum_from rest x (S i)
  end.

Lemma reduced_sum_from_mod coefs x i :
  reduced_sum_from coefs x i mod N = poly_sum_from coefs x i mod N.
Proof.
  revert i. induction coefs as [|c rest IH]; intros i; simpl; [reflexivity|].
  rewrite Z.add_mod, IH, Z.mul_mod_idemp_l, <- Z.add_mod by (pose proof N_gt_1; lia).
  f_equal. lia.
Qed.

Lemma calc_poly_point_loop_G coefs x i a :
  calc_poly_point_loop (map get_public_key coefs) x i (pmul a G)
  = pmul (a + reduced_sum_from coefs x i) G.
Proof.
  revert i a. induction coefs as [|c rest IH]; intros i a;
    cbn [map calc_poly_point_loop reduced_sum_from].
  - f_equal. lia.
  - change (get_public_key c) with (pmul c G). rewrite pmul_pmul, <- pmul_add, IH.
    f_equal. lia.
Qed.

Lemma calc_poly_point_evaluate (f : Polynomial) (x : Z) :
  coefficients f <> [] ->
  calc_poly_point (coef_pub_keys f) x = Ok (pmul (evaluate f x) G).
Proof.
  intros Hne. unfold coef_pub_keys, calc_poly_point.
  destruct (coefficients f) as [|c rest] eqn:E; [congruence|].
  cbn [map]. f_equal. change (get_public_key c) with (pmul c G).
  rewrite pmul_pmul, calc_poly_point_loop_G.
  apply pmul_G_congr.
  rewrite evaluate_poly_sum, E. unfold poly_sum. cbn [poly_sum_from].
  rewrite Z.add_mod, reduced_sum_from_mod, Z.mul_mod_idemp_l, <- Z.add_mod
    by (pose proof N_gt_1; lia).
  f_equal. cbn. lia.
Qed.

(** The check [f * G == point] accepts [v] exactly when [v] is the
    evaluation modulo [N]. *)
Lemma feldman_check_iff (f : Polynomial) (x v : Z) :
  coefficients f <> [] ->
  (calc_poly_point (coef_pub_keys f) x = Ok (pmul v G)) <-> v mod N = evaluate f x mod N.
Proof.
  intros Hne. rewrite calc_poly_point_evaluate by assumption. split.
  - intros [= E]. symmetry. apply pmul_G_eq. exact E.
  - intros E. f_equal. symmetry. apply pmul_G_eq. exact E.
Qed.

End Feldman.

(** * Proofs: Schnorr signatures and proofs of possession *)

Lemma str_drop_0x s : str_drop 2 ("0x" ++ s)%string = s.
Proof. unfold str_drop. rewrite chars_app. cbn [chars app drop]. apply text_chars. Qed.

Lemma py_hex_nonneg n : 0 <= n -> py_hex n = ("0x" ++ digit_string 16 n)%string.
Proof. intros Hn. unfold py_hex. destruct (Z.ltb_spec n 0); [lia | reflexivity]. Qed.

Lemma hex_digits_of n : 0 <= n -> str_drop 2 (py_hex n) = digit_string 16 n.
Proof. intros Hn. rewrite py_hex_nonneg by assumption. apply str_drop_0x. Qed.

Lemma digit_string_nonempty base n : 2 <= base -> 0 <= n -> chars (digit_string base n) <> [].
Proof.
  intros Hb Hn. rewrite chars_digit_string.
  destruct (to_digits_spec base Hb n Hn) as (Hne & _).
  destruct (to_digits base n); [congruence | discriminate].
Qed.

Lemma to_digits_length_le base n d :
  2 <= base -> 0 <= n < base ^ Z.of_nat (S d) -> (length (to_digits base n) <= S d)%nat.
Proof.
  intros Hb Hn.
  destruct (to_digits_spec base Hb n ltac:(lia)) as (Hne & Hr & Hc & Hv).
  set (ds := to_digits base n) in *.
  destruct ds as [|h t]; [congruence|]. cbn [length].
  destruct (le_lt_dec (length t) d) as [|Hgt]; [lia|]. exfalso.
  assert (Ht : t <> []) by (destruct t; [cbn in Hgt; lia | discriminate]).
  apply Forall_cons in Hr as [Hh Ht']. unfold in_base in Hh.
  assert (h <> 0) by (intros ->; apply Ht; apply Hc; reflexivity).
  pose proof (of_digits_bounds base Hb _ Ht') as Hb'.
  rewrite of_digits_cons in Hv by exact Hb.
  assert (base ^ Z.of_nat (S d) <= base ^ Z.of_nat (length t))
    by (apply Z.pow_le_mono_r; lia).
  assert (0 < base ^ Z.of_nat (length t)) by (apply Z.pow_pos_nonneg; lia).
  nia.
Qed.

Lemma of_digits_zeros base k ds :
  of_digits base (replicate k 0 ++ ds) = of_digits base ds.
Proof.
  unfold of_digits. induction k as [|k IH]; [reflexivity|].
  cbn [replicate app fold_left]. rewrite Z.mul_0_l, Z.add_0_l. exact IH.
Qed.

(** The 64 characters of a field of [stringify_signature]. *)
Definition padded_digits (n : Z) : list Z :=
  replicate (64 - length (to_digits 16 n)) 0 ++ to_digits 16 n.

Lemma chars_zfill n :
  0 <= n ->
  chars (zfill_left 64 (str_drop 2 (py_hex n))) = map digit_char (padded_digits n).
Proof.
  intros Hn. unfold zfill_left, padded_digits.
  rewrite chars_text, hex_digits_of, chars_digit_string, length_map by assumption.
  rewrite map_app. f_equal. induction (64 - length (to_digits 16 n))%nat; [reflexivity|].
  cbn [replicate map]. f_equal. assumption.
Qed.

Lemma padded_digits_length n :
  0 <= n < 16 ^ 64 -> length (padded_digits n) = 64%nat.
Proof.
  intros Hn. unfold padded_digits. rewrite length_app, length_replicate.
  pose proof (to_digits_length_le 16 n 63 ltac:(lia) ltac:(change (Z.of_nat 64) with 64; lia)).
  lia.
Qed.

Lemma padded_digits_in_base n : 0 <= n -> Forall (in_base 16) (padded_digits n).
Proof.
  intros Hn. unfold padded_digits. apply Forall_app. split.
  - apply Forall_forall. intros z Hz. apply elem_of_replicate in Hz. destruct Hz as [-> _].
    unfold in_base. lia.
  - apply to_digits_spec; lia.
Qed.

Lemma padded_digits_value n : 0 <= n -> of_digits 16 (padded_digits n) = n.
Proof.
  intros Hn. unfold padded_digits. rewrite of_digits_zeros. apply to_digits_spec; lia.
Qed.

Lemma padded_digits_nonempty n : 0 <= n < 16 ^ 64 -> padded_digits n <> [].
Proof.
  intros Hn E0. pose proof (padded_digits_length n Hn) as Hl. rewrite E0 in Hl. discriminate.
Qed.

Lemma split_stringify (sg : signature) :
  0 <= sig_s sg < 16 ^ 64 -> 0 <= sig_e sg < 16 ^ 64 ->
  split_signature (stringify_signature sg) = Ok sg.
Proof.
  intros Hs He. unfold split_signature, stringify_signature.
  rewrite str_drop_0x.
  set (Ex := zfill_left 64 (str_drop 2 (py_hex (sig_e sg)))).
  set (Sx := zfill_left 64 (str_drop 2 (py_hex (sig_s sg)))).
  assert (HE : chars Ex = map digit_char (padded_digits (sig_e sg))) by (apply chars_zfill; lia).
  assert (HS : chars Sx = map digit_char (padded_digits (sig_s sg))) by (apply chars_zfill; lia).
  assert (HEl : length (chars Ex) = 64%nat)
    by (rewrite HE, length_map; apply padded_digits_length; exact He).
  assert (HSl : length (chars Sx) = 64%nat)
    by (rewrite HS, length_map; apply padded_digits_length; exact Hs).
  rewrite bool_decide_eq_true_2 by (rewrite chars_app, length_app; lia).
  unfold str_take, str_drop. rewrite chars_app.
  rewrite take_app_length' by (symmetry; exact HEl).
  rewrite drop_app_length' by (symmetry; exact HEl).
  rewrite HE, HS.
  rewrite !py_int_base_16_0x
    by (try (apply padded_digits_nonempty; assumption); apply padded_digits_in_base; lia).
  cbn. rewrite !padded_digits_value by lia. destruct sg; reflexivity.
Qed.

Section Schnorr.
Context {curve : Fastecdsa} {hashes : Hashes} {crypto : Cryptography} {json : Json}.

Lemma pub_to_addr_ok (P : point) :
  exists body, pub_to_addr P = Ok ("0x" ++ body)%string /\ Forall hex_char (chars body).
Proof.
  unfold pub_to_addr. destruct (coordinates_nonneg P) as [Hx Hy].
  rewrite !hex_digits_of by assumption.
  destruct (py_int_base_16_hex (digit_string 16 (px P) ++ digit_string 16 (py P))%string)
    as [n ->].
  - rewrite chars_app. intros E. apply app_eq_nil in E. destruct E as [E _].
    exact (digit_string_nonempty 16 (px P) ltac:(lia) Hx E).
  - rewrite chars_app. apply Forall_app.
    split; apply digit_string_hex_chars; lia.
  - cbn. destruct (checksum_shape (str_last 40 (bytes_hex (keccak n)))) as (body & E & Hb).
    + unfold str_last. rewrite chars_text. apply Forall_drop, bytes_hex_chars.
    + exists body. rewrite E. auto.
Qed.

Lemma schnorr_hash_ok (P : point) (m : Z) :
  0 <= m -> exists h, schnorr_hash P m = Ok h /\ length h = 32%nat.
Proof.
  intros Hm. unfold schnorr_hash.
  destruct (pub_to_addr_ok P) as (body & -> & Hbody). cbn.
  rewrite str_drop_0x, hex_digits_of by assumption.
  destruct (py_int_base_16_hex (body ++ digit_string 16 m)%string) as [n ->].
  - rewrite chars_app. intros E. apply app_eq_nil in E. destruct E as [_ E].
    exact (digit_string_nonempty 16 m ltac:(lia) Hm E).
  - rewrite chars_app. apply Forall_app.
    split; [assumption | apply digit_string_hex_chars; lia].
  - cbn. eexists. split; [reflexivity | apply keccak_length].
Qed.

(** The challenge of a Schnorr signature with the public nonce [K]. *)
Definition challenge_of (K : point) (m : Z) : Z :=
  match schnorr_hash K m with
  | Ok h => int_from_bytes h
  | Raise _ => 0
  end.

Lemma challenge_of_range K m : 0 <= m -> 0 <= challenge_of K m < 16 ^ 64.
Proof.
  intros Hm. unfold challenge_of. destruct (schnorr_hash_ok K m Hm) as (h & -> & Hl).
  pose proof (int_from_bytes_bounds h) as H. rewrite Hl in H.
  change (16 ^ 64) with (256 ^ Z.of_nat 32). exact H.
Qed.

Lemma schnorr_hash_challenge K m :
  0 <= m -> exists h, schnorr_hash K m = Ok h /\ int_from_bytes h = challenge_of K m.
Proof.
  intros Hm. unfold challenge_of. destruct (schnorr_hash_ok K m Hm) as (h & -> & _). eauto.
Qed.

Definition signature_of (x k : Z) (m : Z) : signature :=
  mkSignature ((k - challenge_of (pmul k G) m * x) mod N) (challenge_of (pmul k G) m).

Lemma schnorr_sign_ok x k m :
  0 <= m -> schnorr_sign x k (pmul k G) m = Ok (signature_of x k m).
Proof.
  intros Hm. unfold schnorr_sign, signature_of.
  destruct (schnorr_hash_challenge (pmul k G) m Hm) as (h & -> & <-). reflexivity.
Qed.

Lemma N_bound : N <= 16 ^ 64.
Proof. pose proof q_bound. unfold N. change (16 ^ 64) with (2 ^ 256). lia. Qed.

Lemma schnorr_verify_sign x k m :
  0 <= m ->
  schnorr_verify (pmul x G) m (stringify_signature (signature_of x k m)) = Ok true.
Proof.
  intros Hm. unfold schnorr_verify.
  pose proof (challenge_of_range (pmul k G) m Hm) as He.
  pose proof N_gt_1 as HN. pose proof N_bound as HNb.
  assert (Hs : 0 <= (k - challenge_of (pmul k G) m * x) mod N < N)
    by (apply Z.mod_pos_bound; lia).
  rewrite split_stringify by (unfold signature_of; cbn [sig_s sig_e]; lia).
  unfold signature_of. cbn [mbind result_bind sig_s sig_e].
  destruct (Z.ltb_spec ((k - challenge_of (pmul k G) m * x) mod N) N); [|lia].
  rewrite pmul_pmul, <- pmul_add.
  replace (pmul ((k - challenge_of (pmul k G) m * x) mod N + challenge_of (pmul k G) m * x) G)
    with (pmul k G).
  - destruct (schnorr_hash_challenge (pmul k G) m Hm) as (h & Hh & He').
    rewrite Hh. cbn [mbind result_bind]. rewrite He'.
    rewrite bool_decide_eq_true_2 by reflexivity. reflexivity.
  - apply pmul_G_congr. rewrite Zplus_mod_idemp_l. f_equal. lia.
Qed.

(** A scalar that is not a multiple of [N] gives a point other than the identity. *)
Lemma pmul_G_not_identity k : k mod N <> 0 -> pmul k G <> IDENTITY.
Proof.
  intros Hk E. apply Hk. rewrite <- pmul_0_G in E. apply pmul_G_eq in E.
  pose proof N_gt_1. unfold N in *. rewrite E. apply Z.mod_0_l. lia.
Qed.

Lemma mul_mod_nonzero a b : a mod N <> 0 -> b mod N <> 0 -> (a * b) mod N <> 0.
Proof.
  intros Ha Hb E. pose proof N_gt_1 as HN.
  apply Z.mod_divide in E; [|lia].
  apply (Z.divide_prime_mul _ _ _ N_prime) in E.
  destruct E as [E|E]; apply Z.mod_divide in E; lia.
Qed.

(** The proof of possession that [round1] publishes for the secret [x]. *)
Definition pop_message (id dkg_id : string) (x k : Z) : Z :=
  int_from_bytes (sha256 (str_encode id ++ str_encode dkg_id
                          ++ encode_public_key (pmul x G) ++ encode_public_key (pmul k G))).

Definition pop_of (id dkg_id : string) (x k : Z) : pop_signature :=
  mkPop (code (pmul k G)) (stringify_signature (signature_of x k (pop_message id dkg_id x k))).

Lemma pop_hash_codes id dkg_id x k :
  x mod N <> 0 -> k mod N <> 0 ->
  pop_hash id dkg_id (code (pmul x G)) (code (pmul k G))
  = Ok (sha256 (str_encode id ++ str_encode dkg_id
                ++ encode_public_key (pmul x G) ++ encode_public_key (pmul k G))).
Proof.
  intros Hx Hk. unfold pop_hash.
  rewrite !code_to_bytes by (apply pmul_G_not_identity; assumption). reflexivity.
Qed.

Lemma pop_message_nonneg id dkg_id x k : 0 <= pop_message id dkg_id x k.
Proof. apply int_from_bytes_bounds. Qed.

Lemma verify_pop_of id dkg_id x k :
  x mod N <> 0 -> k mod N <> 0 ->
  verify_pop id dkg_id (code (pmul x G)) (pop_of id dkg_id x k) = Ok true.
Proof.
  intros Hx Hk. unfold verify_pop, pop_of. cbn [pop_nonce pop_sig].
  rewrite pop_hash_codes by assumption. cbn [mbind result_bind].
  rewrite code_to_pub_code by (apply pmul_G_not_identity; assumption).
  cbn [mbind result_bind].
  apply schnorr_verify_sign, int_from_bytes_bounds.
Qed.

End Schnorr.

(** * Proofs: the key generation among honest participants *)

Lemma traverse_map_ok {A B} (f : A -> result B) (g : A -> B) (l : list A) :
  Forall (fun a => f a = Ok (g a)) l -> traverse f l = Ok (map g l).
Proof.
  induction 1 as [|a l Ha Hl IH]; [reflexivity|].
  cbn [traverse map]. rewrite Ha. cbn. rewrite IH. reflexivity.
Qed.

Lemma py_index_ok {A} (l : list A) (i : nat) (a : A) :
  l !! i = Some a -> py_index l i = Ok a.
Proof. intros E. unfold py_index. rewrite E. reflexivity. Qed.

(** A participant: its identifier and its random draws. *)
Abbreviation participant := (string * round1_random)%type.

Section HonestDkg.
Context {curve : Fastecdsa} {hashes : Hashes} {crypto : Cryptography} {json : Json}.
Variables (dkg_id : string) (T : Z) (c0 : option coefficient0) (key_type : string).

Definition poly_of (r : round1_random) : Polynomial :=
  match Polynomial_init T c0 (rnd_coefficients r) with
  | Ok f => f
  | Raise _ => mkPolynomial T []
  end.

Definition id_int (id : string) : Z :=
  match py_int id with
  | Ok z => z
  | Raise _ => 0
  end.

(** The draws of an honest participant: secrets, nonces and coefficients
    are not multiples of [N], and the polynomial has a constant term. *)
Definition good_random (r : round1_random) : Prop :=
  rnd_secret_key r mod N <> 0 /\ rnd_secret_nonce r mod N <> 0 /\
  rnd_coef0_nonce r mod N <> 0 /\
  exists f, Polynomial_init T c0 (rnd_coefficients r) = Ok f /\
            coefficients f <> [] /\ Forall (fun c => c mod N <> 0) (coefficients f).

Definition good_participant (p : participant) : Prop :=
  (exists z, py_int p.1 = Ok z) /\ good_random p.2.

Definition a0 (r : round1_random) : Z := hd 0 (coefficients (poly_of r)).
Definition sk (r : round1_random) : Z := rnd_secret_key r.
Definition pk (r : round1_random) : point := pmul (sk r) G.

Definition coef0_pop (p : participant) : pop_signature :=
  pop_of p.1 dkg_id (a0 p.2) (rnd_coef0_nonce p.2).

Definition bcast (p : participant) : round1_data :=
  mkRound1 p.1 (map code (coef_pub_keys (poly_of p.2))) (coef0_pop p)
    (code (pk p.2)) (pop_of p.1 dkg_id (sk p.2) (rnd_secret_nonce p.2)) key_type.

Definition state1 (partners : list string) (p : participant) : KeyGen :=
  mkKeyGen T dkg_id p.1 partners c0 [] key_type "ROUND1"
    (Some (sk p.2)) (Some (poly_of p.2)) (Some (coef_pub_keys (poly_of p.2)))
    (Some (coef0_pop p)) None None None.

Lemma good_random_poly r :
  good_random r ->
  Polynomial_init T c0 (rnd_coefficients r) = Ok (poly_of r) /\
  coefficients (poly_of r) <> [] /\
  Forall (fun c => c mod N <> 0) (coefficients (poly_of r)).
Proof.
  intros (_ & _ & _ & f & Hf & Hne & Hall). unfold poly_of. rewrite Hf. auto.
Qed.

Lemma good_random_a0 r : good_random r -> a0 r mod N <> 0.
Proof.
  intros Hr. destruct (good_random_poly r Hr) as (_ & Hne & Hall). unfold a0.
  destruct (coefficients (poly_of r)) as [|c cs]; [congruence|].
  inversion Hall; assumption.
Qed.

Lemma coef_pub_keys_head r :
  good_random r -> (coef_pub_keys (poly_of r)) !! 0%nat = Some (pmul (a0 r) G).
Proof.
  intros Hr. destruct (good_random_poly r Hr) as (_ & Hne & _). unfold a0, coef_pub_keys.
  destruct (coefficients (poly_of r)) as [|c cs]; [congruence|]. reflexivity.
Qed.

Lemma coef_pub_keys_codes r :
  good_random r ->
  traverse pub_to_code (coef_pub_keys (poly_of r))
  = Ok (map code (coef_pub_keys (poly_of r))).
Proof.
  intros Hr. destruct (good_random_poly r Hr) as (_ & _ & Hall).
  apply traverse_map_ok. unfold coef_pub_keys.
  apply Forall_forall. intros P HP. apply list_elem_of_In, List.in_map_iff in HP.
  destruct HP as (c & <- & Hc). apply pub_to_code_ok, pmul_G_not_identity.
  rewrite Forall_forall in Hall. apply Hall, list_elem_of_In, Hc.
Qed.

Lemma decode_public_codes (cs : list Z) :
  Forall (fun c => c mod N <> 0) cs ->
  traverse code_to_pub (map code (map get_public_key cs)) = Ok (map get_public_key cs).
Proof.
  induction 1 as [|c cs Hc Hcs IH]; [reflexivity|].
  cbn [map traverse]. change (get_public_key c) with (pmul c G).
  rewrite code_to_pub_code by (apply pmul_G_not_identity; exact Hc).
  cbn [mbind result_bind]. rewrite IH. reflexivity.
Qed.

Lemma coef_pub_keys_decode r :
  good_random r ->
  traverse code_to_pub (map code (coef_pub_keys (poly_of r)))
  = Ok (coef_pub_keys (poly_of r)).
Proof.
  intros Hr. destruct (good_random_poly r Hr) as (_ & _ & Hall).
  apply decode_public_codes, Hall.
Qed.

Lemma round1_honest partners (p : participant) :
  good_random p.2 ->
  round1 (KeyGen_init dkg_id T p.1 partners c0 key_type) p.2
  = Ok (state1 partners p, bcast p).
Proof.
  intros Hr. destruct Hr as (Hsk & Hsn & Hcn & Hpoly) eqn:E. clear E.
  pose proof (good_random_poly p.2 ltac:(repeat split; assumption)) as (Hf & Hne & Hall).
  pose proof (good_random_a0 p.2 ltac:(repeat split; assumption)) as Ha0.
  unfold round1, KeyGen_init.
  cbn [kg_threshold kg_dkg_id kg_node_id kg_partners kg_coefficient0 kg_malicious
       kg_key_type kg_round1_broadcasted_data kg_partners_public_keys kg_dkg_key_pair].
  unfold get_public_key.
  rewrite !pub_to_code_ok by (apply pmul_G_not_identity; assumption).
  cbn [mbind result_bind].
  rewrite pop_hash_codes by assumption. cbn [mbind result_bind].
  rewrite schnorr_sign_ok by apply int_from_bytes_bounds. cbn [mbind result_bind].
  rewrite Hf. cbn [mbind result_bind].
  unfold py_index. rewrite coef_pub_keys_head by (repeat split; assumption).
  cbn [mbind result_bind].
  rewrite !pub_to_code_ok by (apply pmul_G_not_identity; assumption).
  cbn [mbind result_bind].
  rewrite pop_hash_codes by assumption. cbn [mbind result_bind].
  assert (Hc0 : coefficients (poly_of p.2) !! 0%nat = Some (a0 p.2)).
  { unfold a0. destruct (coefficients (poly_of p.2)); [congruence | reflexivity]. }
  rewrite Hc0. cbn [mbind result_bind].
  rewrite schnorr_sign_ok by apply int_from_bytes_bounds. cbn [mbind result_bind].
  rewrite coef_pub_keys_codes by (repeat split; assumption). cbn [mbind result_bind].
  reflexivity.
Qed.


(** ** Round 2 *)

(** The dictionary of the public keys that [round2] collects. *)
Definition ppk_fold (self_id : string) (ps : list participant) (m : gmap string Z)
    : gmap string Z :=
  fold_left (fun m p => if bool_decide (p.1 = self_id) then m
                        else <[p.1 := code (pk p.2)]> m) ps m.

Lemma ppk_fold_cons self_id p ps m :
  ppk_fold self_id (p :: ps) m
  = ppk_fold self_id ps (if bool_decide (p.1 = self_id) then m
                         else <[p.1 := code (pk p.2)]> m).
Proof. reflexivity. Qed.

Lemma round2_verify_loop_honest self_id (ps : list participant) :
  forall m,
    Forall good_participant ps ->
    round2_verify_loop self_id dkg_id (map bcast ps) [] m = Ok ([], ppk_fold self_id ps m).
Proof.
  induction ps as [|p ps IH]; intros m Hps; [reflexivity|].
  inversion Hps as [|? ? [_ Hp] Hps']; subst.
  pose proof Hp as (Hsk & Hsn & Hcn & _).
  rewrite ppk_fold_cons. cbn [map round2_verify_loop].
  cbn [bcast r1_sender_id r1_public_fx r1_coefficient0_signature r1_public_key
       r1_secret_signature].
  destruct (bool_decide (p.1 = self_id)) eqn:Eself; [apply IH; assumption|].
  unfold py_index.
  assert (Hhead : map code (coef_pub_keys (poly_of p.2)) !! 0%nat
                  = Some (code (pmul (a0 p.2) G))).
  { change (map code (coef_pub_keys (poly_of p.2)))
      with (code <$> coef_pub_keys (poly_of p.2)).
    rewrite list_lookup_fmap, coef_pub_keys_head by exact Hp. reflexivity. }
  rewrite Hhead. cbn [mbind result_bind].
  unfold coef0_pop. rewrite verify_pop_of by (try apply good_random_a0; assumption).
  cbn [mbind result_bind].
  unfold pk, sk. rewrite verify_pop_of by assumption.
  cbn [mbind result_bind negb orb].
  apply IH. assumption.
Qed.

Lemma ppk_fold_notin self_id (ps : list participant) id :
  forall m, id ∉ map fst ps -> ppk_fold self_id ps m !! id = m !! id.
Proof.
  induction ps as [|p ps IH]; intros m Hid; [reflexivity|].
  cbn [map] in Hid. apply not_elem_of_cons in Hid. destruct Hid as [Hne Hid].
  rewrite ppk_fold_cons.
  rewrite IH by assumption.
  destruct (bool_decide (p.1 = self_id)); [reflexivity|].
  apply lookup_insert_ne. congruence.
Qed.

Lemma ppk_fold_lookup self_id (ps : list participant) (p : participant) :
  forall m,
    NoDup (map fst ps) -> p ∈ ps -> p.1 <> self_id ->
    ppk_fold self_id ps m !! p.1 = Some (code (pk p.2)).
Proof.
  induction ps as [|p' ps IH]; intros m Hnd Hin Hne; [inversion Hin|].
  cbn [map] in Hnd. apply NoDup_cons in Hnd. destruct Hnd as [Hnotin Hnd].
  rewrite ppk_fold_cons.
  apply elem_of_cons in Hin. destruct Hin as [->|Hin].
  - rewrite ppk_fold_notin by assumption.
    rewrite bool_decide_eq_false_2 by assumption. apply lookup_insert_eq.
  - apply IH; assumption.
Qed.

(** The key that two participants share, and the message of round 2. *)
Definition shared_key (a b : Z) : list byte :=
  match generate_hkdf_key (code (pmul (a * b) G)) with
  | Ok k => k
  | Raise _ => []
  end.

Lemma shared_key_ok a b :
  a mod N <> 0 -> b mod N <> 0 ->
  generate_hkdf_key (code (pmul (a * b) G)) = Ok (shared_key a b) /\
  length (shared_key a b) = 32%nat.
Proof.
  intros Ha Hb. unfold shared_key.
  destruct (generate_hkdf_key_code (pmul (a * b) G)) as (k & -> & Hk); [|auto].
  apply pmul_G_not_identity, mul_mod_nonzero; assumption.
Qed.

Definition share_for (sender receiver : participant) : Z :=
  evaluate (poly_of sender.2) (id_int receiver.1).

Definition message_to (sender receiver : participant) (iv : Z) : round2_data :=
  mkRound2 receiver.1 sender.1
    (encrypt (DataShare (mkPayload receiver.1 (share_for sender receiver)))
       (shared_key (sk sender.2) (sk receiver.2)) iv).

Fixpoint messages_from (sender : participant) (ivs : nat -> Z) (i : nat)
    (receivers : list participant) : list round2_data :=
  match receivers with
  | [] => []
  | r :: rest => message_to sender r (ivs i) :: messages_from sender ivs (S i) rest
  end.

Lemma id_int_ok (p : participant) : good_participant p -> py_int p.1 = Ok (id_int p.1).
Proof. intros [[z Hz] _]. unfold id_int. rewrite Hz. reflexivity. Qed.

Lemma round2_send_loop_honest (sender : participant) (ppk : gmap string Z) ivs
    (receivers : list participant) :
  forall i,
    good_participant sender ->
    Forall (fun r => good_participant r /\ ppk !! r.1 = Some (code (pk r.2))) receivers ->
    round2_send_loop sender.1 (sk sender.2) (poly_of sender.2) ppk ivs i (map fst receivers)
    = Ok (messages_from sender ivs i receivers).
Proof.
  induction receivers as [|r rest IH]; intros i Hs Hrs; [reflexivity|].
  inversion Hrs as [|? ? [Hr Hlook] Hrest]; subst.
  pose proof Hs as [_ (Hsk & _)]. pose proof Hr as [_ (Hrk & _)].
  cbn [map round2_send_loop messages_from]. unfold dict_get. rewrite Hlook.
  cbn [mbind result_bind]. unfold pk.
  rewrite code_to_pub_code by (apply pmul_G_not_identity; exact Hrk).
  cbn [mbind result_bind]. rewrite pmul_pmul.
  rewrite pub_to_code_ok by (apply pmul_G_not_identity, mul_mod_nonzero; assumption).
  cbn [mbind result_bind].
  destruct (shared_key_ok (sk sender.2) (sk r.2) Hsk Hrk) as [-> _].
  cbn [mbind result_bind]. rewrite id_int_ok by exact Hr. cbn [mbind result_bind].
  rewrite IH by assumption. reflexivity.
Qed.


(** The other participants, in the order of the party. *)
Definition others (p : participant) (ps : list participant) : list participant :=
  filter (fun p' => p'.1 <> p.1) ps.

Lemma list_remove_first_NoDup (x : string) (l : list string) :
  NoDup l -> x ∈ l -> list_remove_first x l = Some (filter (fun y => y <> x) l).
Proof.
  induction l as [|y l IH]; intros Hnd Hin; [inversion Hin|].
  apply NoDup_cons in Hnd. destruct Hnd as [Hnotin Hnd].
  cbn [list_remove_first]. rewrite filter_cons.
  destruct (decide (y = x)) as [->|Hne].
  - rewrite bool_decide_eq_true_2 by reflexivity.
    destruct (decide (x <> x)); [congruence|].
    rewrite filter_all; [reflexivity|].
    apply Forall_forall. intros z Hz ->. contradiction.
  - rewrite bool_decide_eq_false_2 by assumption.
    destruct (decide (y <> x)); [|contradiction].
    apply elem_of_cons in Hin. destruct Hin as [->|Hin]; [congruence|].
    rewrite IH by assumption. reflexivity.
Qed.

Lemma map_fst_others (p : participant) (ps : list participant) :
  map fst (others p ps) = filter (fun y => y <> p.1) (map fst ps).
Proof.
  unfold others. induction ps as [|p' ps IH]; [reflexivity|].
  cbn [map]. rewrite !filter_cons.
  destruct (decide (p'.1 <> p.1)); [cbn [map]; f_equal|]; exact IH.
Qed.

Lemma partners_of_others (p : participant) (ps : list participant) :
  NoDup (map fst ps) -> p ∈ ps ->
  partners_of p.1 (map fst ps) = map fst (others p ps).
Proof.
  intros Hnd Hin. unfold partners_of.
  rewrite list_remove_first_NoDup, map_fst_others; [reflexivity|assumption|].
  apply list_elem_of_In, List.in_map, list_elem_of_In, Hin.
Qed.

Definition state2 (ps : list participant) (p : participant) : KeyGen :=
  mkKeyGen T dkg_id p.1 (map fst (others p ps)) c0 [] key_type "ROUND2"
    (Some (sk p.2)) (Some (poly_of p.2)) (Some (coef_pub_keys (poly_of p.2)))
    (Some (coef0_pop p)) (Some (map bcast ps)) (Some (ppk_fold p.1 ps ∅)) None.

Lemma others_spec (p r : participant) (ps : list participant) :
  r ∈ others p ps <-> r ∈ ps /\ r.1 <> p.1.
Proof. unfold others. rewrite list_elem_of_filter. tauto. Qed.

Lemma round2_honest (ps : list participant) (p : participant) ivs :
  NoDup (map fst ps) -> Forall good_participant ps -> p ∈ ps ->
  round2 (state1 (map fst (others p ps)) p) (map bcast ps) ivs
  = Ok (state2 ps p, messages_from p ivs 0 (others p ps)).
Proof.
  intros Hnd Hps Hin. unfold round2, state1.
  cbn [kg_fx kg_secret_key kg_node_id kg_dkg_id kg_malicious kg_partners getattr
       mbind result_bind].
  rewrite round2_verify_loop_honest by assumption.
  cbn [mbind result_bind fst snd remove_malicious].
  rewrite Forall_forall in Hps.
  rewrite (round2_send_loop_honest p (ppk_fold p.1 ps ∅) ivs (others p ps) 0).
  - reflexivity.
  - apply Hps, Hin.
  - apply Forall_forall. intros r Hr. apply others_spec in Hr. destruct Hr as [Hr Hne].
    split; [apply Hps, Hr|]. apply ppk_fold_lookup; assumption.
Qed.


(** ** Round 3 *)

Lemma same_id_same_participant (ps : list participant) (p s : participant) :
  NoDup (map fst ps) -> p ∈ ps -> s ∈ ps -> p.1 = s.1 -> p = s.
Proof.
  intros Hnd Hp Hs E.
  apply list_elem_of_lookup in Hp. destruct Hp as [i Hi].
  apply list_elem_of_lookup in Hs. destruct Hs as [j Hj].
  assert (i = j).
  { apply (NoDup_lookup (map fst ps) i j p.1 Hnd).
    - change (map fst ps) with (fst <$> ps). rewrite list_lookup_fmap, Hi. reflexivity.
    - change (map fst ps) with (fst <$> ps). rewrite list_lookup_fmap, Hj. cbn. congruence. }
  subst j. congruence.
Qed.

Lemma round3_check_loop_honest (ps : list participant) (self : KeyGen)
    (p s : participant) secret partner_key (ps' : list participant) :
  forall complaints,
    NoDup (map fst ps) -> good_participant p -> good_participant s -> s ∈ ps ->
    kg_node_id self = p.1 ->
    Forall (fun p' => p' ∈ ps) ps' ->
    round3_check_loop self secret s.1 partner_key (share_for s p) (map bcast ps') complaints
    = Ok complaints.
Proof.
  intros complaints Hnd Hp Hs Hin Hself.
  induction 1 as [|p' ps' Hp' Hps' IH]; [reflexivity|].
  cbn [map round3_check_loop]. cbn [bcast r1_sender_id r1_public_fx].
  destruct (decide (p'.1 = s.1)) as [E|Hne].
  - rewrite bool_decide_eq_true_2 by exact E.
    assert (p' = s) by (eapply same_id_same_participant; eauto). subst p'.
    destruct Hs as [_ Hr].
    rewrite coef_pub_keys_decode by exact Hr. cbn [mbind result_bind].
    rewrite Hself, id_int_ok by exact Hp. cbn [mbind result_bind].
    destruct (good_random_poly s.2 Hr) as (_ & Hne & _).
    rewrite calc_poly_point_evaluate by exact Hne. cbn [mbind result_bind].
    unfold share_for. rewrite bool_decide_eq_false_2 by (intros Hx; apply Hx; reflexivity).
    apply IH.
  - rewrite bool_decide_eq_false_2 by exact Hne. apply IH.
Qed.

Lemma shared_key_comm a b : shared_key a b = shared_key b a.
Proof. unfold shared_key. rewrite Z.mul_comm. reflexivity. Qed.

Lemma decrypt_message (sender receiver : participant) iv :
  good_participant sender -> good_participant receiver ->
  decrypt (r2_data (message_to sender receiver iv)) (shared_key (sk receiver.2) (sk sender.2))
  = Ok (json_dumps_share (mkPayload receiver.1 (share_for sender receiver))).
Proof.
  intros [_ (Hs & _)] [_ (Hr & _)]. unfold message_to, decrypt, encrypt. cbn [r2_data].
  rewrite (shared_key_comm (sk receiver.2)).
  apply fernet_decrypt_encrypt, shared_key_ok; assumption.
Qed.

Lemma round3_message_loop_honest (ps : list participant) (p : participant)
    (sivs : list (participant * Z)) :
  forall datas complaints,
    NoDup (map fst ps) -> Forall good_participant ps -> p ∈ ps ->
    Forall (fun sv => sv.1 ∈ ps /\ sv.1.1 <> p.1) sivs ->
    round3_message_loop (state2 ps p) (sk p.2) (ppk_fold p.1 ps ∅)
      (map (fun sv => message_to sv.1 p sv.2) sivs) datas complaints
    = Ok (datas ++ map (fun sv => mkPayload p.1 (share_for sv.1 p)) sivs, complaints).
Proof.
  intros datas complaints Hnd Hps Hp Hsivs. revert datas.
  rewrite Forall_forall in Hps.
  induction Hsivs as [|[s iv] sivs [Hs Hne] Hrest IH]; intros datas.
  - cbn. rewrite app_nil_r. reflexivity.
  - cbn [fst snd] in Hs, Hne.
    pose proof (Hps s Hs) as Hgs. pose proof (Hps p Hp) as Hgp.
    pose proof Hgs as [_ (Hsk & _)]. pose proof Hgp as [_ (Hpk & _)].
    cbn [map round3_message_loop fst snd].
    cbn [message_to r2_sender_id r2_receiver_id].
    unfold dict_get. rewrite ppk_fold_lookup by assumption. cbn [mbind result_bind].
    unfold pk. rewrite code_to_pub_code by (apply pmul_G_not_identity; exact Hsk).
    cbn [mbind result_bind]. rewrite pmul_pmul.
    rewrite pub_to_code_ok by (apply pmul_G_not_identity, mul_mod_nonzero; assumption).
    cbn [mbind result_bind].
    destruct (shared_key_ok (sk p.2) (sk s.2) Hpk Hsk) as [-> _].
    cbn [mbind result_bind].
    change (kg_node_id (state2 ps p)) with p.1.
    rewrite bool_decide_eq_true_2 by reflexivity.
    change (encrypt (DataShare (mkPayload p.1 (share_for s p)))
              (shared_key (sk s.2) (sk p.2)) iv)
      with (r2_data (message_to s p iv)).
    rewrite decrypt_message by assumption. cbn [mbind result_bind].
    rewrite json_loads_dumps. cbn [mbind result_bind].
    change (kg_round1_broadcasted_data (state2 ps p)) with (Some (map bcast ps)).
    cbn [getattr mbind result_bind sp_f].
    rewrite (round3_check_loop_honest ps (state2 ps p) p s) by
      (try assumption; try reflexivity; apply Forall_forall; auto).
    cbn [mbind result_bind].
    rewrite IH. rewrite <- app_assoc. reflexivity.
Qed.


Lemma round3_public_loop_honest (partners : list string) (ps' : list participant) :
  forall acc,
    Forall good_participant ps' ->
    round3_public_loop partners (map bcast ps') acc
    = Ok (acc ++ map (fun s => pmul (a0 s.2) G)
                   (filter (fun s => s.1 ∈ partners) ps')).
Proof.
  induction ps' as [|s ps' IH]; intros acc Hps.
  - cbn. rewrite app_nil_r. reflexivity.
  - inversion Hps as [|? ? [_ Hs] Hps']; subst.
    cbn [map round3_public_loop]. cbn [bcast r1_sender_id r1_public_fx].
    rewrite filter_cons.
    destruct (decide (s.1 ∈ partners)) as [Hin|Hnotin].
    + rewrite bool_decide_eq_true_2 by exact Hin. unfold py_index.
      change (map code (coef_pub_keys (poly_of s.2)))
        with (code <$> coef_pub_keys (poly_of s.2)).
      rewrite list_lookup_fmap, coef_pub_keys_head by exact Hs.
      cbn [fmap option_fmap option_map mbind result_bind].
      rewrite code_to_pub_code by (apply pmul_G_not_identity, good_random_a0, Hs).
      cbn [mbind result_bind]. rewrite IH by assumption.
      cbn [map]. rewrite <- app_assoc. reflexivity.
    + rewrite bool_decide_eq_false_2 by exact Hnotin. apply IH. assumption.
Qed.

Lemma fold_padd_G (zs : list Z) : forall b,
  fold_left padd (map (fun a => pmul a G) zs) (pmul b G)
  = pmul (b + fold_right Z.add 0 zs) G.
Proof.
  induction zs as [|z zs IH]; intros b; cbn [map fold_left fold_right].
  - f_equal. lia.
  - rewrite <- pmul_add, IH. f_equal. lia.
Qed.

(** The secret of the group and the share of a participant. *)
Definition total_secret (ps : list participant) : Z :=
  fold_right Z.add 0 (map (fun s => a0 s.2) ps).

Definition share_of (ps : list participant) (p : participant) : Z :=
  py_sum (share_for p p :: map (fun s => share_for s p) (others p ps)).

Definition group_key (ps : list participant) : point := pmul (total_secret ps) G.

Lemma sum_split_participant (g : participant -> Z) (ps : list participant) (p : participant) :
  NoDup (map fst ps) -> p ∈ ps ->
  fold_right Z.add 0 (map g ps) = g p + fold_right Z.add 0 (map g (others p ps)).
Proof.
  unfold others. induction ps as [|s ps IH]; intros Hnd Hin; [inversion Hin|].
  cbn [map] in Hnd. apply NoDup_cons in Hnd. destruct Hnd as [Hnotin Hnd].
  rewrite filter_cons. apply elem_of_cons in Hin. destruct Hin as [->|Hin].
  - destruct (decide (s.1 <> s.1)); [congruence|].
    rewrite filter_all; [reflexivity|].
    apply Forall_forall. intros s' Hs' E. apply Hnotin. rewrite <- E.
    apply list_elem_of_In, List.in_map, list_elem_of_In, Hs'.
  - destruct (decide (s.1 <> p.1)) as [Hne|He].
    + cbn [map fold_right]. rewrite IH by assumption. lia.
    + exfalso. apply Hnotin. assert (s.1 = p.1) as -> by (destruct (decide (s.1 = p.1)); tauto).
      apply list_elem_of_In, List.in_map, list_elem_of_In, Hin.
Qed.

Lemma filter_ext_elem {A} (P Q : A -> Prop) `{forall x, Decision (P x)}
    `{forall x, Decision (Q x)} (l : list A) :
  (forall x, x ∈ l -> P x <-> Q x) -> filter P l = filter Q l.
Proof.
  induction l as [|x l IH]; intros Hext; [reflexivity|].
  rewrite !filter_cons.
  pose proof (Hext x ltac:(apply elem_of_cons; auto)) as Hx.
  rewrite IH by (intros y Hy; apply Hext, elem_of_cons; auto).
  destruct (decide (P x)), (decide (Q x)); tauto.
Qed.

Lemma filter_partners (p : participant) (ps : list participant) :
  filter (fun s => s.1 ∈ map fst (others p ps)) ps = others p ps.
Proof.
  unfold others at 2. apply filter_ext_elem. intros s Hs.
  rewrite map_fst_others, list_elem_of_filter. split; [tauto|].
  intros Hne. split; [assumption|].
  apply list_elem_of_In, List.in_map, list_elem_of_In, Hs.
Qed.

Definition state3 (ps : list participant) (p : participant) : KeyGen :=
  mkKeyGen T dkg_id p.1 (map fst (others p ps)) c0 [] key_type "COMPLETED"
    (Some (sk p.2)) (Some (poly_of p.2)) (Some (coef_pub_keys (poly_of p.2)))
    (Some (coef0_pop p)) (Some (map bcast ps)) (Some (ppk_fold p.1 ps ∅))
    (Some (mkKeyPair (share_of ps p) (code (group_key ps)))).

Definition result3 (ps : list participant) (p : participant) : round3_result :=
  Round3Successful (code (group_key ps)) (code (pmul (share_of ps p) G))
    (mkKeyPair (share_of ps p) (code (group_key ps))) key_type.

Lemma round3_honest (ps : list participant) (p : participant)
    (sivs : list (participant * Z)) :
  NoDup (map fst ps) -> Forall good_participant ps -> p ∈ ps ->
  map fst sivs = others p ps ->
  total_secret ps mod N <> 0 ->
  share_of ps p mod N <> 0 ->
  round3 (state2 ps p) (map (fun sv => message_to sv.1 p sv.2) sivs)
  = Ok (state3 ps p, result3 ps p).
Proof.
  intros Hnd Hps Hp Hsivs Htotal Hshare.
  pose proof Hps as Hall. rewrite Forall_forall in Hall.
  pose proof (Hall p Hp) as Hgp. pose proof Hgp as [_ Hr].
  unfold round3.
  change (kg_secret_key (state2 ps p)) with (Some (sk p.2)).
  change (kg_partners_public_keys (state2 ps p)) with (Some (ppk_fold p.1 ps ∅)).
  cbn [getattr mbind result_bind].
  rewrite round3_message_loop_honest; try assumption.
  2:{ apply Forall_forall. intros sv Hsv.
      assert (Hin : sv.1 ∈ others p ps).
      { rewrite <- Hsivs. apply list_elem_of_In, List.in_map, list_elem_of_In, Hsv. }
      apply others_spec in Hin. exact Hin. }
  cbn [mbind result_bind fst snd length Nat.ltb Nat.leb app].
  change (kg_fx (state2 ps p)) with (Some (poly_of p.2)).
  change (kg_node_id (state2 ps p)) with p.1.
  change (kg_public_fx (state2 ps p)) with (Some (coef_pub_keys (poly_of p.2))).
  change (kg_round1_broadcasted_data (state2 ps p)) with (Some (map bcast ps)).
  change (kg_partners (state2 ps p)) with (map fst (others p ps)).
  cbn [getattr mbind result_bind].
  rewrite id_int_ok by exact Hgp. cbn [mbind result_bind].
  rewrite (py_index_ok _ _ _ (coef_pub_keys_head p.2 Hr)). cbn [mbind result_bind].
  rewrite round3_public_loop_honest by assumption. cbn [mbind result_bind].
  rewrite filter_partners. cbn [app].
  rewrite (py_index_ok _ 0 (pmul (a0 p.2) G)) by reflexivity.
  cbn [mbind result_bind drop].
  assert (Hkey : fold_left padd (map (fun s : participant => pmul (a0 s.2) G) (others p ps))
                   (pmul (a0 p.2) G) = group_key ps).
  { rewrite <- (List.map_map (fun s : participant => a0 s.2) (fun a => pmul a G)).
    rewrite fold_padd_G. unfold group_key, total_secret. f_equal.
    symmetry. apply (sum_split_participant (fun s => a0 s.2)); assumption. }
  rewrite drop_0, Hkey.
  assert (Hsum : py_sum (evaluate (poly_of p.2) (id_int p.1)
                         :: map sp_f (map (fun sv : participant * Z =>
                                             mkPayload p.1 (share_for sv.1 p)) sivs))
                 = share_of ps p).
  { unfold share_of. f_equal. f_equal. rewrite <- Hsivs, !List.map_map. reflexivity. }
  rewrite Hsum.
  unfold group_key in *.
  rewrite (pub_to_code_ok (pmul (total_secret ps) G))
    by (apply pmul_G_not_identity; exact Htotal).
  cbn [mbind result_bind]. unfold get_public_key.
  rewrite pub_to_code_ok by (apply pmul_G_not_identity; exact Hshare).
  reflexivity.
Qed.


(** ** The run of the three rounds *)

Fixpoint parts (party : list string) (rnd : nat -> round1_random) (i : nat)
    : list participant :=
  match party with
  | [] => []
  | id :: rest => (id, rnd i) :: parts rest rnd (S i)
  end.

Lemma map_fst_parts party rnd i : map fst (parts party rnd i) = party.
Proof. revert i. induction party as [|id rest IH]; intros i; cbn; [|rewrite IH]; reflexivity. Qed.

Lemma run_round1_honest (P : string -> list string) rnd (party : list string) :
  forall i,
    Forall (fun p : participant => good_random p.2) (parts party rnd i) ->
    run_round1 (map (fun id => KeyGen_init dkg_id T id (P id) c0 key_type) party) rnd i
    = Ok (map (fun p : participant => state1 (P p.1) p) (parts party rnd i),
          map bcast (parts party rnd i)).
Proof.
  induction party as [|id rest IH]; intros i Hgood; [reflexivity|].
  cbn [parts] in *. inversion Hgood as [|? ? Hp Hrest]; subst.
  cbn [map run_round1].
  pose proof (round1_honest (P id) (id, rnd i) Hp) as H1. cbn [fst snd] in H1.
  rewrite H1. cbn [mbind result_bind]. rewrite IH by assumption. reflexivity.
Qed.

Section Run.
Variable ps : list participant.
Variable ivs : nat -> nat -> Z.
Hypothesis ps_nodup : NoDup (map fst ps).
Hypothesis ps_good : Forall good_participant ps.

Fixpoint sends (ss : list participant) (k : nat) : list (list round2_data) :=
  match ss with
  | [] => []
  | s :: rest => messages_from s (ivs k) 0 (others s ps) :: sends rest (S k)
  end.

Lemma run_round2_honest (ss : list participant) :
  forall k,
    Forall (fun s => s ∈ ps) ss ->
    run_round2 (map (fun p : participant => state1 (map fst (others p ps)) p) ss)
      (map bcast ps) ivs k
    = Ok (map (state2 ps) ss, sends ss k).
Proof.
  induction ss as [|s rest IH]; intros k Hss; [reflexivity|].
  inversion Hss as [|? ? Hs Hrest]; subst.
  cbn [map run_round2 sends].
  rewrite round2_honest by assumption.
  cbn [mbind result_bind]. rewrite IH by assumption. reflexivity.
Qed.

Lemma filter_messages_from (p s : participant) ivs' (rs : list participant) :
  forall i,
    exists rivs : list (participant * Z),
      filter (fun m => r2_receiver_id m = p.1) (messages_from s ivs' i rs)
      = map (fun rv => message_to s rv.1 rv.2) rivs /\
      map fst rivs = filter (fun r : participant => r.1 = p.1) rs.
Proof.
  induction rs as [|r rs IH]; intros i; [exists []; split; reflexivity|].
  destruct (IH (S i)) as (rivs & Hf & Hm).
  cbn [messages_from]. rewrite !filter_cons.
  change (r2_receiver_id (message_to s r (ivs' i))) with r.1.
  destruct (decide (r.1 = p.1)).
  - exists ((r, ivs' i) :: rivs). cbn [map fst snd]. rewrite Hf, Hm. split; reflexivity.
  - exists rivs. split; assumption.
Qed.

Lemma filter_same_id (p s : participant) :
  p ∈ ps ->
  filter (fun r : participant => r.1 = p.1) (others s ps)
  = if decide (s.1 = p.1) then [] else [p].
Proof.
  intros Hp. unfold others. rewrite list_filter_filter.
  assert (Hps : forall l, NoDup (map fst l) -> (forall x, x ∈ l -> x ∈ ps) ->
            filter (fun x : participant => x.1 = p.1 /\ x.1 <> s.1) l
            = if decide (p.1 ∈ map fst l)
              then (if decide (s.1 = p.1) then [] else [p]) else []).
  { induction l as [|x l IHl]; intros Hnd Hsub.
    - destruct (decide (p.1 ∈ map fst [])) as [Hin|]; [inversion Hin | reflexivity].
    - cbn [map] in Hnd. apply NoDup_cons in Hnd. destruct Hnd as [Hnotin Hnd].
      rewrite filter_cons, IHl by (try assumption; intros y Hy; apply Hsub, elem_of_cons; auto).
      cbn [map].
      destruct (decide (x.1 = p.1)) as [E|Hne].
      + assert (x = p).
        { apply (same_id_same_participant ps); try assumption.
          apply Hsub, elem_of_cons; auto. }
        subst x.
        destruct (decide (p.1 ∈ map fst l)); [contradiction|].
        destruct (decide (p.1 ∈ p.1 :: map fst l)) as [|Hn];
          [|exfalso; apply Hn, elem_of_cons; auto].
        destruct (decide (s.1 = p.1)) as [Es|Hs].
        * destruct (decide (p.1 = p.1 /\ p.1 <> s.1)) as [[_ Hc]|]; [congruence|reflexivity].
        * destruct (decide (p.1 = p.1 /\ p.1 <> s.1)) as [|Hc]; [reflexivity|].
          exfalso. apply Hc. split; congruence.
      + destruct (decide (x.1 = p.1 /\ x.1 <> s.1)) as [[Hc _]|]; [contradiction|].
        destruct (decide (p.1 ∈ map fst l)) as [Hin|Hnin].
        * destruct (decide (p.1 ∈ x.1 :: map fst l)) as [|Hn]; [reflexivity|].
          exfalso. apply Hn, elem_of_cons; auto.
        * destruct (decide (p.1 ∈ x.1 :: map fst l)) as [Hin'|]; [|reflexivity].
          apply elem_of_cons in Hin'. destruct Hin' as [Hc|]; [congruence|contradiction]. }
  rewrite Hps by auto.
  destruct (decide (p.1 ∈ map fst ps)) as [|Hn]; [reflexivity|].
  exfalso. apply Hn, list_elem_of_In, List.in_map, list_elem_of_In, Hp.
Qed.

Lemma inbox_honest (p : participant) (ss : list participant) :
  forall k,
    p ∈ ps ->
    exists sivs : list (participant * Z),
      filter (fun m => r2_receiver_id m = p.1) (concat (sends ss k))
      = map (fun sv => message_to sv.1 p sv.2) sivs /\
      map fst sivs = others p ss.
Proof.
  induction ss as [|s rest IH]; intros k Hp; [exists []; split; reflexivity|].
  destruct (IH (S k) Hp) as (sivs & Hf & Hm).
  cbn [sends concat]. rewrite filter_app, Hf.
  destruct (filter_messages_from p s (ivs k) (others s ps) 0) as (rivs & Hr & Hrm).
  rewrite Hr. rewrite filter_same_id in Hrm by assumption.
  assert (Hcons : others p (s :: rest)
                  = if decide (s.1 <> p.1) then s :: others p rest else others p rest)
    by (unfold others; rewrite filter_cons; reflexivity).
  rewrite Hcons.
  destruct (decide (s.1 = p.1)) as [E|Hne].
  - destruct rivs; [|discriminate]. destruct (decide (s.1 <> p.1)); [contradiction|].
    exists sivs. split; [reflexivity | assumption].
  - destruct rivs as [|[r iv] [|? ?]]; try discriminate.
    cbn [map fst] in Hrm. injection Hrm as ->.
    destruct (decide (s.1 <> p.1)); [|contradiction].
    exists ((s, iv) :: sivs). cbn [map fst snd app]. rewrite Hm. split; reflexivity.
Qed.

Hypothesis total_nonzero : total_secret ps mod N <> 0.
Hypothesis shares_nonzero : Forall (fun p => share_of ps p mod N <> 0) ps.

Lemma run_round3_honest (ss : list participant) :
  Forall (fun s => s ∈ ps) ss ->
  run_round3 (map (state2 ps) ss) (sends ps 0)
  = Ok (map (fun p => (state3 ps p, result3 ps p)) ss).
Proof.
  induction ss as [|s rest IH]; intros Hss; [reflexivity|].
  inversion Hss as [|? ? Hs Hrest]; subst.
  cbn [map run_round3]. unfold inbox.
  change (kg_node_id (state2 ps s)) with s.1.
  destruct (inbox_honest s ps 0 Hs) as (sivs & Hf & Hm).
  rewrite Hf, (round3_honest ps s sivs); try assumption.
  - cbn [mbind result_bind]. rewrite IH by assumption. reflexivity.
  - rewrite Forall_forall in shares_nonzero. apply shares_nonzero, Hs.
Qed.

End Run.

(** The whole run: with identifiers that are distinct decimal numerals,
    honest draws and non-degenerate sums, every participant completes with
    its share and the common group key. *)
Lemma run_dkg_honest (party : list string) rnd ivs :
  let ps := parts party rnd 0 in
  NoDup party -> Forall good_participant ps ->
  total_secret ps mod N <> 0 ->
  Forall (fun p => share_of ps p mod N <> 0) ps ->
  run_dkg dkg_id T party c0 key_type rnd ivs
  = Ok (map (fun p => (state3 ps p, result3 ps p)) ps).
Proof.
  intros ps Hnd Hgood Htot Hsh.
  assert (Hfst : map fst ps = party) by apply map_fst_parts.
  assert (Hnd' : NoDup (map fst ps)) by (rewrite Hfst; exact Hnd).
  unfold run_dkg, make_keys.
  rewrite (run_round1_honest (fun id => partners_of id party) rnd party 0)
    by (eapply Forall_impl; [exact Hgood | intros p Hp; apply Hp]).
  cbn [mbind result_bind fst snd]. fold ps.
  assert (Hst : map (fun p : participant => state1 (partners_of p.1 party) p) ps
                = map (fun p : participant => state1 (map fst (others p ps)) p) ps).
  { apply map_ext_in. intros p Hp. rewrite <- Hfst.
    rewrite partners_of_others; [reflexivity | assumption | apply list_elem_of_In, Hp]. }
  rewrite Hst.
  assert (Hall : Forall (fun s => s ∈ ps) ps) by (apply Forall_forall; auto).
  rewrite (run_round2_honest ps ivs Hnd' Hgood ps 0 Hall).
  cbn [mbind result_bind fst snd].
  apply run_round3_honest; assumption.
Qed.


End HonestDkg.

(** * Proofs: signing *)



Section Compressed.
Context {curve : Fastecdsa} {hashes : Hashes} {crypto : Cryptography} {json : Json}.

(** The compressed form of a point: [x] with the prefix [0x] and the parity. *)
Definition compressed (P : point) : compressed_pub :=
  match pub_compress P with
  | Ok cp => cp
  | Raise _ => mkCompressed EmptyString 0
  end.

Lemma pub_compress_roundtrip P :
  P <> IDENTITY ->
  pub_compress P = Ok (compressed P) /\ pub_decompress (compressed P) = Ok P.
Proof.
  intros HP. unfold compressed.
  destruct (encode_shape P HP) as (b & rest & E & Hl & Hb).
  assert (Hhex : bytes_hex (b :: rest)
                 = String "0" (String (digit_char (byte_val b)) (bytes_hex rest))).
  { unfold bytes_hex. cbn [flat_map app text]. destruct Hb as [-> | ->]; reflexivity. }
  assert (Hcp : pub_compress P
                = Ok (mkCompressed (String "0" (String "x" (bytes_hex rest)))
                        (byte_val b - 2))).
  { unfold pub_compress. rewrite E, Hhex. cbn [list_ascii_of_string].
    change (py_index (_ :: ?c :: _) 1) with (Ok (A:=ascii) c). cbn [mbind result_bind].
    unfold str_drop. cbn [list_ascii_of_string drop].
    rewrite drop_0, text_chars.
    destruct Hb as [-> | ->]; reflexivity. }
  rewrite Hcp. split; [reflexivity|].
  unfold pub_decompress. cbn [cp_x cp_y_parity].
  replace (byte_val b - 2 + 2) with (byte_val b) by lia.
  unfold str_drop. cbn [list_ascii_of_string drop]. rewrite drop_0, text_chars.
  assert (Hdigits : py_str_checked (byte_val b) = Ok (py_str (byte_val b)))
    by (destruct Hb as [-> | ->]; reflexivity).
  rewrite Hdigits. cbn [mbind result_bind].
  assert (Hcoded : ("0" ++ py_str (byte_val b) ++ bytes_hex rest)%string
                   = bytes_hex (b :: rest)).
  { rewrite Hhex. destruct Hb as [-> | ->]; reflexivity. }
  rewrite Hcoded, bytes_fromhex_bytes_hex. cbn [mbind result_bind].
  rewrite <- E. apply decode_encode, HP.
Qed.

End Compressed.

Section HonestSign.
Context {curve : Fastecdsa} {hashes : Hashes} {crypto : Cryptography} {json : Json}
        {profiles : Profiles}.

Definition commitment (s : signer) : nonce_commitment :=
  mkCommitment (signer_id s) (code (pmul (signer_nonce_d s) G))
    (code (pmul (signer_nonce_e s) G)).

(** A signer with an identifier of at most 32 bytes and nonces that are
    not multiples of [N]. *)
Definition good_signer (s : signer) : Prop :=
  0 <= signer_id s < 2 ^ 256 /\
  signer_nonce_d s mod N <> 0 /\ signer_nonce_e s mod N <> 0.



Section Rows.
Variables message_bytes nonces_hash : list byte.

(** The integer of the row of the identifier [id]. *)
Definition rho (id : Z) : Z :=
  int_from_bytes (sha256 (to_bytes_acc 32 id [] ++ message_bytes ++ nonces_hash)).

Lemma row_hash_ok id :
  0 <= id < 2 ^ 256 ->
  row_hash id message_bytes nonces_hash
  = Ok (sha256 (to_bytes_acc 32 id [] ++ message_bytes ++ nonces_hash)).
Proof.
  intros Hid. unfold row_hash, int_to_bytes.
  destruct (Z.ltb_spec id 0); [lia|].
  change (256 ^ Z.of_nat 32) with (2 ^ 256).
  destruct (Z.leb_spec (2 ^ 256) id); [lia|]. reflexivity.
Qed.

(** The scalar of the public nonce of a signer, [d + rho * e]. *)
Definition nonce_scalar (s : signer) : Z :=
  signer_nonce_d s + rho (signer_id s) * signer_nonce_e s.

Definition nonce_total (ss : list signer) : Z :=
  fold_right Z.add 0 (map nonce_scalar ss).

Lemma public_nonce_scalar s :
  padd (pmul (signer_nonce_d s) G) (pmul (rho (signer_id s)) (pmul (signer_nonce_e s) G))
  = pmul (nonce_scalar s) G.
Proof. unfold nonce_scalar. rewrite pmul_pmul, pmul_add. reflexivity. Qed.

(** The aggregated nonce after the signers [ss], from [aggregated]. *)
Definition aggregated_after (ss : list signer) (aggregated : option point) : option point :=
  fold_left add_nonce (map (fun s => pmul (nonce_scalar s) G) ss) aggregated.

Lemma aggregated_after_some ss : forall a,
  aggregated_after ss (Some (pmul a G)) = Some (pmul (a + nonce_total ss) G).
Proof.
  unfold aggregated_after, nonce_total.
  induction ss as [|s ss IH]; intros a; cbn [map fold_left fold_right add_nonce].
  - rewrite Z.add_0_r. reflexivity.
  - rewrite <- pmul_add, IH. do 2 f_equal. lia.
Qed.

Lemma aggregated_after_none ss :
  ss <> [] -> aggregated_after ss None = Some (pmul (nonce_total ss) G).
Proof.
  destruct ss as [|s ss]; [congruence|]. intros _.
  unfold aggregated_after. cbn [map fold_left add_nonce].
  fold (aggregated_after ss (Some (pmul (nonce_scalar s) G))).
  rewrite aggregated_after_some. reflexivity.
Qed.

(** The row and the index that the loop of [single_sign] keeps for [id]. *)
Fixpoint locate (id : Z) (ss : list signer) (idx : nat)
    (found : option (list byte) * nat) : option (list byte) * nat :=
  match ss with
  | [] => found
  | s :: rest =>
      locate id rest (S idx)
        (if bool_decide (id = signer_id s)
         then (Some (sha256 (to_bytes_acc 32 (signer_id s) [] ++ message_bytes ++ nonces_hash)),
               idx)
         else found)
  end.

Lemma locate_absent id ss : forall idx found,
  id ∉ map signer_id ss -> locate id ss idx found = found.
Proof.
  induction ss as [|s ss IH]; intros idx found Hid; [reflexivity|].
  cbn [map] in Hid. apply not_elem_of_cons in Hid. destruct Hid as [Hne Hid].
  cbn [locate]. rewrite bool_decide_eq_false_2 by exact Hne. apply IH, Hid.
Qed.

Lemma locate_present ss : forall i s idx found,
  NoDup (map signer_id ss) -> ss !! i = Some s ->
  locate (signer_id s) ss idx found
  = (Some (sha256 (to_bytes_acc 32 (signer_id s) [] ++ message_bytes ++ nonces_hash)),
     (idx + i)%nat).
Proof.
  induction ss as [|s' ss IH]; intros i s idx found Hnd Hi; [discriminate|].
  cbn [map] in Hnd. apply NoDup_cons in Hnd. destruct Hnd as [Hnotin Hnd].
  cbn [locate]. destruct i as [|i].
  - injection Hi as ->. rewrite bool_decide_eq_true_2 by reflexivity.
    rewrite locate_absent by exact Hnotin. rewrite Nat.add_0_r. reflexivity.
  - cbn in Hi. rewrite bool_decide_eq_false_2.
    + rewrite (IH i s (S idx) found Hnd Hi). f_equal. lia.
    + intros E. apply Hnotin. rewrite <- E.
      apply list_elem_of_In, List.in_map, list_elem_of_In.
      eapply list_elem_of_lookup_2, Hi.
Qed.

Lemma single_sign_loop_ok id ss : forall idx aggregated my_row index,
  Forall good_signer ss ->
  single_sign_loop id message_bytes nonces_hash (map commitment ss) idx
    aggregated my_row index
  = Ok (aggregated_after ss aggregated, (locate id ss idx (my_row, index)).1,
        (locate id ss idx (my_row, index)).2).
Proof.
  induction ss as [|s ss IH]; intros idx aggregated my_row index Hss; [reflexivity|].
  inversion Hss as [|? ? Hs Hrest]; subst. destruct Hs as (Hid & Hd & He).
  cbn [map single_sign_loop commitment public_nonce_d public_nonce_e nc_id].
  rewrite !code_to_pub_code by (apply pmul_G_not_identity; assumption).
  cbn [mbind result_bind].
  rewrite !on_curve by (apply pmul_G_not_identity; assumption).
  rewrite row_hash_ok by exact Hid. cbn [mbind result_bind].
  fold (rho (signer_id s)). rewrite public_nonce_scalar.
  unfold aggregated_after. cbn [map fold_left locate].
  fold (aggregated_after ss (add_nonce aggregated (pmul (nonce_scalar s) G))).
  destruct (bool_decide (id = signer_id s)); rewrite IH by assumption; reflexivity.
Qed.

Lemma aggregate_nonce_loop_ok ss : forall aggregated,
  Forall good_signer ss ->
  aggregate_nonce_loop message_bytes nonces_hash (map commitment ss) aggregated
  = Ok (aggregated_after ss aggregated).
Proof.
  induction ss as [|s ss IH]; intros aggregated Hss; [reflexivity|].
  inversion Hss as [|? ? Hs Hrest]; subst. destruct Hs as (Hid & Hd & He).
  cbn [map aggregate_nonce_loop commitment public_nonce_d public_nonce_e nc_id].
  rewrite !code_to_pub_code by (apply pmul_G_not_identity; assumption).
  cbn [mbind result_bind].
  rewrite row_hash_ok by exact Hid. cbn [mbind result_bind].
  fold (rho (signer_id s)). rewrite public_nonce_scalar.
  rewrite IH by assumption. reflexivity.
Qed.

End Rows.


Section Subset.
Variable message : string.
Variable ss : list signer.

(** [nonces_dict], [message_bytes] and [nonces_hash] of the subset. *)
Definition commitments : list (string * nonce_commitment) :=
  map (fun s => (signer_node_id s, commitment s)) ss.

Definition subset_hash : list byte :=
  sha256 (str_encode (json_dumps_nonces (map commitment ss))).

Definition subset_total : Z := nonce_total (str_encode message) subset_hash ss.

(** The aggregated public nonce and the challenge of the subset. *)
Definition subset_nonce : point := pmul subset_total G.

Definition subset_challenge : Z := challenge_of subset_nonce (message_int message).

(** The Lagrange coefficient at 0 of the signer at the position [j], as
    [langrange_coef] returns it. *)
Definition subset_coef (j : nat) : Z :=
  inv_of (map signer_id ss) j * lnum (map signer_id ss) j 0.

Definition subset_share (s : signer) (j : nat) : Z :=
  (rho (str_encode message) subset_hash (signer_id s) * signer_nonce_e s
   + signer_nonce_d s - subset_coef j * subset_challenge * signer_share s) mod N.

Lemma map_snd_commitments : map snd commitments = map commitment ss.
Proof. unfold commitments. rewrite map_map. reflexivity. Qed.


Lemma distinct_mod_NoDup (ids : list Z) : distinct_mod N ids -> NoDup ids.
Proof. apply NoDup_fmap_1. Qed.

Lemma eth_challenge_ok cp R :
  eth_challenge cp message R = Ok (challenge_of R (message_int message)).
Proof.
  unfold eth_challenge.
  destruct (schnorr_hash_challenge R (message_int message) (message_int_nonneg message))
    as (h & -> & <-).
  reflexivity.
Qed.

(** [single_sign] in the ETH profile, for a subset of any size. *)
Lemma single_sign_eth (j : nat) (s : signer) (Y : point) :
  Forall good_signer ss -> distinct_mod N (map signer_id ss) ->
  ss !! j = Some s ->
  subset_total mod N <> 0 -> signer_share s mod N <> 0 -> Y <> IDENTITY ->
  single_sign (signer_id s) (signer_share s) (signer_nonce_d s) (signer_nonce_e s)
    message commitments (code Y) "ETH"
  = Ok (mkSigShare (signer_id s) (subset_share s j) (code (pmul (signer_share s) G))
          (code subset_nonce) "ETH").
Proof.
  intros Hss Hd Hj Htot Hshare HY.
  assert (Hne : ss <> []) by (intros ->; discriminate).
  unfold single_sign. rewrite map_snd_commitments.
  fold subset_hash. rewrite single_sign_loop_ok by exact Hss.
  cbn [mbind result_bind fst snd].
  rewrite (locate_present _ _ ss j s 0 _ (distinct_mod_NoDup _ Hd) Hj).
  change (0 + j)%nat with j.
  rewrite aggregated_after_none by exact Hne.
  fold subset_total. fold subset_nonce. cbn [fst snd].
  rewrite code_to_pub_code by exact HY. cbn [mbind result_bind].
  destruct (pub_compress_roundtrip Y HY) as [-> _]. cbn [mbind result_bind].
  rewrite bool_decide_eq_true_2 by reflexivity.
  cbn [the_point mbind result_bind].
  rewrite eth_challenge_ok. cbn [mbind result_bind].
  fold subset_challenge. unfold lagrange_coef.
  assert (Hids : map nc_id (map commitment ss) = map signer_id ss)
    by (rewrite map_map; reflexivity).
  rewrite Hids.
  pose proof (lookup_lt_Some _ _ _ Hj) as Hlt.
  rewrite langrange_coef_unfold by (rewrite ?length_map; auto).
  destruct (mod_inverse_lnum (map signer_id ss) j Hd) as [Hinv _];
    [rewrite length_map; exact Hlt|].
  rewrite Hinv. cbn [mbind result_bind eth_generate_signature_share fst snd].
  unfold get_public_key, subset_nonce.
  rewrite !pub_to_code_ok by (apply pmul_G_not_identity; assumption).
  cbn [mbind result_bind]. unfold subset_share, subset_coef. reflexivity.
Qed.









End Subset.

End HonestSign.

Lemma horner_at_0 (cs : list Z) : horner cs 0 = hd 0 cs.
Proof. destruct cs; cbn [horner hd]; lia. Qed.

Lemma Polynomial_init_length (T : Z) (c0 : option coefficient0) (gen : nat -> Z)
    (f : Polynomial) :
  1 <= T -> Polynomial_init T c0 gen = Ok f -> length (coefficients f) = Z.to_nat T.
Proof.
  intros HT. unfold Polynomial_init.
  assert (Hone : forall c : Z,
            length ([c] ++ map gen (seq 0 (Z.to_nat (T - Z.of_nat (length [c])))))
            = Z.to_nat T).
  { intros c. rewrite length_app, length_map, length_seq. cbn [length]. lia. }
  destruct c0 as [[s|c]|]; cbn [mbind result_bind].
  - destruct (py_int_base 16 s) as [c|e]; cbn [mbind result_bind]; [|discriminate].
    intros [= <-]. apply Hone.
  - intros [= <-]. apply Hone.
  - intros [= <-]. cbn [coefficients app]. rewrite length_map, length_seq.
    cbn [length]. lia.
Qed.

Section SignAfterDkg.
Context {curve : Fastecdsa} {hashes : Hashes} {crypto : Cryptography} {json : Json}
        {profiles : Profiles}.
Variables (T : Z) (c0 : option coefficient0).

(** The sum of the polynomials of the participants. *)
Definition sum_poly (ps : list participant) : list Z :=
  fold_right (fun p acc => poly_add (coefficients (poly_of T c0 p.2)) acc) [] ps.

Lemma horner_sum_poly ps x :
  horner (sum_poly ps) x
  = fold_right Z.add 0 (map (fun s : participant => evaluate (poly_of T c0 s.2) x) ps).
Proof.
  induction ps as [|p ps IH]; [reflexivity|].
  cbn [sum_poly fold_right map]. fold (sum_poly ps).
  rewrite horner_poly_add, IH, evaluate_poly_sum, poly_sum_horner. reflexivity.
Qed.

Lemma length_sum_poly ps n :
  Forall (fun p : participant => (length (coefficients (poly_of T c0 p.2)) <= n)%nat) ps ->
  (length (sum_poly ps) <= n)%nat.
Proof.
  induction 1 as [|p ps Hp Hps IH]; cbn [sum_poly fold_right length]; [lia|].
  fold (sum_poly ps). rewrite length_poly_add. lia.
Qed.

Lemma sum_poly_at_0 ps : horner (sum_poly ps) 0 = total_secret T c0 ps.
Proof.
  rewrite horner_sum_poly. unfold total_secret. f_equal. apply map_ext. intros s.
  unfold a0. rewrite evaluate_poly_sum, poly_sum_horner. apply horner_at_0.
Qed.

Lemma share_of_sum_poly ps (p : participant) :
  NoDup (map fst ps) -> p ∈ ps ->
  share_of T c0 ps p = horner (sum_poly ps) (id_int p.1).
Proof.
  intros Hnd Hp. unfold share_of. rewrite py_sum_fold. cbn [fold_right].
  rewrite horner_sum_poly.
  rewrite (sum_split_participant (fun s => evaluate (poly_of T c0 s.2) (id_int p.1)) ps p)
    by assumption.
  reflexivity.
Qed.

(** The signers of a subset: each participant with its share of the key
    generation and a nonce pair [(d, e)]. *)
Definition signers (ps : list participant) (sub : list (participant * (Z * Z)))
    : list signer :=
  map (fun pn => mkSigner pn.1.1 (id_int pn.1.1) (share_of T c0 ps pn.1) pn.2.1 pn.2.2) sub.



End SignAfterDkg.

(** * Proofs: the rounds and the state of the session *)

(** The name of the exception that a computation raises, if it raises. *)
Definition error_of {A} (r : result A) : option string :=
  match r with
  | Ok _ => None
  | Raise e => Some e
  end.

Lemma error_of_raise {A} (r : result A) (e : string) : error_of r = Some e -> r = Raise e.
Proof. destruct r as [a|e']; cbn; congruence. Qed.

Lemma is_ok_true {A} (r : result A) : is_ok r = true -> exists a, r = Ok a.
Proof. destruct r as [a|e]; cbn; [eauto | discriminate]. Qed.

Section SessionState.
Context {curve : Fastecdsa} {hashes : Hashes} {crypto : Cryptography} {json : Json}.

(** The session [self] with the attribute [status] set to [st]. *)
Definition with_status (st : string) (self : KeyGen) : KeyGen :=
  mkKeyGen (kg_threshold self) (kg_dkg_id self) (kg_node_id self) (kg_partners self)
    (kg_coefficient0 self) (kg_malicious self) (kg_key_type self) st
    (kg_secret_key self) (kg_fx self) (kg_public_fx self) (kg_coef0_signature self)
    (kg_round1_broadcasted_data self) (kg_partners_public_keys self)
    (kg_dkg_key_pair self).

Lemma round3_check_loop_status st self secret_key sender_id partner_public f datas :
  forall complaints,
    round3_check_loop (with_status st self) secret_key sender_id partner_public f
      datas complaints
    = round3_check_loop self secret_key sender_id partner_public f datas complaints.
Proof.
  induction datas as [|d rest IH]; intros complaints; [reflexivity|].
  cbn [round3_check_loop with_status kg_node_id].
  destruct (bool_decide (r1_sender_id d = sender_id)); [|apply IH].
  destruct (traverse code_to_pub (r1_public_fx d)) as [points|e];
    cbn [mbind result_bind]; [|reflexivity].
  destruct (py_int (kg_node_id self)) as [i|e]; cbn [mbind result_bind]; [|reflexivity].
  destruct (calc_poly_point points i) as [P|e]; cbn [mbind result_bind]; [|reflexivity].
  destruct (bool_decide (P <> pmul f G)); [reflexivity | apply IH].
Qed.

Lemma round3_message_loop_status st self secret_key keys messages :
  forall round2_datas complaints,
    round3_message_loop (with_status st self) secret_key keys messages
      round2_datas complaints
    = round3_message_loop self secret_key keys messages round2_datas complaints.
Proof.
  induction messages as [|m rest IH]; intros round2_datas complaints; [reflexivity|].
  cbn [round3_message_loop with_status kg_node_id kg_round1_broadcasted_data].
  destruct (dict_get keys (r2_sender_id m)) as [k|e]; cbn [mbind result_bind];
    [|reflexivity].
  destruct (code_to_pub k) as [P|e]; cbn [mbind result_bind]; [|reflexivity].
  destruct (pub_to_code (pmul secret_key P)) as [c|e]; cbn [mbind result_bind];
    [|reflexivity].
  destruct (generate_hkdf_key c) as [key|e]; cbn [mbind result_bind]; [|reflexivity].
  destruct (bool_decide (r2_receiver_id m = kg_node_id self)); [|reflexivity].
  destruct (decrypt (r2_data m) key) as [plain|e]; cbn [mbind result_bind];
    [|reflexivity].
  destruct (json_loads_share plain) as [data|e]; cbn [mbind result_bind]; [|reflexivity].
  destruct (getattr (kg_round1_broadcasted_data self)) as [b|e];
    cbn [mbind result_bind]; [|reflexivity].
  rewrite round3_check_loop_status.
  destruct (round3_check_loop self secret_key (r2_sender_id m) k (sp_f data) b complaints)
    as [cs|e]; cbn [mbind result_bind]; [apply IH | reflexivity].
Qed.

Lemma round3_status_blind st self messages :
  round3 (with_status st self) messages = round3 self messages.
Proof.
  unfold round3.
  cbn [with_status kg_secret_key kg_partners_public_keys].
  destruct (getattr (kg_secret_key self)) as [sk|e]; cbn [mbind result_bind];
    [|reflexivity].
  destruct (getattr (kg_partners_public_keys self)) as [keys|e];
    cbn [mbind result_bind]; [|reflexivity].
  rewrite round3_message_loop_status. reflexivity.
Qed.

Lemma round2_status_blind st self data ivs :
  round2 (with_status st self) data ivs = round2 self data ivs.
Proof. reflexivity. Qed.

Lemma round1_status_blind st self rnd :
  round1 (with_status st self) rnd = round1 self rnd.
Proof. reflexivity. Qed.

(** A complaint is never added: [self.complain] raises. *)
Lemma round3_check_loop_complaints self secret_key sender_id partner_public f datas :
  forall complaints complaints',
    round3_check_loop self secret_key sender_id partner_public f datas complaints
    = Ok complaints' -> complaints' = complaints.
Proof.
  induction datas as [|d rest IH]; intros complaints complaints'.
  - cbn. congruence.
  - cbn [round3_check_loop].
    destruct (bool_decide (r1_sender_id d = sender_id)); [|apply IH].
    destruct (traverse code_to_pub (r1_public_fx d)) as [points|e];
      cbn [mbind result_bind]; [|discriminate].
    destruct (py_int (kg_node_id self)) as [i|e]; cbn [mbind result_bind]; [|discriminate].
    destruct (calc_poly_point points i) as [P|e]; cbn [mbind result_bind]; [|discriminate].
    destruct (bool_decide (P <> pmul f G)); [discriminate | apply IH].
Qed.

Lemma round3_message_loop_complaints self secret_key keys messages :
  forall round2_datas complaints received,
    round3_message_loop self secret_key keys messages round2_datas complaints
    = Ok received -> received.2 = complaints.
Proof.
  induction messages as [|m rest IH]; intros round2_datas complaints received.
  - cbn. intros [= <-]. reflexivity.
  - cbn [round3_message_loop].
    destruct (dict_get keys (r2_sender_id m)) as [k|e]; cbn [mbind result_bind];
      [|discriminate].
    destruct (code_to_pub k) as [P|e]; cbn [mbind result_bind]; [|discriminate].
    destruct (pub_to_code (pmul secret_key P)) as [c|e]; cbn [mbind result_bind];
      [|discriminate].
    destruct (generate_hkdf_key c) as [key|e]; cbn [mbind result_bind]; [|discriminate].
    destruct (bool_decide (r2_receiver_id m = kg_node_id self)); [|discriminate].
    destruct (decrypt (r2_data m) key) as [plain|e]; cbn [mbind result_bind];
      [|discriminate].
    destruct (json_loads_share plain) as [data|e]; cbn [mbind result_bind];
      [|discriminate].
    destruct (getattr (kg_round1_broadcasted_data self)) as [b|e];
      cbn [mbind result_bind]; [|discriminate].
    destruct (round3_check_loop self secret_key (r2_sender_id m) k (sp_f data) b complaints)
      as [cs|e] eqn:E; cbn [mbind result_bind]; [|discriminate].
    apply round3_check_loop_complaints in E. subst cs. apply IH.
Qed.

(** The failing check: [self.complain] is looked up and the lookup raises. *)
Lemma round3_check_loop_failing self secret_key sender_id partner_public f d rest
    complaints points i P :
  r1_sender_id d = sender_id ->
  traverse code_to_pub (r1_public_fx d) = Ok points ->
  py_int (kg_node_id self) = Ok i ->
  calc_poly_point points i = Ok P ->
  P <> pmul f G ->
  round3_check_loop self secret_key sender_id partner_public f (d :: rest) complaints
  = Raise "AttributeError".
Proof.
  intros Hs Hpoints Hi HP Hne. cbn [round3_check_loop].
  rewrite bool_decide_eq_true_2 by exact Hs.
  rewrite Hpoints. cbn [mbind result_bind]. rewrite Hi. cbn [mbind result_bind].
  rewrite HP. cbn [mbind result_bind].
  rewrite bool_decide_eq_true_2 by exact Hne. reflexivity.
Qed.

End SessionState.

(** * The properties of the specification *)

Section Properties.
Context {curve : Fastecdsa} {hashes : Hashes} {crypto : Cryptography} {json : Json}
        {profiles : Profiles}.

(** C4: for a polynomial [f] with at least one coefficient and every
    integer [x], [calc_poly_point] on the public coefficients of [f] returns
    the point [f.evaluate(x) * G]; the Feldman check [v * G == point]
    therefore accepts a value [v] exactly when [v] is the evaluation of [f]
    at [x] modulo [N]. *)
Theorem feldman_commitments_evaluate (f : Polynomial) (x : Z) :
  coefficients f <> [] ->
  calc_poly_point (coef_pub_keys f) x = Ok (pmul (evaluate f x) G) /\
  forall v : Z,
    calc_poly_point (coef_pub_keys f) x = Ok (pmul v G) <-> v mod N = evaluate f x mod N.
Proof.
  intros Hne. split.
  - apply calc_poly_point_evaluate, Hne.
  - intros v. apply feldman_check_iff, Hne.
Qed.

(** C5: for shares whose keys are the values modulo [N] of a polynomial
    [f] with at most as many coefficients as there are shares, at
    identifiers that are distinct modulo [N], [reconstruct_share] returns
    [f(x) mod N] at every [x]; at [x = 0] it returns the constant term of
    [f] modulo [N]. *)
Theorem reconstruct_share_interpolates (f : Polynomial) (shares : list share) (x : Z) :
  (length (coefficients f) <= length shares)%nat ->
  distinct_mod N (map share_id shares) ->
  Forall (fun s => share_key s mod N = evaluate f (share_id s) mod N) shares ->
  reconstruct_share shares (length shares) x = Ok (evaluate f x mod N) /\
  reconstruct_share shares (length shares) 0 = Ok (hd 0 (coefficients f) mod N).
Proof.
  intros Hlen Hd Hkeys. split.
  - apply reconstruct_share_ok; assumption.
  - rewrite (reconstruct_share_ok f) by assumption.
    rewrite evaluate_poly_sum, poly_sum_horner, horner_at_0. reflexivity.
Qed.

(** C6, as the code has it: for a prime modulus [n], [mod_inverse a n]
    returns the unique [b] in [[1, n)] with [a * b = 1 (mod n)] when [a] is
    not a multiple of [n]; when [a] is a multiple of [n] it does not fail
    but returns 1. *)
Theorem mod_inverse_prime_modulus (a n : Z) :
  Z.prime n ->
  (a mod n <> 0 ->
   exists b, mod_inverse a n = Ok b /\ 1 <= b < n /\ (a * b) mod n = 1 /\
             forall b', 1 <= b' < n -> (a * b') mod n = 1 -> b' = b) /\
  (a mod n = 0 -> mod_inverse a n = Ok 1).
Proof.
  intros Hp. assert (Hn : 1 < n) by (destruct Hp; assumption).
  split.
  - intros Ha.
    destruct (mod_inverse_coprime a n Hn) as (b & Hb & Hr & Hone).
    + rewrite Z.gcd_comm. apply Z.coprime_prime_l; [exact Hp|].
      intros Hdiv. apply Ha. apply Z.mod_divide; [lia | exact Hdiv].
    + exists b. repeat split; try assumption; try lia.
      intros b' Hb' Hone'. apply (inverse_unique a n); try assumption; lia.
  - intros Ha. apply mod_inverse_of_zero; assumption.
Qed.

(** C10: for a non-negative [key], [generate_hkdf_key] raises [ValueError]
    exactly when the decimal representation of [key] has an odd number of
    digits or more digits than the limit of [str] on integers, and returns
    a key of 32 bytes otherwise. *)
Theorem generate_hkdf_key_decimal_digits (key : Z) :
  0 <= key ->
  (generate_hkdf_key key = Raise "ValueError"
   <-> Nat.Odd (decimal_digits key)
       \/ int_max_str_digits < Z.of_nat (decimal_digits key)) /\
  (Nat.Even (decimal_digits key) ->
   Z.of_nat (decimal_digits key) <= int_max_str_digits ->
   exists k, generate_hkdf_key key = Ok k /\ length k = 32%nat).
Proof.
  intros Hkey. destruct (generate_hkdf_key_partial key Hkey) as [Habove Hbelow].
  split; [split|].
  - intros Hraise.
    destruct (Z.lt_ge_cases int_max_str_digits (Z.of_nat (decimal_digits key)))
      as [Hlimit|Hlimit]; [right; exact Hlimit|].
    destruct (Nat.Even_or_Odd (decimal_digits key)) as [He|Ho]; [|left; exact Ho].
    destruct (proj2 (Hbelow Hlimit) He) as (k & Hk & _). congruence.
  - intros [Ho|Hlimit]; [|exact (Habove Hlimit)].
    destruct (Z.lt_ge_cases int_max_str_digits (Z.of_nat (decimal_digits key)))
      as [Hlimit|Hlimit]; [exact (Habove Hlimit)|].
    exact (proj1 (Hbelow Hlimit) Ho).
  - intros He Hlimit. exact (proj2 (Hbelow Hlimit) He).
Qed.

End Properties.

Section ProtocolProperties.
Context {curve : Fastecdsa} {hashes : Hashes} {crypto : Cryptography} {json : Json}
        {profiles : Profiles}.
Variables (dkg_id : string) (T : Z) (c0 : option coefficient0).

(** C2: when the participants, with distinct decimal identifiers, run the
    three rounds honestly (each on the full set of the broadcasts and of the
    shares addressed to it), every [round3] returns the successful result,
    in the state COMPLETED and without malicious partner, and all of them
    return the same [dkg_public_key].  The draws are those of honest
    participants: no secret, nonce or coefficient is a multiple of [N], nor
    is the sum of the constant terms or a share. *)
Theorem dkg_honest_run_completes (key_type : string) (party : list string)
    (rnd : nat -> round1_random) (ivs : nat -> nat -> Z) :
  let ps := parts party rnd 0 in
  NoDup party -> Forall (good_participant T c0) ps ->
  total_secret T c0 ps mod N <> 0 ->
  Forall (fun p => share_of T c0 ps p mod N <> 0) ps ->
  exists results,
    run_dkg dkg_id T party c0 key_type rnd ivs = Ok results /\
    length results = length party /\
    Forall (fun done : KeyGen * round3_result =>
              kg_status done.1 = "COMPLETED"%string /\ kg_malicious done.1 = [] /\
              exists public_share key_pair,
                done.2 = Round3Successful (code (group_key T c0 ps)) public_share
                           key_pair key_type) results.
Proof.
  intros ps Hnd Hgood Htot Hsh.
  exists (map (fun p => (state3 dkg_id T c0 key_type ps p, result3 T c0 key_type ps p)) ps).
  split; [apply run_dkg_honest; assumption|]. split.
  - rewrite length_map. unfold ps. rewrite <- (map_fst_parts party rnd 0) at 2.
    rewrite length_map. reflexivity.
  - apply Forall_map, Forall_forall. intros p _. cbn [fst snd].
    repeat split; try reflexivity. unfold result3. eauto.
Qed.



End ProtocolProperties.

Section SessionProperties.
Context {curve : Fastecdsa} {hashes : Hashes} {crypto : Cryptography} {json : Json}
        {profiles : Profiles}.

(** C7, as the code has it: no round checks the state of the session.
    [round2] on a fresh session and [round3] before [round1] or before
    [round2] raise [AttributeError], on the attribute that the missing round
    would have set; and the result of every round is the same whatever the
    attribute [status] holds, a terminal state included. *)
Theorem rounds_do_not_check_state (dkg_id : string) (T : Z) (node_id : string)
    (partners : list string) (c0 : option coefficient0) (key_type : string)
    (rnd : round1_random) (data : list round1_data) (ivs : nat -> Z)
    (messages : list round2_data) (self : KeyGen) (st : string) :
  let fresh := KeyGen_init dkg_id T node_id partners c0 key_type in
  round2 fresh data ivs = Raise "AttributeError" /\
  round3 fresh messages = Raise "AttributeError" /\
  (forall after1 sent, round1 fresh rnd = Ok (after1, sent) ->
                       round3 after1 messages = Raise "AttributeError") /\
  round1 (with_status st self) rnd = round1 self rnd /\
  round2 (with_status st self) data ivs = round2 self data ivs /\
  round3 (with_status st self) messages = round3 self messages.
Proof.
  intros fresh. split; [reflexivity|]. split; [reflexivity|]. split.
  - intros after1 sent. unfold round1.
    repeat match goal with
           | |- context [mbind _ ?r] =>
               lazymatch r with
               | Ok _ => fail
               | Raise _ => fail
               | _ => destruct r; cbn [mbind result_bind]; [|discriminate]
               end
           end.
    intros [= <- _]. reflexivity.
  - split; [apply round1_status_blind|].
    split; [apply round2_status_blind | apply round3_status_blind].
Qed.

(** C9, as the code has it: [round3] never returns the dictionary with
    the status COMPLAINT; the complaint is built by [self.complain], an
    attribute that the class does not have. *)
Theorem round3_never_returns_complaint (self after3 : KeyGen)
    (messages : list round2_data) (complaints : list complaint) :
  round3 self messages <> Ok (after3, Round3Complaint complaints).
Proof.
  unfold round3.
  destruct (getattr (kg_secret_key self)) as [sk|e]; cbn [mbind result_bind];
    [|discriminate].
  destruct (getattr (kg_partners_public_keys self)) as [keys|e];
    cbn [mbind result_bind]; [|discriminate].
  destruct (round3_message_loop self sk keys messages [] []) as [received|e] eqn:E;
    cbn [mbind result_bind]; [|discriminate].
  apply round3_message_loop_complaints in E. rewrite E. cbn [length Nat.ltb Nat.leb].
  repeat match goal with
         | |- context [mbind _ ?r] =>
             lazymatch r with
             | Ok _ => fail
             | Raise _ => fail
             | _ => destruct r; cbn [mbind result_bind]; [|discriminate]
             end
         end.
  discriminate.
Qed.

(** C8, as the code has it: neither [Key.sign] nor [single_sign] compares
    the number of commitments with a threshold, which they do not receive;
    for a subset of any size, a signer of the subset gets a signature share
    (ETH profile). *)
Theorem single_sign_any_subset_size (message : string) (ss : list signer) (j : nat)
    (s : signer) (Y : point) :
  Forall good_signer ss -> distinct_mod N (map signer_id ss) ->
  ss !! j = Some s ->
  subset_total message ss mod N <> 0 -> signer_share s mod N <> 0 -> Y <> IDENTITY ->
  py_int (signer_node_id s) = Ok (signer_id s) ->
  single_sign (signer_id s) (signer_share s) (signer_nonce_d s) (signer_nonce_e s)
    message (commitments ss) (code Y) "ETH"
  = Ok (mkSigShare (signer_id s) (subset_share message ss s j)
          (code (pmul (signer_share s) G)) (code (subset_nonce message ss)) "ETH") /\
  Key_sign (mkKey (signer_share s) Y (signer_node_id s) "ETH") (commitments ss) message
    (mkNoncePair (signer_nonce_d s) (signer_nonce_e s))
  = Ok (mkSigShare (signer_id s) (subset_share message ss s j)
          (code (pmul (signer_share s) G)) (code (subset_nonce message ss)) "ETH").
Proof.
  intros Hss Hd Hj Htot Hshare HY Hid.
  pose proof (single_sign_eth message ss j s Y Hss Hd Hj Htot Hshare HY) as Hsign.
  split; [exact Hsign|].
  unfold Key_sign. cbn [key_node_id key_dkg_public_key key_share key_key_type
                        nonce_d nonce_e].
  rewrite Hid. cbn [mbind result_bind].
  rewrite pub_to_code_ok by exact HY. cbn [mbind result_bind]. exact Hsign.
Qed.

End SessionProperties.

(** * Runs on the toy instance *)

Section Runs.
Import Toy.

Lemma toy_party_NoDup : NoDup toy_party.
Proof. apply (bool_decide_unpack _). vm_compute. exact I. Qed.

Lemma toy_party_good :
  Forall (good_participant 2 None) (parts toy_party toy_rnd 0).
Proof.
  repeat constructor; try (vm_compute; discriminate);
    try (eexists; vm_compute; reflexivity).
  all: eexists; split; [reflexivity|]; split; [discriminate|];
    repeat constructor; vm_compute; discriminate.
Qed.

Lemma toy_total_nonzero : total_secret 2 None (parts toy_party toy_rnd 0) mod N <> 0.
Proof. vm_compute. discriminate. Qed.

Lemma toy_shares_nonzero :
  Forall (fun p => share_of 2 None (parts toy_party toy_rnd 0) p mod N <> 0)
    (parts toy_party toy_rnd 0).
Proof. repeat constructor; vm_compute; discriminate. Qed.

Lemma dkg_honest_run_completes_witness :
  exists results,
    run_dkg "7" 2 toy_party None "ETH" toy_rnd toy_ivs = Ok results /\
    length results = length toy_party /\
    Forall (fun done : KeyGen * round3_result =>
              kg_status done.1 = "COMPLETED"%string /\ kg_malicious done.1 = [] /\
              exists public_share key_pair,
                done.2 = Round3Successful
                           (code (group_key 2 None (parts toy_party toy_rnd 0)))
                           public_share key_pair "ETH") results.
Proof.
  apply (dkg_honest_run_completes "7" 2 None "ETH" toy_party toy_rnd toy_ivs).
  - exact toy_party_NoDup.
  - exact toy_party_good.
  - exact toy_total_nonzero.
  - exact toy_shares_nonzero.
Defined.



Lemma feldman_commitments_evaluate_witness :
  coefficients (mkPolynomial 2 [3; 4]) <> [] /\
  calc_poly_point (coef_pub_keys (mkPolynomial 2 [3; 4])) 2
  = Ok (pmul (evaluate (mkPolynomial 2 [3; 4]) 2) G) /\
  forall v : Z,
    calc_poly_point (coef_pub_keys (mkPolynomial 2 [3; 4])) 2 = Ok (pmul v G)
    <-> v mod N = evaluate (mkPolynomial 2 [3; 4]) 2 mod N.
Proof.
  split; [discriminate|].
  apply (feldman_commitments_evaluate (mkPolynomial 2 [3; 4]) 2). discriminate.
Defined.

Lemma reconstruct_share_interpolates_witness :
  reconstruct_share [mkShare 1 0; mkShare 2 4] 2 5
  = Ok (evaluate (mkPolynomial 2 [3; 4]) 5 mod N) /\
  reconstruct_share [mkShare 1 0; mkShare 2 4] 2 0 = Ok (3 mod N).
Proof.
  apply (reconstruct_share_interpolates (mkPolynomial 2 [3; 4])
           [mkShare 1 0; mkShare 2 4] 5).
  - simpl. lia.
  - apply (bool_decide_unpack _). vm_compute. exact I.
  - repeat constructor.
Defined.

Lemma mod_inverse_prime_modulus_witness :
  Z.prime 7 /\ 3 mod 7 <> 0 /\
  exists b, mod_inverse 3 7 = Ok b /\ 1 <= b < 7 /\ (3 * b) mod 7 = 1 /\
            forall b', 1 <= b' < 7 -> (3 * b') mod 7 = 1 -> b' = b.
Proof.
  split; [exact toy_prime|]. split; [vm_compute; discriminate|].
  apply (proj1 (mod_inverse_prime_modulus 3 7 toy_prime)). vm_compute. discriminate.
Defined.

(** A multiple of the order of secp256k1 has no inverse, and [mod_inverse]
    returns 1 for it. *)
Lemma mod_inverse_of_multiple_returns :
  mod_inverse 0 secp256k1_q = Ok 1 /\ mod_inverse secp256k1_q secp256k1_q = Ok 1 /\
  (0 * 1) mod secp256k1_q = 0.
Proof. repeat split; vm_compute; reflexivity. Qed.

Lemma generate_hkdf_key_decimal_digits_witness :
  (exists k, generate_hkdf_key 12 = Ok k /\ length k = 32%nat) /\
  generate_hkdf_key 123 = Raise "ValueError".
Proof.
  split.
  - apply (proj2 (generate_hkdf_key_decimal_digits 12 ltac:(lia))).
    + exists 1%nat. reflexivity.
    + vm_compute. discriminate.
  - apply (proj1 (generate_hkdf_key_decimal_digits 123 ltac:(lia))).
    left. exists 1%nat. reflexivity.
Defined.

(** The integer [10 ^ 4301] has 4302 decimal digits, an even number, and
    [generate_hkdf_key] raises [ValueError] on it: [str] does not convert
    an integer of more than 4300 digits. *)
Lemma generate_hkdf_key_above_digit_limit :
  0 <= 10 ^ 4301 /\ decimal_digits (10 ^ 4301) = 4302%nat /\
  Nat.Even (decimal_digits (10 ^ 4301)) /\
  generate_hkdf_key (10 ^ 4301) = Raise "ValueError".
Proof.
  assert (Hpos : 0 <= 10 ^ 4301) by (apply Z.pow_nonneg; lia).
  assert (Hd : decimal_digits (10 ^ 4301) = 4302%nat).
  { unfold decimal_digits.
    apply (to_digits_length 10 ltac:(lia) (10 ^ 4301) 4301%nat).
    change (Z.of_nat 4301) with 4301. change (Z.of_nat 4302) with 4302.
    split; [apply Z.le_refl|]. apply Z.pow_lt_mono_r; lia. }
  split; [exact Hpos|]. split; [exact Hd|]. split.
  - rewrite Hd. exists 2151%nat. reflexivity.
  - apply (proj1 (generate_hkdf_key_partial (10 ^ 4301) Hpos)).
    rewrite Hd. vm_compute. reflexivity.
Qed.

(** The first two participants of the toy run, with nonce pairs. *)
Definition toy_subset : list (participant * (Z * Z)) :=
  [(("1"%string, toy_rnd 0), (2, 3)); (("2"%string, toy_rnd 1), (4, 5))].


(** The signers of [toy_subset] hold the shares 15 and 24; when the first
    one signs the same message with the share 16, the group signature does
    not verify. *)
Lemma toy_wrong_share_rejected :
  signers 2 None (parts toy_party toy_rnd 0) toy_subset
  = [mkSigner "1" 1 15 2 3; mkSigner "2" 2 24 4 5] /\
  run_sign [mkSigner "1" 1 16 2 3; mkSigner "2" 2 24 4 5] "a"
    (code (group_key 2 None (parts toy_party toy_rnd 0))) "ETH" = Ok (Some false).
Proof. split; vm_compute; reflexivity. Qed.

(** The third participant of the toy run signs alone, below the threshold 2. *)
Definition toy_single : list signer :=
  signers 2 None (parts toy_party toy_rnd 0) [(("3"%string, toy_rnd 2), (6, 1))].

Lemma single_sign_any_subset_size_witness :
  single_sign 3 33 6 1 "Hello Frost" (commitments toy_single)
    (code (group_key 2 None (parts toy_party toy_rnd 0))) "ETH"
  = Ok (mkSigShare 3 (subset_share "Hello Frost" toy_single (mkSigner "3" 3 33 6 1) 0)
          (code (pmul 33 G)) (code (subset_nonce "Hello Frost" toy_single)) "ETH") /\
  Key_sign (mkKey 33 (group_key 2 None (parts toy_party toy_rnd 0)) "3" "ETH")
    (commitments toy_single) "Hello Frost" (mkNoncePair 6 1)
  = Ok (mkSigShare 3 (subset_share "Hello Frost" toy_single (mkSigner "3" 3 33 6 1) 0)
          (code (pmul 33 G)) (code (subset_nonce "Hello Frost" toy_single)) "ETH").
Proof.
  apply (single_sign_any_subset_size "Hello Frost" toy_single 0 (mkSigner "3" 3 33 6 1)
           (group_key 2 None (parts toy_party toy_rnd 0))).
  - repeat constructor; vm_compute; discriminate.
  - apply (bool_decide_unpack _). vm_compute. exact I.
  - reflexivity.
  - vm_compute. discriminate.
  - vm_compute. discriminate.
  - apply pmul_G_not_identity. vm_compute. discriminate.
  - reflexivity.
Defined.

(** After the key generation with the threshold 2 among three
    participants, [single_sign] and [Key.sign] of the third one on the
    commitments of a subset of size 1 return a signature share. *)
Lemma single_sign_below_threshold :
  length (commitments toy_single) = 1%nat /\
  (exists results,
     run_dkg "7" 2 toy_party None "ETH" toy_rnd toy_ivs = Ok results /\
     map (fun done : KeyGen * round3_result => kg_threshold done.1) results = [2; 2; 2]) /\
  single_sign 3 33 6 1 "Hello Frost" (commitments toy_single)
    (code (group_key 2 None (parts toy_party toy_rnd 0))) "ETH"
  = Ok (mkSigShare 3 4
          231584178474632390847141970017375815706539969331281128078915168015826259279877
          231584178474632390847141970017375815706539969331281128078915168015826259279877
          "ETH") /\
  is_ok (Key_sign (mkKey 33 (group_key 2 None (parts toy_party toy_rnd 0)) "3" "ETH")
           (commitments toy_single) "Hello Frost" (mkNoncePair 6 1)) = true.
Proof.
  split; [reflexivity|]. split.
  - eexists. split; [apply run_dkg_honest|].
    + exact toy_party_NoDup.
    + exact toy_party_good.
    + exact toy_total_nonzero.
    + exact toy_shares_nonzero.
    + reflexivity.
  - split; vm_compute; reflexivity.
Qed.

Lemma rounds_do_not_check_state_witness :
  exists after1 sent,
    round1 (KeyGen_init "7" 2 "1" ["2"; "3"]%string None "ETH") (toy_rnd 0)
    = Ok (after1, sent) /\
    round3 after1 [] = Raise "AttributeError".
Proof.
  destruct (is_ok_true
              (round1 (KeyGen_init "7" 2 "1" ["2"; "3"]%string None "ETH") (toy_rnd 0)))
    as [[after1 sent] E]; [vm_compute; reflexivity|].
  exists after1, sent. split; [exact E|].
  exact (proj1 (proj2 (proj2
           (rounds_do_not_check_state "7" 2 "1" ["2"; "3"]%string None "ETH" (toy_rnd 0)
              [] (toy_ivs 0) [] after1 "COMPLETED"))) after1 sent E).
Defined.

(** On a fresh session [round2] and [round3] raise [AttributeError], and
    on the sessions that completed the key generation [round1] and [round3]
    return again. *)
Lemma rounds_out_of_order_outcomes :
  round2 (KeyGen_init "7" 2 "1" ["2"; "3"]%string None "ETH") [] (toy_ivs 0)
  = Raise "AttributeError" /\
  round3 (KeyGen_init "7" 2 "1" ["2"; "3"]%string None "ETH") [] = Raise "AttributeError" /\
  match run_dkg "7" 2 toy_party None "ETH" toy_rnd toy_ivs with
  | Ok results =>
      map (fun done : KeyGen * round3_result =>
             (kg_status done.1, is_ok (round1 done.1 (toy_rnd 0)),
              is_ok (round3 done.1 []))) results
      = [("COMPLETED"%string, true, true); ("COMPLETED"%string, true, true);
         ("COMPLETED"%string, true, true)]
  | Raise _ => False
  end.
Proof.
  split; [reflexivity|]. split; [reflexivity|]. vm_compute. reflexivity.
Qed.

(** The first participant of the toy run receives from "2" a share that is
    one more than the share sent: [round3] raises. With the messages as
    they were sent it completes. *)
Lemma round3_tampered_share_raises :
  toy_round3 toy_tamper = Raise "AttributeError" /\
  match toy_round3 id with
  | Ok done => kg_status done.1 = "COMPLETED"%string
  | Raise _ => False
  end.
Proof.
  split; [apply error_of_raise|]; vm_compute; reflexivity.
Qed.

End Runs.

(** * Further properties of crypto_utils *)

Section CryptoUtilsProperties.
Context {curve : Fastecdsa} {hashes : Hashes} {crypto : Cryptography} {json : Json}.

(** X1: for every point other than the point at infinity, [pub_to_code]
    returns an integer of 33 bytes whose first byte is 02 or 03, and
    [code_to_pub] maps it back to the point. *)
Theorem code_to_pub_inverts_pub_to_code (P : point) :
  P <> IDENTITY ->
  exists c, pub_to_code P = Ok c /\ 2 * 256 ^ 32 <= c < 4 * 256 ^ 32 /\
            code_to_pub c = Ok P.
Proof.
  intros HP. exists (code P). split; [apply pub_to_code_ok, HP|].
  split; [apply code_range, HP | apply code_to_pub_code, HP].
Qed.

(** X2: for every point other than the point at infinity, [pub_compress]
    returns a dictionary with the parity 0 or 1, and [pub_decompress] maps
    it back to the point. *)
Theorem pub_decompress_inverts_pub_compress (P : point) :
  P <> IDENTITY ->
  exists cp, pub_compress P = Ok cp /\
             (cp_y_parity cp = 0 \/ cp_y_parity cp = 1) /\
             str_take 2 (cp_x cp) = "0x"%string /\
             pub_decompress cp = Ok P.
Proof.
  intros HP. destruct (pub_compress_roundtrip P HP) as [Hc Hd].
  exists (compressed P). split; [exact Hc|]. split; [|split; [|exact Hd]].
  - destruct (encode_shape P HP) as (b & rest & E & Hl & Hb).
    revert Hc. unfold pub_compress. rewrite E.
    assert (Hhex : bytes_hex (b :: rest)
                   = String "0" (String (digit_char (byte_val b)) (bytes_hex rest))).
    { unfold bytes_hex. cbn [flat_map app text]. destruct Hb as [-> | ->]; reflexivity. }
    rewrite Hhex. cbn [list_ascii_of_string].
    change (py_index (_ :: ?c :: _) 1) with (Ok (A:=ascii) c). cbn [mbind result_bind].
    destruct Hb as [Hb | Hb]; rewrite Hb; cbn; intros [= <-]; cbn; auto.
  - revert Hc. unfold pub_compress.
    destruct (py_index (chars (bytes_hex (encode_public_key P))) 1) as [c|e];
      cbn [mbind result_bind]; [|discriminate].
    destruct (py_int (text [c])) as [y|e]; cbn [mbind result_bind]; [|discriminate].
    intros [= <-]. reflexivity.
Qed.

(** X3: for [s] and [e] in [[0, 2^256)], [stringify_signature] returns a
    string of 130 characters, and [split_signature] maps it back to the
    signature. *)
Theorem split_signature_inverts_stringify (sg : signature) :
  0 <= sig_s sg < 2 ^ 256 -> 0 <= sig_e sg < 2 ^ 256 ->
  length (chars (stringify_signature sg)) = 130%nat /\
  split_signature (stringify_signature sg) = Ok sg.
Proof.
  intros Hs He. change (2 ^ 256) with (16 ^ 64) in *.
  split; [|apply split_stringify; assumption].
  unfold stringify_signature. rewrite !chars_app, !length_app.
  rewrite !chars_zfill, !length_map, !padded_digits_length by lia. reflexivity.
Qed.

(** X4: for every private key [x], nonce [k] and non-negative message,
    [schnorr_sign] with the public nonce [k * G] returns a signature whose
    [s] is reduced modulo [N], and [schnorr_verify] accepts its string under
    the public key [x * G]. *)
Theorem schnorr_sign_then_verify (x k m : Z) :
  0 <= m ->
  exists sg, schnorr_sign x k (pmul k G) m = Ok sg /\
             0 <= sig_s sg < N /\ 0 <= sig_e sg < 2 ^ 256 /\
             schnorr_verify (pmul x G) m (stringify_signature sg) = Ok true.
Proof.
  intros Hm. exists (signature_of x k m).
  split; [apply schnorr_sign_ok, Hm|]. split; [|split].
  - unfold signature_of. cbn [sig_s]. apply Z.mod_pos_bound. pose proof N_gt_1. lia.
  - unfold signature_of. cbn [sig_e]. apply challenge_of_range, Hm.
  - apply schnorr_verify_sign, Hm.
Qed.

(** The strings whose bytes are all below 128: each byte is a character,
    so that [len] and the slices of Python count the bytes. *)
Definition ascii_string (s : string) : Prop :=
  Forall (fun c => (nat_of_ascii c < 128)%nat) (chars s).

Lemma digit_char_ascii (d : Z) : 0 <= d < 16 -> (nat_of_ascii (digit_char d) < 128)%nat.
Proof.
  intros Hd. apply (small_cases d (fun d => (nat_of_ascii (digit_char d) < 128)%nat));
    [exact Hd|..]; vm_compute; lia.
Qed.

Lemma stringify_signature_ascii (sg : signature) :
  0 <= sig_s sg -> 0 <= sig_e sg -> ascii_string (stringify_signature sg).
Proof.
  intros Hs He. unfold ascii_string, stringify_signature.
  rewrite !chars_app, !chars_zfill by assumption.
  repeat (apply Forall_app; split).
  - repeat constructor; vm_compute; lia.
  - apply Forall_map. eapply Forall_impl; [apply padded_digits_in_base; exact He|].
    intros d Hd. apply digit_char_ascii, Hd.
  - apply Forall_map. eapply Forall_impl; [apply padded_digits_in_base; exact Hs|].
    intros d Hd. apply digit_char_ascii, Hd.
Qed.

(** X5: [schnorr_verify] does not return [False] but raises
    [AssertionError] on an ASCII signature string that has not 130
    characters, and on the string of a signature whose [s] is not below
    [N], which is an ASCII string. *)
Theorem schnorr_verify_rejects_by_assertion (P : point) (m : Z) :
  (forall sg : string,
     ascii_string sg -> length (chars sg) <> 130%nat ->
     schnorr_verify P m sg = Raise "AssertionError") /\
  (forall s e : Z,
     N <= s < 2 ^ 256 -> 0 <= e < 2 ^ 256 ->
     ascii_string (stringify_signature (mkSignature s e)) /\
     schnorr_verify P m (stringify_signature (mkSignature s e)) = Raise "AssertionError").
Proof.
  split.
  - intros sg _ Hlen. unfold schnorr_verify, split_signature.
    rewrite bool_decide_eq_false_2; [reflexivity|].
    unfold str_drop. rewrite chars_text, length_drop. lia.
  - intros s e Hs He. pose proof N_gt_1.
    split; [apply stringify_signature_ascii; cbn [sig_s sig_e]; lia|].
    unfold schnorr_verify.
    change (2 ^ 256) with (16 ^ 64) in *.
    rewrite split_stringify by (cbn [sig_s sig_e]; lia).
    cbn [mbind result_bind sig_s]. destruct (Z.ltb_spec s N); [lia | reflexivity].
Qed.

(** X6: on the code of a point other than the point at infinity
    [generate_hkdf_key] does not raise: the code has 78 decimal digits, an
    even number. *)
Theorem generate_hkdf_key_total_on_codes (P : point) :
  P <> IDENTITY ->
  exists c k, pub_to_code P = Ok c /\ decimal_digits c = 78%nat /\
              generate_hkdf_key c = Ok k /\ length k = 32%nat.
Proof.
  intros HP. destruct (generate_hkdf_key_code P HP) as (k & Hk & Hl).
  exists (code P), k. split; [apply pub_to_code_ok, HP|].
  split; [apply code_decimal_digits, HP | auto].
Qed.

(** The key derivation of [round2] and [round3]: the HKDF key of the code
    of [secret_key * code_to_pub(partner_key)]. *)
Definition joint_key (secret_key partner_key : Z) : result (list byte) :=
  partner_point ← code_to_pub partner_key;
  encryption_joint_key ← pub_to_code (pmul secret_key partner_point);
  generate_hkdf_key encryption_joint_key.

(** X7: two parties with the secret keys [a] and [b] derive the same
    32-byte key from the public key of the other one, and a share that is
    encrypted with it by [encrypt] is returned by [decrypt] and
    [json.loads]. *)
Theorem joint_key_agreement (a b : Z) :
  a mod N <> 0 -> b mod N <> 0 ->
  exists pub_a pub_b key,
    pub_to_code (get_public_key a) = Ok pub_a /\
    pub_to_code (get_public_key b) = Ok pub_b /\
    joint_key a pub_b = Ok key /\ joint_key b pub_a = Ok key /\
    length key = 32%nat /\
    forall (payload : share_payload) (iv : Z),
      (plain ← decrypt (encrypt (DataShare payload) key iv) key; json_loads_share plain)
      = Ok payload.
Proof.
  intros Ha Hb.
  exists (code (pmul a G)), (code (pmul b G)), (shared_key a b).
  destruct (shared_key_ok a b Ha Hb) as [Hk Hl].
  destruct (shared_key_ok b a Hb Ha) as [Hk' _].
  unfold get_public_key, joint_key.
  rewrite !pub_to_code_ok, !code_to_pub_code by (apply pmul_G_not_identity; assumption).
  cbn [mbind result_bind]. rewrite !pmul_pmul.
  rewrite !pub_to_code_ok by (apply pmul_G_not_identity, mul_mod_nonzero; assumption).
  cbn [mbind result_bind].
  repeat split; try assumption.
  - rewrite (shared_key_comm a b). exact Hk'.
  - intros payload iv. unfold decrypt, encrypt.
    rewrite fernet_decrypt_encrypt by exact Hl. cbn [mbind result_bind].
    apply json_loads_dumps.
Qed.

End CryptoUtilsProperties.

(** ** mod_inverse on numbers that have no inverse *)

Lemma mod_inverse_loop_not_coprime (fuel : nat) :
  forall number modulus inverse intermediate,
    0 <= modulus < number ->
    Z.gcd number modulus <> 1 ->
    number * modulus < 2 ^ Z.of_nat fuel ->
    mod_inverse_loop (S fuel) number modulus inverse intermediate
    = Raise "ZeroDivisionError".
Proof.
  induction fuel as [|fuel IH]; intros number modulus inverse intermediate Hrange Hgcd Hfuel.
  - change (2 ^ Z.of_nat 0) with 1 in Hfuel.
    assert (modulus = 0) by nia. subst modulus.
    rewrite Z.gcd_0_r in Hgcd. cbn [mod_inverse_loop].
    destruct (Z.gtb_spec number 1); [reflexivity | lia].
  - cbn [mod_inverse_loop].
    destruct (Z.gtb_spec number 1) as [Hgt|Hle].
    2:{ exfalso. assert (number = 1) by lia. subst number.
        rewrite Z.gcd_1_l in Hgcd. congruence. }
    destruct (Z.eqb_spec modulus 0) as [->|Hm]; [reflexivity|].
    assert (Hmpos : 0 < modulus) by lia.
    pose proof (Z.mod_pos_bound number modulus Hmpos) as Hr.
    pose proof (Z.div_mod number modulus Hm) as Hdm.
    assert (Hq : 1 <= number / modulus) by (apply Z.div_le_lower_bound; lia).
    apply IH; [lia | |].
    + rewrite Z.gcd_comm, Z.gcd_mod by lia. rewrite Z.gcd_comm. exact Hgcd.
    + rewrite Nat2Z.inj_succ, Z.pow_succ_r in Hfuel by lia. nia.
Qed.

(** X8: for a modulus [n > 1] and a number that is neither a multiple of
    [n] nor coprime to [n], the division [number // modulus] of [mod_inverse]
    ends by dividing by zero: [ZeroDivisionError]. *)
Theorem mod_inverse_not_coprime_raises (a n : Z) :
  1 < n -> a mod n <> 0 -> Z.gcd a n <> 1 ->
  mod_inverse a n = Raise "ZeroDivisionError".
Proof.
  intros Hn Ha Hgcd. unfold mod_inverse.
  destruct (Z.eqb_spec n 0); [lia|].
  destruct (Z.eqb_spec n 1); [lia|].
  pose proof (Z.mod_pos_bound a n ltac:(lia)) as Hb.
  assert (Hg : Z.gcd n (a mod n) <> 1) by (rewrite Z.gcd_comm, Z.gcd_mod, Z.gcd_comm by lia; exact Hgcd).
  set (r := a mod n) in *.
  assert (Hr1 : r <> 1) by (intros E; rewrite E, Z.gcd_1_r in Hg; congruence).
  rewrite (mod_inverse_fuel_succ n).
  set (fuel := Nat.pred (Nat.pred (mod_inverse_fuel n))).
  change (mod_inverse_loop (S (S fuel)) r n 1 0)
    with (if r >? 1 then
            if n =? 0 then Raise "ZeroDivisionError"
            else mod_inverse_loop (S fuel) n (r mod n) 0 (1 - r / n * 0)
          else Ok 1).
  destruct (Z.gtb_spec r 1); [|lia].
  destruct (Z.eqb_spec n 0); [lia|].
  rewrite (Z.mod_small r n) by lia.
  rewrite mod_inverse_loop_not_coprime; [reflexivity | lia | exact Hg |].
  apply mod_inverse_fuel_bound; lia.
Qed.

Section LagrangeProperties.
Context {curve : Fastecdsa} {hashes : Hashes} {crypto : Cryptography} {json : Json}.

(** X9: for identifiers that are distinct modulo [N], the coefficient that
    [langrange_coef] returns for the index [j] at the identifier of the
    index [i] is 1 modulo [N] when [i = j] and 0 modulo [N] otherwise. *)
Theorem langrange_coef_at_identifiers (ids : list Z) (i j : nat) :
  distinct_mod N ids -> (i < length ids)%nat -> (j < length ids)%nat ->
  exists c, langrange_coef j (length ids) ids (nth i ids 0) = Ok c /\
            c mod N = if decide (i = j) then 1 else 0.
Proof.
  intros Hd Hi Hj. pose proof N_gt_1 as HN.
  rewrite langrange_coef_unfold by auto.
  destruct (mod_inverse_lnum ids j Hd Hj) as [Hinv Hone]. rewrite Hinv.
  cbn [mbind result_bind]. eexists. split; [reflexivity|].
  destruct (decide (i = j)) as [->|Hne].
  - rewrite Z.mul_comm. exact Hone.
  - rewrite lnum_other by assumption. rewrite Z.mul_0_r. apply Z.mod_0_l. lia.
Qed.

Lemma mod_inverse_N_total (a : Z) : exists b, mod_inverse a N = Ok b.
Proof.
  pose proof N_gt_1 as HN.
  destruct (decide (a mod N = 0)) as [E|Hne].
  - exists 1. apply mod_inverse_of_zero; assumption.
  - destruct (mod_inverse_coprime a N HN) as (b & Hb & _); [|eauto].
    rewrite Z.gcd_comm. apply Z.coprime_prime_l; [exact N_prime|].
    intros Hdiv. apply Hne. apply Z.mod_divide; [lia | exact Hdiv].
Qed.

Lemma reconstruct_loop_total shares x js :
  forall sum,
    Forall (fun j => (j < length shares)%nat) js ->
    exists r, reconstruct_loop js shares (length shares) x sum = Ok r.
Proof.
  induction js as [|j js IH]; intros sum Hjs; [eexists; reflexivity|].
  inversion Hjs as [|? ? Hj Hrest]; subst.
  cbn [reconstruct_loop].
  rewrite langrange_coef_unfold by (rewrite ?length_map; auto).
  destruct (mod_inverse_N_total
              (lnum (map share_id shares) j (nth j (map share_id shares) 0))) as [b ->].
  cbn [mbind result_bind]. unfold py_index.
  destruct (lookup_lt_is_Some_2 shares j Hj) as [s ->]. cbn [mbind result_bind].
  apply IH, Hrest.
Qed.

(** X10: [reconstruct_share] raises [AssertionError] when the number of
    shares differs from the threshold; otherwise it returns a value in
    [[0, N)], for any identifiers: identifiers that repeat are not
    detected. *)
Theorem reconstruct_share_returns_or_asserts (shares : list share) (threshold : nat)
    (x : Z) :
  (length shares <> threshold ->
   reconstruct_share shares threshold x = Raise "AssertionError") /\
  (length shares = threshold ->
   exists r, reconstruct_share shares threshold x = Ok r /\ 0 <= r < N).
Proof.
  split; intros Hlen; unfold reconstruct_share.
  - rewrite bool_decide_eq_false_2 by exact Hlen. reflexivity.
  - rewrite bool_decide_eq_true_2 by exact Hlen. subst threshold.
    destruct (reconstruct_loop_total shares x (seq 0 (length shares)) 0 (seq_all_lt _))
      as [r ->].
    cbn [mbind result_bind]. eexists. split; [reflexivity|].
    apply Z.mod_pos_bound. pose proof N_gt_1. lia.
Qed.

(** X11: the proof of a complaint that is built from the private key [x]
    of the complaintant, a nonce [k] and the public key [M] of the accused
    ([k * G], [k * M] and [complaint_sign(x, k, h)]) passes
    [complaint_verify] with the joint key [x * M]. *)
Theorem complaint_proof_verifies (x k m h : Z) :
  complaint_verify (pmul x G) (pmul m G) (pmul x (pmul m G))
    (mkProof (pmul k G) (pmul k (pmul m G)) (complaint_sign x k h)) h = true.
Proof.
  pose proof N_gt_1 as HN.
  unfold complaint_verify, complaint_sign.
  cbn [proof_public_nonce proof_commitment proof_signature].
  rewrite !pmul_pmul, <- !pmul_add, pmul_G_mod.
  rewrite bool_decide_eq_true_2 by (f_equal; lia).
  rewrite bool_decide_eq_true_2; [reflexivity|].
  apply pmul_G_congr. rewrite Z.mul_mod_idemp_l by lia. f_equal. lia.
Qed.

(** X12: for a threshold of at least 1, [Polynomial] has exactly
    [threshold] coefficients, the first one being [coefficient0] when it is
    given, and [evaluate(0)] returns the first coefficient; for a threshold
    below 1 and a given [coefficient0] there is still one coefficient. *)
Theorem Polynomial_init_coefficients (T : Z) (gen : nat -> Z) (c : Z) :
  (1 <= T ->
   exists f g, Polynomial_init T (Some (Coef0Int c)) gen = Ok f /\
               Polynomial_init T None gen = Ok g /\
               length (coefficients f) = Z.to_nat T /\
               length (coefficients g) = Z.to_nat T /\
               evaluate f 0 = c /\ evaluate g 0 = gen 0%nat) /\
  (T < 1 -> Polynomial_init T (Some (Coef0Int c)) gen = Ok (mkPolynomial T [c]) /\
            Polynomial_init T None gen = Ok (mkPolynomial T [])).
Proof.
  assert (Hf : Polynomial_init T (Some (Coef0Int c)) gen
               = Ok (mkPolynomial T (c :: map gen (seq 0 (Z.to_nat (T - 1)))))).
  { unfold Polynomial_init. cbn [mbind result_bind length app].
    change (Z.of_nat 1) with 1. reflexivity. }
  assert (Hg : Polynomial_init T None gen
               = Ok (mkPolynomial T (map gen (seq 0 (Z.to_nat T))))).
  { unfold Polynomial_init. cbn [mbind result_bind length app].
    change (Z.of_nat 0) with 0. rewrite Z.sub_0_r. reflexivity. }
  split.
  - intros HT. eexists _, _. split; [exact Hf|]. split; [exact Hg|].
    rewrite !evaluate_poly_sum, !poly_sum_horner, !horner_at_0.
    cbn [coefficients length hd]. rewrite !length_map, !length_seq.
    replace (Z.to_nat T) with (S (Z.to_nat (T - 1))) by lia.
    cbn [seq map hd]. repeat split; lia.
  - intros HT. rewrite Hf, Hg.
    replace (Z.to_nat (T - 1)) with 0%nat by lia.
    replace (Z.to_nat T) with 0%nat by lia. split; reflexivity.
Qed.

End LagrangeProperties.

Section ThresholdSchnorr.
Context {curve : Fastecdsa} {hashes : Hashes} {crypto : Cryptography} {json : Json}.

Lemma schnorr_sign_value (x k : Z) (P : point) (m : Z) :
  0 <= m ->
  schnorr_sign x k P m
  = Ok (mkSignature ((k - challenge_of P m * x) mod N) (challenge_of P m)).
Proof.
  intros Hm. unfold schnorr_sign.
  destruct (schnorr_hash_challenge P m Hm) as (h & -> & <-). reflexivity.
Qed.

Lemma schnorr_aggregate_loop_ok (party : list Z) (sf : Z -> Z) (e : Z) (js : list nat) :
  forall acc,
    distinct_mod N party ->
    Forall (fun j => (j < length party)%nat) js ->
    schnorr_aggregate_loop js (length party)
      (map (fun id => mkSignature (sf id) e) party) party acc
    = Ok (acc + interp_sum (weight (map (fun id => mkShare id (sf id)) party)) party js 0).
Proof.
  assert (Hids : map share_id (map (fun id => mkShare id (sf id)) party) = party).
  { rewrite map_map. apply map_id. }
  induction js as [|j js IH]; intros acc Hd Hjs.
  - cbn. f_equal. lia.
  - inversion Hjs as [|? ? Hj Hrest]; subst.
    cbn [schnorr_aggregate_loop].
    rewrite langrange_coef_unfold by auto.
    destruct (mod_inverse_lnum party j Hd Hj) as [Hinv _]. rewrite Hinv.
    cbn [mbind result_bind].
    destruct (lookup_lt_is_Some_2 party j Hj) as [id Hid].
    rewrite (py_index_ok _ j (mkSignature (sf id) e))
      by (change (map ?f party) with (f <$> party); rewrite list_lookup_fmap, Hid;
          reflexivity).
    cbn [mbind result_bind sig_s]. rewrite IH by assumption. f_equal.
    cbn [interp_sum fold_right].
    fold (interp_sum (weight (map (fun id => mkShare id (sf id)) party)) party js 0).
    unfold weight at 2. rewrite Hids.
    assert (Hnth : nth j (map (fun id => mkShare id (sf id)) party) (mkShare 0 0)
                   = mkShare id (sf id)).
    { apply nth_lookup_Some.
      change (map ?f party) with (f <$> party). rewrite list_lookup_fmap, Hid.
      reflexivity. }
    rewrite Hnth. cbn [share_key]. lia.
Qed.

(** X13: when the signers hold the values of a key polynomial [F] and of a
    nonce polynomial [K] at identifiers that are distinct modulo [N], and
    each of them signs with [schnorr_sign] under the public nonce
    [K(0) * G], [schnorr_aggregate_signatures] returns the very signature
    that [schnorr_sign] gives for the key [F(0)] and the nonce [K(0)], and
    [schnorr_verify] accepts it under [F(0) * G]. *)
Theorem schnorr_aggregate_signatures_signs (F K : Polynomial) (party : list Z) (m : Z)
    (signatures : list signature) :
  0 <= m -> party <> [] -> distinct_mod N party ->
  (length (coefficients F) <= length party)%nat ->
  (length (coefficients K) <= length party)%nat ->
  traverse (fun id => schnorr_sign (evaluate F id) (evaluate K id)
                        (pmul (evaluate K 0) G) m) party = Ok signatures ->
  exists sg,
    schnorr_aggregate_signatures (length party) signatures party = Ok sg /\
    schnorr_sign (evaluate F 0) (evaluate K 0) (pmul (evaluate K 0) G) m = Ok sg /\
    schnorr_verify (pmul (evaluate F 0) G) m (stringify_signature sg) = Ok true.
Proof.
  intros Hm Hne Hd HF HK Hsigs. pose proof N_gt_1 as HN.
  set (P := pmul (evaluate K 0) G) in *.
  set (e := challenge_of P m).
  set (sf := fun id => (evaluate K id - e * evaluate F id) mod N).
  assert (Hall : traverse (fun id => schnorr_sign (evaluate F id) (evaluate K id) P m) party
                 = Ok (map (fun id => mkSignature (sf id) e) party)).
  { apply traverse_map_ok, Forall_forall. intros id _. apply schnorr_sign_value, Hm. }
  rewrite Hall in Hsigs. injection Hsigs as <-.
  exists (signature_of (evaluate F 0) (evaluate K 0) m).
  split; [|split; [apply schnorr_sign_ok, Hm | apply schnorr_verify_sign, Hm]].
  unfold schnorr_aggregate_signatures.
  rewrite bool_decide_eq_true_2 by (rewrite length_map; lia).
  rewrite schnorr_aggregate_loop_ok by (auto using seq_all_lt).
  cbn [mbind result_bind].
  destruct party as [|id0 party'] eqn:Eparty; [congruence|]. rewrite <- Eparty in *.
  rewrite (py_index_ok _ 0 (mkSignature (sf id0) e)) by (rewrite Eparty; reflexivity).
  cbn [mbind result_bind sig_e]. unfold signature_of. fold P. fold e. do 2 f_equal.
  rewrite Z.add_0_l.
  set (shares := map (fun id => mkShare id (sf id)) party).
  assert (Hids : map share_id shares = party).
  { unfold shares. rewrite map_map. apply map_id. }
  pose proof (interp_sum_agrees
                (poly_add (coefficients K) (poly_scale (- e) (coefficients F)))
                shares 0) as HI.
  assert (Hlen : length shares = length party) by (unfold shares; apply length_map).
  rewrite Hlen, Hids in HI. rewrite HI.
  - rewrite horner_poly_add, horner_poly_scale, <- !poly_sum_horner, <- !evaluate_poly_sum.
    f_equal. lia.
  - rewrite length_poly_add, length_poly_scale. lia.
  - exact Hd.
  - unfold shares. apply Forall_map, Forall_forall. intros id _. cbn [share_key share_id].
    unfold sf. rewrite Z.mod_mod by lia.
    rewrite horner_poly_add, horner_poly_scale, <- !poly_sum_horner, <- !evaluate_poly_sum.
    f_equal. lia.
Qed.

End ThresholdSchnorr.

(** * Further properties of the key generation *)

Lemma traverse_map {A B C} (f : B -> result C) (h : A -> B) (l : list A) :
  traverse f (map h l) = traverse (fun a => f (h a)) l.
Proof.
  induction l as [|a l IH]; [reflexivity|]. cbn [map traverse]. rewrite IH. reflexivity.
Qed.

Lemma list_remove_first_absent (x : string) (l : list string) :
  x ∉ l -> list_remove_first x l = None.
Proof.
  induction l as [|y l IH]; intros Hx; [reflexivity|].
  apply not_elem_of_cons in Hx. destruct Hx as [Hne Hx].
  cbn [list_remove_first]. rewrite bool_decide_eq_false_2 by congruence.
  rewrite IH by exact Hx. reflexivity.
Qed.

(** With partners that are distinct, the qualified partners are the
    partners whose identifier is not the one of a malicious entry. *)
Lemma remove_malicious_filter (malicious : list malicious_entry) :
  forall qualified,
    NoDup qualified ->
    remove_malicious malicious qualified
    = filter (fun y => y ∉ map mal_id malicious) qualified.
Proof.
  induction malicious as [|node rest IH]; intros qualified Hnd.
  - cbn [remove_malicious map]. symmetry. apply filter_all, Forall_forall.
    intros y _ Hy. inversion Hy.
  - cbn [remove_malicious map].
    destruct (decide (mal_id node ∈ qualified)) as [Hin|Hnotin].
    + rewrite list_remove_first_NoDup by assumption.
      rewrite IH by (apply NoDup_filter; exact Hnd).
      rewrite list_filter_filter. apply filter_ext_elem. intros y _.
      rewrite not_elem_of_cons. tauto.
    + rewrite list_remove_first_absent by exact Hnotin.
      rewrite IH by exact Hnd.
      apply filter_ext_elem. intros y Hy.
      rewrite not_elem_of_cons. split; [|tauto].
      intros H. split; [|exact H]. intros ->. contradiction.
Qed.

Section Round2Properties.
Context {curve : Fastecdsa} {hashes : Hashes} {crypto : Cryptography} {json : Json}.

Lemma round2_send_loop_shape self_id secret_key fx keys ivs qualified :
  forall i messages,
    round2_send_loop self_id secret_key fx keys ivs i qualified = Ok messages ->
    map r2_receiver_id messages = qualified /\
    Forall (fun m => r2_sender_id m = self_id) messages /\
    Forall (fun id => is_Some (keys !! id)) qualified.
Proof.
  induction qualified as [|id rest IH]; intros i messages.
  - cbn. intros [= <-]. repeat constructor.
  - cbn [round2_send_loop]. unfold dict_get.
    destruct (keys !! id) as [k|] eqn:Ek; cbn [mbind result_bind]; [|discriminate].
    destruct (code_to_pub k) as [P|e]; cbn [mbind result_bind]; [|discriminate].
    destruct (pub_to_code (pmul secret_key P)) as [c|e]; cbn [mbind result_bind];
      [|discriminate].
    destruct (generate_hkdf_key c) as [key|e]; cbn [mbind result_bind]; [|discriminate].
    destruct (py_int id) as [n|e]; cbn [mbind result_bind]; [|discriminate].
    destruct (round2_send_loop self_id secret_key fx keys ivs (S i) rest) as [ms|e] eqn:E;
      cbn [mbind result_bind]; [|discriminate].
    intros [= <-]. destruct (IH (S i) ms E) as (Hr & Hs & Hk).
    cbn [map r2_receiver_id]. rewrite Hr. repeat split; [|constructor; eauto].
    constructor; [reflexivity | exact Hs].
Qed.

Lemma round2_verify_loop_spec self_id dkg_id datas :
  forall malicious keys malicious' keys',
    round2_verify_loop self_id dkg_id datas malicious keys = Ok (malicious', keys') ->
    (forall id, is_Some (keys' !! id) ->
                is_Some (keys !! id) \/ exists d, d ∈ datas /\ r1_sender_id d = id) /\
    (forall entry, entry ∈ malicious -> entry ∈ malicious') /\
    (forall d c, d ∈ datas -> r1_sender_id d <> self_id ->
                 py_index (r1_public_fx d) 0 = Ok c ->
                 verify_pop (r1_sender_id d) dkg_id c (r1_coefficient0_signature d)
                 = Ok false \/
                 verify_pop (r1_sender_id d) dkg_id (r1_public_key d)
                   (r1_secret_signature d) = Ok false ->
                 mkMalicious (r1_sender_id d) d ∈ malicious').
Proof.
  induction datas as [|d rest IH]; intros malicious keys malicious' keys'.
  - cbn. intros [= <- <-]. repeat split; auto.
    intros d c Hd. inversion Hd.
  - cbn [round2_verify_loop].
    destruct (decide (r1_sender_id d = self_id)) as [Eid|Hid].
    + rewrite bool_decide_eq_true_2 by exact Eid. intros Hloop.
      destruct (IH _ _ _ _ Hloop) as (Hk & Hm & Hf). repeat split.
      * intros id Hsome. destruct (Hk id Hsome) as [?|(d' & Hd' & E)]; [auto|].
        right. exists d'. split; [apply elem_of_cons; auto | exact E].
      * exact Hm.
      * intros d' c Hd' Hne Hc Hv. apply elem_of_cons in Hd'.
        destruct Hd' as [->|Hd']; [congruence|]. eapply Hf; eauto.
    + rewrite bool_decide_eq_false_2 by exact Hid.
      destruct (py_index (r1_public_fx d) 0) as [c0|e] eqn:Ec; cbn [mbind result_bind];
        [|discriminate].
      destruct (verify_pop (r1_sender_id d) dkg_id c0 (r1_coefficient0_signature d))
        as [v1|e] eqn:Ev1; cbn [mbind result_bind]; [|discriminate].
      destruct (verify_pop (r1_sender_id d) dkg_id (r1_public_key d)
                  (r1_secret_signature d)) as [v2|e] eqn:Ev2;
        cbn [mbind result_bind]; [|discriminate].
      intros Hloop. destruct (IH _ _ _ _ Hloop) as (Hk & Hm & Hf). repeat split.
      * intros id Hsome. destruct (Hk id Hsome) as [Hs|(d' & Hd' & E)].
        -- destruct (decide (r1_sender_id d = id)) as [E|Hne].
           ++ right. exists d. split; [apply elem_of_cons; auto | exact E].
           ++ left. rewrite lookup_insert_ne in Hs by exact Hne. exact Hs.
        -- right. exists d'. split; [apply elem_of_cons; auto | exact E].
      * intros entry Hentry. apply Hm.
        destruct (negb v2 || negb v1); [apply elem_of_app; auto | exact Hentry].
      * intros d' c Hd' Hne Hc Hv. apply elem_of_cons in Hd'.
        destruct Hd' as [->|Hd']; [|eapply Hf; eauto].
        apply Hm. rewrite Ec in Hc. injection Hc as <-.
        rewrite Ev1, Ev2 in Hv.
        assert (Hb : negb v2 || negb v1 = true)
          by (destruct Hv as [[= ->]|[= ->]]; [destruct v2 | destruct v1]; reflexivity).
        rewrite Hb. apply elem_of_app. right. apply list_elem_of_singleton. reflexivity.
Qed.

Lemma round2_result_shape (self after2 : KeyGen)
    (data : list round1_data) (ivs : nat -> Z) (messages : list round2_data) :
  round2 self data ivs = Ok (after2, messages) ->
  kg_status after2 = "ROUND2"%string /\
  kg_partners after2 = remove_malicious (kg_malicious after2) (kg_partners self) /\
  map r2_receiver_id messages = kg_partners after2 /\
  Forall (fun m => r2_sender_id m = kg_node_id self) messages /\
  Forall (fun id => exists d, d ∈ data /\ r1_sender_id d = id) (kg_partners after2) /\
  kg_round1_broadcasted_data after2 = Some data.
Proof.
  unfold round2.
  destruct (getattr (kg_fx self)) as [fx|e]; cbn [mbind result_bind]; [|discriminate].
  destruct (getattr (kg_secret_key self)) as [sk|e]; cbn [mbind result_bind];
    [|discriminate].
  destruct (round2_verify_loop (kg_node_id self) (kg_dkg_id self) data (kg_malicious self) ∅)
    as [[malicious keys]|e] eqn:Ev; cbn [mbind result_bind fst snd]; [|discriminate].
  destruct (round2_send_loop (kg_node_id self) sk fx keys ivs 0
              (remove_malicious malicious (kg_partners self))) as [ms|e] eqn:Es;
    cbn [mbind result_bind]; [|discriminate].
  intros [= <- <-]. cbn [kg_status kg_partners kg_malicious kg_round1_broadcasted_data].
  destruct (round2_send_loop_shape _ _ _ _ _ _ _ _ Es) as (Hr & Hs & Hk).
  destruct (round2_verify_loop_spec _ _ _ _ _ _ _ Ev) as (Hkeys & _ & _).
  repeat split; try assumption.
  eapply Forall_impl; [exact Hk|]. intros id Hsome. cbn beta in Hsome.
  destruct (Hkeys id Hsome) as [Hempty|Hd]; [|exact Hd].
  rewrite lookup_empty in Hempty. destruct Hempty as [? [=]].
Qed.

(** What [round2] has found on a broadcast that it records in
    [self.malicious]. *)
Definition failed_proof (self_id dkg_id : string) (datas : list round1_data)
    (entry : malicious_entry) : Prop :=
  exists d c,
    entry = mkMalicious (r1_sender_id d) d /\ d ∈ datas /\ r1_sender_id d <> self_id /\
    py_index (r1_public_fx d) 0 = Ok c /\
    (verify_pop (r1_sender_id d) dkg_id c (r1_coefficient0_signature d) = Ok false \/
     verify_pop (r1_sender_id d) dkg_id (r1_public_key d) (r1_secret_signature d)
     = Ok false).

Lemma round2_verify_loop_entries self_id dkg_id datas :
  forall malicious keys malicious' keys',
    round2_verify_loop self_id dkg_id datas malicious keys = Ok (malicious', keys') ->
    Forall (fun entry => entry ∈ malicious \/ failed_proof self_id dkg_id datas entry)
      malicious'.
Proof.
  induction datas as [|d rest IH]; intros malicious keys malicious' keys'.
  - cbn. intros [= <- <-]. apply Forall_forall. auto.
  - cbn [round2_verify_loop].
    assert (Hrest : forall entry, failed_proof self_id dkg_id rest entry ->
                                  failed_proof self_id dkg_id (d :: rest) entry).
    { intros entry (d' & c & E & Hd' & H). exists d', c.
      split; [exact E|]. split; [apply elem_of_cons; auto | exact H]. }
    destruct (decide (r1_sender_id d = self_id)) as [Eid|Hid].
    + rewrite bool_decide_eq_true_2 by exact Eid. intros Hloop.
      eapply Forall_impl; [exact (IH _ _ _ _ Hloop)|].
      intros entry [Hin|Hf]; auto.
    + rewrite bool_decide_eq_false_2 by exact Hid.
      destruct (py_index (r1_public_fx d) 0) as [c0|e] eqn:Ec; cbn [mbind result_bind];
        [|discriminate].
      destruct (verify_pop (r1_sender_id d) dkg_id c0 (r1_coefficient0_signature d))
        as [v1|e] eqn:Ev1; cbn [mbind result_bind]; [|discriminate].
      destruct (verify_pop (r1_sender_id d) dkg_id (r1_public_key d)
                  (r1_secret_signature d)) as [v2|e] eqn:Ev2;
        cbn [mbind result_bind]; [|discriminate].
      intros Hloop. eapply Forall_impl; [exact (IH _ _ _ _ Hloop)|].
      intros entry [Hin|Hf]; [|auto].
      destruct (negb v2 || negb v1) eqn:Hb; [|auto].
      apply elem_of_app in Hin. destruct Hin as [Hin|Hin]; [auto|].
      apply list_elem_of_singleton in Hin. right. exists d, c0.
      split; [exact Hin|]. split; [apply elem_of_cons; auto|].
      split; [exact Hid|]. split; [exact Ec|]. rewrite Ev1, Ev2.
      destruct v1; [|auto]. destruct v2; [discriminate | auto].
Qed.

(** X14: when the partners of a session are distinct and [round2] returns,
    the session is in the state ROUND2 and keeps the data of round 1;
    [self.partners] is the former list without the identifiers recorded in
    [self.malicious], in the same order; the messages are addressed, in
    order, to exactly these partners, each with [self.node_id] as the
    sender; every such partner has a broadcast in the data of round 1; and
    every entry of [self.malicious] was there before or is a broadcast of
    another node that failed one of the two proofs of possession. *)
Theorem round2_sends_one_share_per_partner (self after2 : KeyGen)
    (data : list round1_data) (ivs : nat -> Z) (messages : list round2_data) :
  NoDup (kg_partners self) ->
  round2 self data ivs = Ok (after2, messages) ->
  kg_status after2 = "ROUND2"%string /\
  kg_round1_broadcasted_data after2 = Some data /\
  kg_partners after2
  = filter (fun id => id ∉ map mal_id (kg_malicious after2)) (kg_partners self) /\
  map r2_receiver_id messages = kg_partners after2 /\
  Forall (fun m => r2_sender_id m = kg_node_id self) messages /\
  Forall (fun id => exists d, d ∈ data /\ r1_sender_id d = id) (kg_partners after2) /\
  Forall (fun entry => entry ∈ kg_malicious self \/
                       failed_proof (kg_node_id self) (kg_dkg_id self) data entry)
    (kg_malicious after2).
Proof.
  intros Hnd Hround.
  destruct (round2_result_shape _ _ _ _ _ Hround) as (Hst & Hp & Hr & Hs & Hd & Hdata).
  split; [exact Hst|]. split; [exact Hdata|].
  split; [rewrite Hp; apply remove_malicious_filter, Hnd|].
  split; [exact Hr|]. split; [exact Hs|]. split; [exact Hd|].
  revert Hround. unfold round2.
  destruct (getattr (kg_fx self)) as [fx|e]; cbn [mbind result_bind]; [|discriminate].
  destruct (getattr (kg_secret_key self)) as [sk|e]; cbn [mbind result_bind];
    [|discriminate].
  destruct (round2_verify_loop (kg_node_id self) (kg_dkg_id self) data (kg_malicious self) ∅)
    as [[malicious keys]|e] eqn:Ev; cbn [mbind result_bind fst snd]; [|discriminate].
  destruct (round2_send_loop (kg_node_id self) sk fx keys ivs 0
              (remove_malicious malicious (kg_partners self))) as [ms|e];
    cbn [mbind result_bind]; [|discriminate].
  intros [= <- _]. cbn [kg_malicious].
  exact (round2_verify_loop_entries _ _ _ _ _ _ _ Ev).
Qed.

(** X15: when the partners of a session are distinct and [round2]
    returns, a partner whose broadcast fails one of the two proofs of
    possession is recorded in [self.malicious], is removed from
    [self.partners] and gets no message. *)
Theorem round2_excludes_failed_proof (self after2 : KeyGen) (data : list round1_data)
    (ivs : nat -> Z) (messages : list round2_data) (d : round1_data) (c : Z) :
  NoDup (kg_partners self) ->
  d ∈ data -> r1_sender_id d <> kg_node_id self ->
  py_index (r1_public_fx d) 0 = Ok c ->
  verify_pop (r1_sender_id d) (kg_dkg_id self) c (r1_coefficient0_signature d) = Ok false \/
  verify_pop (r1_sender_id d) (kg_dkg_id self) (r1_public_key d) (r1_secret_signature d)
  = Ok false ->
  round2 self data ivs = Ok (after2, messages) ->
  (mkMalicious (r1_sender_id d) d ∈ kg_malicious after2) /\
  (r1_sender_id d ∉ kg_partners after2) /\
  (r1_sender_id d ∉ map r2_receiver_id messages).
Proof.
  intros Hnd Hd Hne Hc Hv Hround.
  destruct (round2_result_shape _ _ _ _ _ Hround) as (_ & Hp & Hr & _).
  revert Hround. unfold round2.
  destruct (getattr (kg_fx self)) as [fx|e]; cbn [mbind result_bind]; [|discriminate].
  destruct (getattr (kg_secret_key self)) as [sk|e]; cbn [mbind result_bind];
    [|discriminate].
  destruct (round2_verify_loop (kg_node_id self) (kg_dkg_id self) data (kg_malicious self) ∅)
    as [[malicious keys]|e] eqn:Ev; cbn [mbind result_bind fst snd]; [|discriminate].
  destruct (round2_send_loop (kg_node_id self) sk fx keys ivs 0
              (remove_malicious malicious (kg_partners self))) as [ms|e];
    cbn [mbind result_bind]; [|discriminate].
  intros [= E1 E2]. subst after2. cbn [kg_malicious kg_partners] in *.
  destruct (round2_verify_loop_spec _ _ _ _ _ _ _ Ev) as (_ & _ & Hf).
  pose proof (Hf d c Hd Hne Hc Hv) as Hin.
  assert (Hout : r1_sender_id d ∉ remove_malicious malicious (kg_partners self)).
  { rewrite remove_malicious_filter by exact Hnd. intros Hq.
    apply list_elem_of_filter in Hq. destruct Hq as [Hq _]. apply Hq.
    apply list_elem_of_In, (List.in_map mal_id _ (mkMalicious (r1_sender_id d) d)),
      list_elem_of_In, Hin. }
  split; [exact Hin|]. split; [exact Hout|]. rewrite Hr. exact Hout.
Qed.

End Round2Properties.

Section Round3Properties.
Context {curve : Fastecdsa} {hashes : Hashes} {crypto : Cryptography} {json : Json}.

(** What the loop of [round3] does with one message: the share it reads,
    when nothing raises. *)
Definition round3_receive (self : KeyGen) (secret_key : Z) (keys : gmap string Z)
    (message : round2_data) : result share_payload :=
  partner_key ← dict_get keys (r2_sender_id message);
  partner_point ← code_to_pub partner_key;
  encryption_joint_key ← pub_to_code (pmul secret_key partner_point);
  encryption_key ← generate_hkdf_key encryption_joint_key;
  if bool_decide (r2_receiver_id message = kg_node_id self) then
    plain ← decrypt (r2_data message) encryption_key;
    data ← json_loads_share plain;
    broadcasted ← getattr (kg_round1_broadcasted_data self);
    checked ← round3_check_loop self secret_key (r2_sender_id message) partner_key
                (sp_f data) broadcasted [];
    Ok data
  else Raise "AssertionError".

Lemma round3_check_loop_any self secret_key sender_id partner_public f datas :
  forall complaints,
    round3_check_loop self secret_key sender_id partner_public f datas complaints
    = match round3_check_loop self secret_key sender_id partner_public f datas [] with
      | Ok _ => Ok complaints
      | Raise e => Raise e
      end.
Proof.
  induction datas as [|d rest IH]; intros complaints; [reflexivity|].
  cbn [round3_check_loop].
  destruct (bool_decide (r1_sender_id d = sender_id)); [|apply IH].
  destruct (traverse code_to_pub (r1_public_fx d)) as [points|e];
    cbn [mbind result_bind]; [|reflexivity].
  destruct (py_int (kg_node_id self)) as [i|e]; cbn [mbind result_bind]; [|reflexivity].
  destruct (calc_poly_point points i) as [P|e]; cbn [mbind result_bind]; [|reflexivity].
  destruct (bool_decide (P <> pmul f G)); [reflexivity | apply IH].
Qed.

Lemma round3_message_loop_cons self secret_key keys message rest round2_datas complaints :
  round3_message_loop self secret_key keys (message :: rest) round2_datas complaints
  = (data ← round3_receive self secret_key keys message;
     round3_message_loop self secret_key keys rest (round2_datas ++ [data]) complaints).
Proof.
  cbn [round3_message_loop]. unfold round3_receive.
  destruct (dict_get keys (r2_sender_id message)) as [k|e]; cbn [mbind result_bind];
    [|reflexivity].
  destruct (code_to_pub k) as [P|e]; cbn [mbind result_bind]; [|reflexivity].
  destruct (pub_to_code (pmul secret_key P)) as [c|e]; cbn [mbind result_bind];
    [|reflexivity].
  destruct (generate_hkdf_key c) as [key|e]; cbn [mbind result_bind]; [|reflexivity].
  destruct (bool_decide (r2_receiver_id message = kg_node_id self)); [|reflexivity].
  destruct (decrypt (r2_data message) key) as [plain|e]; cbn [mbind result_bind];
    [|reflexivity].
  destruct (json_loads_share plain) as [data|e]; cbn [mbind result_bind]; [|reflexivity].
  destruct (getattr (kg_round1_broadcasted_data self)) as [b|e];
    cbn [mbind result_bind]; [|reflexivity].
  rewrite round3_check_loop_any.
  destruct (round3_check_loop self secret_key (r2_sender_id message) k (sp_f data) b [])
    as [cs|e]; reflexivity.
Qed.

Lemma round3_message_loop_iff self secret_key keys messages :
  forall round2_datas complaints received,
    round3_message_loop self secret_key keys messages round2_datas complaints = Ok received
    <-> exists payloads,
          Forall2 (fun m p => round3_receive self secret_key keys m = Ok p)
            messages payloads /\
          received = (round2_datas ++ payloads, complaints).
Proof.
  induction messages as [|m rest IH]; intros round2_datas complaints received.
  - cbn [round3_message_loop]. split.
    + intros [= <-]. exists []. split; [constructor|]. rewrite app_nil_r. reflexivity.
    + intros (payloads & HF & ->). inversion HF; subst. rewrite app_nil_r. reflexivity.
  - rewrite round3_message_loop_cons. split.
    + destruct (round3_receive self secret_key keys m) as [p|e] eqn:Ep;
        cbn [mbind result_bind]; [|discriminate].
      intros Hloop. apply IH in Hloop. destruct Hloop as (payloads & HF & ->).
      exists (p :: payloads). split; [constructor; assumption|].
      rewrite <- app_assoc. reflexivity.
    + intros (payloads & HF & ->). inversion HF as [|? p ? ps Hp Hps]; subst.
      rewrite Hp. cbn [mbind result_bind]. apply IH. exists ps.
      split; [exact Hps|]. rewrite <- app_assoc. reflexivity.
Qed.

Lemma sum_permutation (l l' : list Z) :
  Permutation l l' -> fold_right Z.add 0 l = fold_right Z.add 0 l'.
Proof. induction 1; cbn [fold_right]; lia. Qed.

(** X16: [round3] returns the same result, and leaves the session in the
    same state, when the messages arrive in another order. *)
Theorem round3_order_independent (self : KeyGen) (messages messages' : list round2_data)
    (done : KeyGen * round3_result) :
  Permutation messages messages' ->
  round3 self messages = Ok done -> round3 self messages' = Ok done.
Proof.
  intros Hperm. unfold round3.
  destruct (getattr (kg_secret_key self)) as [sk|e]; cbn [mbind result_bind];
    [|discriminate].
  destruct (getattr (kg_partners_public_keys self)) as [keys|e];
    cbn [mbind result_bind]; [|discriminate].
  destruct (round3_message_loop self sk keys messages [] []) as [received|e] eqn:E;
    cbn [mbind result_bind]; [|discriminate].
  apply round3_message_loop_iff in E. destruct E as (payloads & HF & ->).
  destruct (Permutation_Forall2 Hperm HF) as (payloads' & Hp & HF').
  assert (E' : round3_message_loop self sk keys messages' [] [] = Ok ([] ++ payloads', []))
    by (apply round3_message_loop_iff; eauto).
  rewrite E'. cbn [mbind result_bind fst snd app length Nat.ltb Nat.leb].
  destruct (getattr (kg_fx self)) as [fx|e]; cbn [mbind result_bind]; [|discriminate].
  destruct (py_int (kg_node_id self)) as [i|e]; cbn [mbind result_bind]; [|discriminate].
  cbv zeta.
  assert (Hsum : py_sum (evaluate fx i :: map sp_f payloads')
                 = py_sum (evaluate fx i :: map sp_f payloads)).
  { rewrite !py_sum_fold. apply sum_permutation. constructor.
    apply Permutation_map. symmetry. exact Hp. }
  rewrite Hsum. intros H. exact H.
Qed.

Lemma round3_check_loop_passes self secret_key sender_id partner_public f datas :
  forall complaints complaints',
    round3_check_loop self secret_key sender_id partner_public f datas complaints
    = Ok complaints' ->
    forall d, d ∈ datas -> r1_sender_id d = sender_id ->
      exists points i,
        traverse code_to_pub (r1_public_fx d) = Ok points /\
        py_int (kg_node_id self) = Ok i /\
        calc_poly_point points i = Ok (pmul f G).
Proof.
  induction datas as [|d0 rest IH]; intros complaints complaints' Hloop d Hd Hs.
  - inversion Hd.
  - revert Hloop. cbn [round3_check_loop].
    apply elem_of_cons in Hd.
    destruct (decide (r1_sender_id d0 = sender_id)) as [E0|Hne0].
    + rewrite bool_decide_eq_true_2 by exact E0.
      destruct (traverse code_to_pub (r1_public_fx d0)) as [points|e] eqn:Ep;
        cbn [mbind result_bind]; [|discriminate].
      destruct (py_int (kg_node_id self)) as [i|e] eqn:Ei; cbn [mbind result_bind];
        [|discriminate].
      destruct (calc_poly_point points i) as [P|e] eqn:EP; cbn [mbind result_bind];
        [|discriminate].
      destruct (decide (P <> pmul f G)) as [Hne|Heq].
      * rewrite bool_decide_eq_true_2 by exact Hne. discriminate.
      * rewrite bool_decide_eq_false_2 by exact Heq. intros Hloop.
        destruct Hd as [->|Hd]; [|eapply IH; eauto].
        exists points, i. rewrite Ep.
        assert (P = pmul f G) by (destruct (decide (P = pmul f G)); [auto | contradiction]).
        subst P. auto.
    + rewrite bool_decide_eq_false_2 by exact Hne0. intros Hloop.
      destruct Hd as [->|Hd]; [congruence | eapply IH; eauto].
Qed.

(** What [round3] has checked on a message whose share it accepts. *)
Definition share_checked (self : KeyGen) (keys : gmap string Z)
    (broadcasted : list round1_data) (message : round2_data) (data : share_payload)
    : Prop :=
  r2_receiver_id message = kg_node_id self /\
  is_Some (keys !! r2_sender_id message) /\
  forall d, d ∈ broadcasted -> r1_sender_id d = r2_sender_id message ->
    exists points i,
      traverse code_to_pub (r1_public_fx d) = Ok points /\
      py_int (kg_node_id self) = Ok i /\
      calc_poly_point points i = Ok (pmul (sp_f data) G).

Lemma round3_receive_checked self secret_key keys message data :
  round3_receive self secret_key keys message = Ok data ->
  exists broadcasted,
    kg_round1_broadcasted_data self = Some broadcasted /\
    share_checked self keys broadcasted message data.
Proof.
  unfold round3_receive, dict_get.
  destruct (keys !! r2_sender_id message) as [k|] eqn:Ek; cbn [mbind result_bind];
    [|discriminate].
  destruct (code_to_pub k) as [P|e]; cbn [mbind result_bind]; [|discriminate].
  destruct (pub_to_code (pmul secret_key P)) as [c|e]; cbn [mbind result_bind];
    [|discriminate].
  destruct (generate_hkdf_key c) as [key|e]; cbn [mbind result_bind]; [|discriminate].
  destruct (decide (r2_receiver_id message = kg_node_id self)) as [Er|Hr].
  2:{ rewrite bool_decide_eq_false_2 by exact Hr. discriminate. }
  rewrite bool_decide_eq_true_2 by exact Er.
  destruct (decrypt (r2_data message) key) as [plain|e]; cbn [mbind result_bind];
    [|discriminate].
  destruct (json_loads_share plain) as [p|e]; cbn [mbind result_bind]; [|discriminate].
  destruct (kg_round1_broadcasted_data self) as [b|]; cbn [getattr mbind result_bind];
    [|discriminate].
  destruct (round3_check_loop self secret_key (r2_sender_id message) k (sp_f p) b [])
    as [cs|e] eqn:Ec; cbn [mbind result_bind]; [|discriminate].
  intros [= <-]. exists b. split; [reflexivity|].
  split; [exact Er|]. split; [eauto|].
  intros d Hd Hs. eapply round3_check_loop_passes; eauto.
Qed.

(** X17: whenever [round3] returns, the result is the successful one and
    the session is COMPLETED; every message was addressed to the node, came
    from a sender whose public key is known, and carried a share [f] for
    which [f * G] is the point that [calc_poly_point] computes from the
    public coefficients of every broadcast of that sender; the share of the
    key pair is the sum of the own fragment and of these shares. *)
Theorem round3_accepts_only_verified_shares (self after3 : KeyGen)
    (messages : list round2_data) (result : round3_result) :
  round3 self messages = Ok (after3, result) ->
  exists keys broadcasted payloads fx i Y public_share,
    kg_partners_public_keys self = Some keys /\
    kg_round1_broadcasted_data self = Some broadcasted /\
    kg_fx self = Some fx /\ py_int (kg_node_id self) = Ok i /\
    Forall2 (share_checked self keys broadcasted) messages payloads /\
    result = Round3Successful Y public_share
               (mkKeyPair (py_sum (evaluate fx i :: map sp_f payloads)) Y)
               (kg_key_type self) /\
    kg_status after3 = "COMPLETED"%string /\
    kg_dkg_key_pair after3
    = Some (mkKeyPair (py_sum (evaluate fx i :: map sp_f payloads)) Y).
Proof.
  unfold round3.
  destruct (getattr (kg_secret_key self)) as [sk|e]; cbn [mbind result_bind];
    [|discriminate].
  destruct (kg_partners_public_keys self) as [keys|]; cbn [getattr mbind result_bind];
    [|discriminate].
  destruct (round3_message_loop self sk keys messages [] []) as [received|e] eqn:E;
    cbn [mbind result_bind]; [|discriminate].
  apply round3_message_loop_iff in E. destruct E as (payloads & HF & ->).
  cbn [fst snd app length Nat.ltb Nat.leb].
  destruct (kg_fx self) as [fx|]; cbn [getattr mbind result_bind]; [|discriminate].
  destruct (py_int (kg_node_id self)) as [i|e]; cbn [mbind result_bind]; [|discriminate].
  destruct (getattr (kg_public_fx self)) as [own|e]; cbn [mbind result_bind];
    [|discriminate].
  destruct (py_index own 0) as [own0|e]; cbn [mbind result_bind]; [|discriminate].
  destruct (kg_round1_broadcasted_data self) as [b|] eqn:Eb;
    cbn [getattr mbind result_bind]; [|discriminate].
  destruct (round3_public_loop (kg_partners self) b [own0]) as [pfx|e];
    cbn [mbind result_bind]; [|discriminate].
  destruct (py_index pfx 0) as [pfx0|e]; cbn [mbind result_bind]; [|discriminate].
  cbv zeta.
  destruct (pub_to_code (fold_left padd (drop 1 pfx) pfx0)) as [Y|e];
    cbn [mbind result_bind]; [|discriminate].
  destruct (pub_to_code (get_public_key (py_sum (evaluate fx i :: map sp_f payloads))))
    as [ps|e]; cbn [mbind result_bind]; [|discriminate].
  intros [= <- <-].
  exists keys, b, payloads, fx, i, Y, ps.
  repeat split; try reflexivity.
  eapply Forall2_impl; [exact HF|]. intros m p Hmp. cbn beta in Hmp.
  destruct (round3_receive_checked _ _ _ _ _ Hmp) as (b' & Hb' & Hchk).
  rewrite Eb in Hb'. injection Hb' as <-. exact Hchk.
Qed.

End Round3Properties.

Section AfterKeyGeneration.
Context {curve : Fastecdsa} {hashes : Hashes} {crypto : Cryptography} {json : Json}
        {profiles : Profiles}.
Variables (dkg_id : string) (T : Z) (c0 : option coefficient0) (key_type : string).

Lemma reconstruct_after_dkg (ps sub : list participant) :
  1 <= T -> NoDup (map fst ps) -> Forall (good_participant T c0) ps ->
  Forall (fun p => p ∈ ps) sub ->
  distinct_mod N (map (fun p : participant => id_int p.1) sub) ->
  T <= Z.of_nat (length sub) ->
  reconstruct_share (map (fun p : participant => mkShare (id_int p.1) (share_of T c0 ps p)) sub)
    (length sub) 0
  = Ok (total_secret T c0 ps mod N).
Proof.
  intros HT Hnd Hgood Hin Hd Hlen.
  set (shares := map (fun p : participant => mkShare (id_int p.1) (share_of T c0 ps p)) sub).
  assert (Hl : length shares = length sub) by (unfold shares; apply length_map).
  rewrite <- Hl.
  rewrite (reconstruct_share_ok (mkPolynomial T (sum_poly T c0 ps))).
  - rewrite evaluate_poly_sum, poly_sum_horner. cbn [coefficients].
    rewrite sum_poly_at_0. reflexivity.
  - cbn [coefficients]. rewrite Hl.
    enough (length (sum_poly T c0 ps) <= Z.to_nat T)%nat by lia.
    apply length_sum_poly. eapply Forall_impl; [exact Hgood|]. intros p [_ Hp].
    destruct (good_random_poly T c0 p.2 Hp) as (Hf & _).
    rewrite (Polynomial_init_length T c0 _ _ HT Hf). lia.
  - unfold shares. rewrite map_map. exact Hd.
  - unfold shares. apply Forall_map. eapply Forall_impl; [exact Hin|].
    intros p Hp. cbn [share_key share_id].
    rewrite share_of_sum_poly, evaluate_poly_sum, poly_sum_horner by assumption.
    reflexivity.
Qed.

(** X18: after an honest key generation, [reconstruct_share] at 0 on the
    shares of any participants, at least [T] of them with identifiers that
    are distinct modulo [N], returns the discrete logarithm of the group
    key: the sum of the constant terms modulo [N], whose public key has the
    code that [round3] returned as [dkg_public_key]. *)
Theorem dkg_shares_reconstruct_group_key (party : list string)
    (rnd : nat -> round1_random) (ivs : nat -> nat -> Z) (sub : list participant) :
  let ps := parts party rnd 0 in
  1 <= T -> NoDup party -> Forall (good_participant T c0) ps ->
  total_secret T c0 ps mod N <> 0 ->
  Forall (fun p => share_of T c0 ps p mod N <> 0) ps ->
  Forall (fun p => p ∈ ps) sub ->
  distinct_mod N (map (fun p : participant => id_int p.1) sub) ->
  T <= Z.of_nat (length sub) ->
  exists secret,
    run_dkg dkg_id T party c0 key_type rnd ivs
    = Ok (map (fun p => (state3 dkg_id T c0 key_type ps p, result3 T c0 key_type ps p)) ps) /\
    reconstruct_share
      (map (fun p : participant => mkShare (id_int p.1) (share_of T c0 ps p)) sub)
      (length sub) 0 = Ok secret /\
    0 <= secret < N /\
    pub_to_code (get_public_key secret) = Ok (code (group_key T c0 ps)).
Proof.
  intros ps HT Hnd Hgood Htot Hsh Hin Hd Hlen. pose proof N_gt_1 as HN.
  exists (total_secret T c0 ps mod N).
  split; [apply run_dkg_honest; assumption|]. split.
  - apply reconstruct_after_dkg; try assumption.
    unfold ps. rewrite map_fst_parts. exact Hnd.
  - split; [apply Z.mod_pos_bound; lia|].
    unfold get_public_key, group_key. rewrite pmul_G_mod.
    apply pub_to_code_ok, pmul_G_not_identity, Htot.
Qed.

(** X19: the dictionary that [round3] stores in [self.dkg_key_pair] has no
    entry ["key_type"]: after an honest key generation, [Key] on this
    dictionary, as the test builds it, raises [KeyError] for every
    participant, while it returns the key when the entry is added. *)
Theorem key_of_dkg_key_pair_raises (party : list string)
    (rnd : nat -> round1_random) (ivs : nat -> nat -> Z) :
  let ps := parts party rnd 0 in
  NoDup party -> Forall (good_participant T c0) ps ->
  total_secret T c0 ps mod N <> 0 ->
  Forall (fun p => share_of T c0 ps p mod N <> 0) ps ->
  exists results,
    run_dkg dkg_id T party c0 key_type rnd ivs = Ok results /\
    Forall (fun done : KeyGen * round3_result =>
              make_sign_key done.1 = Raise "KeyError" /\
              exists pair,
                kg_dkg_key_pair done.1 = Some pair /\
                Key_init (mkKeyDict (kp_share pair) (kp_dkg_public_key pair)
                            (Some key_type)) (kg_node_id done.1)
                = Ok (mkKey (kp_share pair) (group_key T c0 ps) (kg_node_id done.1)
                        key_type)) results.
Proof.
  intros ps Hnd Hgood Htot Hsh.
  exists (map (fun p => (state3 dkg_id T c0 key_type ps p, result3 T c0 key_type ps p)) ps).
  split; [apply run_dkg_honest; assumption|].
  apply Forall_map, Forall_forall. intros p _. cbn [fst].
  assert (HY : group_key T c0 ps <> IDENTITY) by (apply pmul_G_not_identity, Htot).
  unfold make_sign_key, state3, Key_init.
  cbn [kg_dkg_key_pair getattr mbind result_bind kp_share kp_dkg_public_key kg_node_id
       kd_dkg_public_key kd_key_type kd_share].
  rewrite code_to_pub_code by exact HY. cbn [mbind result_bind].
  split; [reflexivity|]. eexists. split; [reflexivity|].
  cbn [kp_share kp_dkg_public_key]. rewrite code_to_pub_code by exact HY. reflexivity.
Qed.

(** X20: with the draws of an honest participant, [round1] leaves the
    session in the state ROUND1 and returns a broadcast that carries the
    codes of the public coefficients and passes the two verifications of
    proofs of possession that [round2] makes on it. *)
Theorem round1_broadcast_passes_round2_checks (node_id : string)
    (partners : list string) (r : round1_random) :
  good_random T c0 r ->
  exists after1 d c,
    round1 (KeyGen_init dkg_id T node_id partners c0 key_type) r = Ok (after1, d) /\
    kg_status after1 = "ROUND1"%string /\
    r1_sender_id d = node_id /\ r1_key_type d = key_type /\
    traverse code_to_pub (r1_public_fx d) = Ok (coef_pub_keys (poly_of T c0 r)) /\
    kg_public_fx after1 = Some (coef_pub_keys (poly_of T c0 r)) /\
    py_index (r1_public_fx d) 0 = Ok c /\
    verify_pop node_id dkg_id c (r1_coefficient0_signature d) = Ok true /\
    verify_pop node_id dkg_id (r1_public_key d) (r1_secret_signature d) = Ok true.
Proof.
  intros Hr.
  pose proof (round1_honest dkg_id T c0 key_type partners (node_id, r) Hr) as H1.
  cbn [fst snd] in H1.
  pose proof (good_random_a0 T c0 r Hr) as Ha0.
  pose proof Hr as (Hsk & Hsn & Hcn & _).
  exists (state1 dkg_id T c0 key_type partners (node_id, r)),
         (bcast dkg_id T c0 key_type (node_id, r)), (code (pmul (a0 T c0 r) G)).
  split; [exact H1|]. unfold bcast, state1.
  cbn [kg_status kg_public_fx r1_sender_id r1_key_type r1_public_fx
       r1_coefficient0_signature r1_public_key r1_secret_signature fst snd].
  repeat split; try reflexivity.
  - apply coef_pub_keys_decode, Hr.
  - apply py_index_ok. change (map code ?l) with (code <$> l).
    rewrite list_lookup_fmap, (coef_pub_keys_head T c0 r Hr). reflexivity.
  - unfold coef0_pop. cbn [fst snd]. apply verify_pop_of; assumption.
  - unfold pk, sk. apply verify_pop_of; assumption.
Qed.

Lemma fold_right_padd_G (zs : list Z) :
  fold_right padd IDENTITY (map (fun a => pmul a G) zs) = pmul (fold_right Z.add 0 zs) G.
Proof.
  induction zs as [|z zs IH]; cbn [map fold_right]; [symmetry; apply pmul_0_G|].
  rewrite IH, <- pmul_add. reflexivity.
Qed.

(** X21: after an honest key generation, the [public_share] that [round3]
    returns to a participant is the code of the sum of the points that
    [calc_poly_point] computes, at the identifier of the participant, on
    the public coefficients of every broadcast of round 1: it can be
    computed from the broadcasts alone. *)
Theorem public_share_from_broadcasts (party : list string)
    (rnd : nat -> round1_random) (ivs : nat -> nat -> Z) :
  let ps := parts party rnd 0 in
  NoDup party -> Forall (good_participant T c0) ps ->
  total_secret T c0 ps mod N <> 0 ->
  Forall (fun p => share_of T c0 ps p mod N <> 0) ps ->
  exists results,
    run_dkg dkg_id T party c0 key_type rnd ivs = Ok results /\
    Forall (fun done : KeyGen * round3_result =>
              exists broadcasts i points Y public_share key_pair,
                kg_round1_broadcasted_data done.1 = Some broadcasts /\
                py_int (kg_node_id done.1) = Ok i /\
                traverse (fun d => coefs ← traverse code_to_pub (r1_public_fx d);
                                   calc_poly_point coefs i) broadcasts = Ok points /\
                done.2 = Round3Successful Y public_share key_pair key_type /\
                pub_to_code (fold_right padd IDENTITY points) = Ok public_share) results.
Proof.
  intros ps Hnd Hgood Htot Hsh.
  assert (Hnd' : NoDup (map fst ps)) by (unfold ps; rewrite map_fst_parts; exact Hnd).
  exists (map (fun p => (state3 dkg_id T c0 key_type ps p, result3 T c0 key_type ps p)) ps).
  split; [apply run_dkg_honest; assumption|].
  apply Forall_map, Forall_forall. intros p Hp. cbn [fst snd].
  rewrite Forall_forall in Hgood, Hsh.
  exists (map (bcast dkg_id T c0 key_type) ps), (id_int p.1),
         (map (fun s : participant => pmul (share_for T c0 s p) G) ps).
  eexists _, _, _. unfold state3, result3.
  cbn [kg_round1_broadcasted_data kg_node_id].
  split; [reflexivity|]. split; [apply (id_int_ok T c0), Hgood, Hp|].
  split; [|split; [reflexivity|]].
  - rewrite traverse_map.
    apply traverse_map_ok, Forall_forall. intros s Hs.
    destruct (Hgood s Hs) as [_ Hr].
    unfold bcast. cbn [r1_public_fx].
    rewrite coef_pub_keys_decode by exact Hr. cbn [mbind result_bind].
    destruct (good_random_poly T c0 s.2 Hr) as (_ & Hne & _).
    rewrite calc_poly_point_evaluate by exact Hne. reflexivity.
  - rewrite <- (map_map (fun s : participant => share_for T c0 s p)
                  (fun a => pmul a G)), fold_right_padd_G.
    rewrite (sum_split_participant _ ps p) by assumption.
    assert (Hshare : share_of T c0 ps p
                     = share_for T c0 p p
                       + fold_right Z.add 0
                           (map (fun s : participant => share_for T c0 s p) (others p ps)))
      by (unfold share_of; rewrite py_sum_fold; reflexivity).
    rewrite <- Hshare.
    apply pub_to_code_ok, pmul_G_not_identity, Hsh, Hp.
Qed.

End AfterKeyGeneration.

(** * Further properties of the signing functions *)

Ltac bind_head :=
  lazymatch goal with
  | |- (mbind _ ?r = _) -> _ =>
      let E := fresh "E" in
      destruct r eqn:E; cbn [mbind result_bind]; [|discriminate]
  end.

Section SigningProperties.
Context {curve : Fastecdsa} {hashes : Hashes} {crypto : Cryptography} {json : Json}
        {profiles : Profiles}.

Lemma single_sign_loop_aggregate id message_bytes nonces_hash nonces :
  forall idx aggregated my_row index looped,
    single_sign_loop id message_bytes nonces_hash nonces idx aggregated my_row index
    = Ok looped ->
    aggregate_nonce_loop message_bytes nonces_hash nonces aggregated = Ok looped.1.1.
Proof.
  induction nonces as [|nonce rest IH]; intros idx aggregated my_row index looped.
  - cbn. intros [= <-]. reflexivity.
  - cbn [single_sign_loop aggregate_nonce_loop].
    destruct (code_to_pub (public_nonce_d nonce)) as [D|e]; cbn [mbind result_bind];
      [|discriminate].
    destruct (code_to_pub (public_nonce_e nonce)) as [E|e]; cbn [mbind result_bind];
      [|discriminate].
    destruct (is_point_on_curve (px D) (py D)); [|discriminate].
    destruct (is_point_on_curve (px E) (py E)); [|discriminate].
    destruct (row_hash (nc_id nonce) message_bytes nonces_hash) as [row|e];
      cbn [mbind result_bind]; [|discriminate].
    destruct (bool_decide (id = nc_id nonce)); apply IH.
Qed.

(** X22: whenever [single_sign] returns a signature share, the key type
    is ETH or BTC, [aggregate_nonce] on the same message and commitments
    returns a point, and the [aggregated_public_nonce] of the share is the
    code of that point; the share carries the [id] and the [key_type] that
    were passed. *)
Theorem single_sign_nonce_is_aggregate_nonce (id share nonce_d nonce_e : Z)
    (message : string) (nonces_dict : list (string * nonce_commitment))
    (group_key : Z) (key_type : string) (sh : signature_share) :
  single_sign id share nonce_d nonce_e message nonces_dict group_key key_type = Ok sh ->
  (key_type = "ETH"%string \/ key_type = "BTC"%string) /\
  exists R,
    aggregate_nonce message nonces_dict = Ok (Some R) /\
    pub_to_code R = Ok (ss_aggregated_public_nonce sh) /\
    ss_id sh = id /\ ss_key_type sh = key_type.
Proof.
  unfold single_sign. bind_head. bind_head. bind_head.
  assert (Hkt : key_type = "ETH"%string \/ key_type = "BTC"%string \/
                (key_type <> "ETH"%string /\ key_type <> "BTC"%string)).
  { destruct (decide (key_type = "ETH"%string)); [auto|].
    destruct (decide (key_type = "BTC"%string)); auto. }
  destruct Hkt as [Hkt|[Hkt|[Hne Hnb]]].
  3:{ rewrite !bool_decide_eq_false_2 by assumption. cbn [mbind result_bind].
      discriminate. }
  all: bind_head; bind_head; bind_head; bind_head; intros [= <-];
    (split; [auto|]);
    match goal with
    | H : the_point ?agg = Ok ?R |- _ =>
        exists R; destruct agg as [R'|] eqn:Eagg; [|discriminate H];
        injection H as ->
    end;
    cbn [ss_aggregated_public_nonce ss_id ss_key_type];
    (split; [|split; [assumption | split; reflexivity]]);
    unfold aggregate_nonce;
    match goal with
    | H : single_sign_loop _ _ _ _ _ _ _ _ = Ok _ |- _ =>
        rewrite (single_sign_loop_aggregate _ _ _ _ _ _ _ _ _ H), Eagg; reflexivity
    end.
Qed.

(** The commitment and the private pair of [create_nonces] for the draws
    [d] and [e]. *)
Definition nonce_public_of (node_id : Z) (de : Z * Z) : nonce_commitment :=
  mkCommitment node_id (code (pmul de.1 G)) (code (pmul de.2 G)).

Definition nonce_private_of (de : Z * Z) : nonce_private :=
  mkNoncePrivate (code (pmul de.1 G)) de.1 (code (pmul de.2 G)) de.2.

Lemma create_nonces_loop_ok (node_id : Z) (gen : nat -> Z * Z) (count : nat) :
  forall i,
    (forall k, (i <= k < i + count)%nat -> (gen k).1 mod N <> 0 /\ (gen k).2 mod N <> 0) ->
    create_nonces_loop node_id gen i count
    = Ok (map (fun k => nonce_public_of node_id (gen k)) (seq i count),
          map (fun k => nonce_private_of (gen k)) (seq i count)).
Proof.
  induction count as [|count IH]; intros i Hgen; [reflexivity|].
  cbn [create_nonces_loop seq map]. unfold get_public_key.
  destruct (Hgen i ltac:(lia)) as [Hd He].
  rewrite !pub_to_code_ok by (apply pmul_G_not_identity; assumption).
  cbn [mbind result_bind]. rewrite IH by (intros k Hk; apply Hgen; lia).
  reflexivity.
Qed.

(** X23: with draws that are not multiples of [N], [create_nonces]
    returns [number_of_nonces] commitments and as many private pairs, in
    the same order; every commitment carries [node_id] and the codes of its
    private pair, and [code_to_pub] maps these codes to [d * G] and
    [e * G]. *)
Theorem create_nonces_consistent (node_id : Z) (number_of_nonces : nat)
    (gen : nat -> Z * Z) :
  (forall k, (k < number_of_nonces)%nat -> (gen k).1 mod N <> 0 /\ (gen k).2 mod N <> 0) ->
  exists publics privates,
    create_nonces node_id number_of_nonces gen = Ok (publics, privates) /\
    length publics = number_of_nonces /\ length privates = number_of_nonces /\
    Forall2 (fun c p =>
               nc_id c = node_id /\
               public_nonce_d c = np_public_d p /\ public_nonce_e c = np_public_e p /\
               code_to_pub (np_public_d p) = Ok (get_public_key (np_d p)) /\
               code_to_pub (np_public_e p) = Ok (get_public_key (np_e p)))
      publics privates.
Proof.
  intros Hgen. eexists _, _. split.
  - unfold create_nonces. apply create_nonces_loop_ok. intros k Hk. apply Hgen. lia.
  - rewrite !length_map, !length_seq. split; [reflexivity|]. split; [reflexivity|].
    apply Forall2_fmap, Forall_Forall2_diag, Forall_forall. intros k Hk.
    apply elem_of_seq in Hk. destruct (Hgen k ltac:(lia)) as [Hd He].
    unfold nonce_public_of, nonce_private_of, get_public_key.
    cbn [nc_id public_nonce_d public_nonce_e np_public_d np_public_e np_d np_e].
    rewrite !code_to_pub_code by (apply pmul_G_not_identity; assumption).
    repeat split; reflexivity.
Qed.

(** X24: for a nonce and a group key other than the point at infinity,
    [aggregate_signatures] returns a dictionary whose signature is the sum
    of the signature shares reduced modulo [N], whose [nonce] is the address
    of the aggregated nonce, and whose [public_nonce] and [public_key]
    decompress to the aggregated nonce and to the group key. *)
Theorem aggregate_signatures_fields (message : string)
    (single_signatures : list signature_share) (R Y : point) (key_type : string) :
  R <> IDENTITY -> Y <> IDENTITY ->
  exists gs,
    aggregate_signatures message single_signatures R (code Y) key_type = Ok gs /\
    gs_signature gs = py_sum (map ss_signature single_signatures) mod N /\
    0 <= gs_signature gs < N /\
    pub_to_addr R = Ok (gs_nonce gs) /\
    pub_decompress (gs_public_nonce gs) = Ok R /\
    pub_decompress (gs_public_key gs) = Ok Y /\
    gs_message gs = message /\ gs_key_type gs = key_type.
Proof.
  intros HR HY. unfold aggregate_signatures.
  destruct (pub_to_addr_ok R) as (body & Haddr & _). rewrite Haddr.
  cbn [mbind result_bind].
  destruct (pub_compress_roundtrip R HR) as [HcR HdR].
  destruct (pub_compress_roundtrip Y HY) as [HcY HdY].
  rewrite HcR. cbn [mbind result_bind].
  rewrite code_to_pub_code by exact HY. cbn [mbind result_bind].
  rewrite HcY. cbn [mbind result_bind].
  eexists. split; [reflexivity|].
  cbn [gs_signature gs_nonce gs_public_nonce gs_public_key gs_message gs_key_type].
  repeat split; try assumption; try reflexivity.
  all: apply Z.mod_pos_bound; pose proof N_gt_1; lia.
Qed.

(** X25: for commitments published for nonce pairs [(d, e)] that are not
    multiples of [N], with identifiers of at most 32 bytes,
    [aggregate_nonce] returns the point [sum (d + rho * e) * G], where
    [rho] is the integer of the hash of the row of the commitment; for no
    commitment at all it returns [None]. *)
Theorem aggregate_nonce_value (message : string) (ss : list signer) :
  Forall good_signer ss ->
  aggregate_nonce message (commitments ss)
  = Ok (if decide (ss = []) then None
        else Some (pmul (fold_right Z.add 0
                           (map (fun s => signer_nonce_d s
                                          + rho (str_encode message) (subset_hash ss)
                                              (signer_id s) * signer_nonce_e s) ss)) G)).
Proof.
  intros Hss. unfold aggregate_nonce. rewrite map_snd_commitments.
  fold (subset_hash ss). rewrite aggregate_nonce_loop_ok by exact Hss.
  destruct (decide (ss = [])) as [->|Hne]; [reflexivity|].
  rewrite aggregated_after_none by exact Hne. reflexivity.
Qed.

End SigningProperties.

(** * The further properties on the toy instance *)

Section FurtherRuns.
Import Toy.

Lemma code_to_pub_inverts_pub_to_code_witness :
  exists c, pub_to_code (pmul 3 G) = Ok c /\ 2 * 256 ^ 32 <= c < 4 * 256 ^ 32 /\
            code_to_pub c = Ok (pmul 3 G).
Proof.
  apply (code_to_pub_inverts_pub_to_code (pmul 3 G)).
  apply pmul_G_not_identity. vm_compute. discriminate.
Defined.

Lemma pub_decompress_inverts_pub_compress_witness :
  exists cp, pub_compress (pmul 3 G) = Ok cp /\
             (cp_y_parity cp = 0 \/ cp_y_parity cp = 1) /\
             str_take 2 (cp_x cp) = "0x"%string /\
             pub_decompress cp = Ok (pmul 3 G).
Proof.
  apply (pub_decompress_inverts_pub_compress (pmul 3 G)).
  apply pmul_G_not_identity. vm_compute. discriminate.
Defined.

Lemma split_signature_inverts_stringify_witness :
  length (chars (stringify_signature (mkSignature 5 9))) = 130%nat /\
  split_signature (stringify_signature (mkSignature 5 9)) = Ok (mkSignature 5 9).
Proof.
  apply (split_signature_inverts_stringify (mkSignature 5 9)); simpl; lia.
Defined.

Lemma schnorr_sign_then_verify_witness :
  exists sg, schnorr_sign 3 5 (pmul 5 G) 11 = Ok sg /\
             0 <= sig_s sg < N /\ 0 <= sig_e sg < 2 ^ 256 /\
             schnorr_verify (pmul 3 G) 11 (stringify_signature sg) = Ok true.
Proof. apply (schnorr_sign_then_verify 3 5 11). lia. Defined.

Lemma schnorr_verify_rejects_by_assertion_witness :
  schnorr_verify (pmul 3 G) 11 "0x12" = Raise "AssertionError" /\
  ascii_string (stringify_signature (mkSignature 7 1)) /\
  schnorr_verify (pmul 3 G) 11 (stringify_signature (mkSignature 7 1))
  = Raise "AssertionError".
Proof.
  destruct (schnorr_verify_rejects_by_assertion (pmul 3 G) 11) as [Hlength Hreduced].
  split.
  - apply (Hlength "0x12"%string); [|simpl; lia].
    apply (bool_decide_unpack _). vm_compute. exact I.
  - apply (Hreduced 7 1); vm_compute; (split; [discriminate | reflexivity]).
Defined.

Lemma generate_hkdf_key_total_on_codes_witness :
  exists c k, pub_to_code (pmul 3 G) = Ok c /\ decimal_digits c = 78%nat /\
              generate_hkdf_key c = Ok k /\ length k = 32%nat.
Proof.
  apply (generate_hkdf_key_total_on_codes (pmul 3 G)).
  apply pmul_G_not_identity. vm_compute. discriminate.
Defined.

Lemma joint_key_agreement_witness :
  exists pub_a pub_b key,
    pub_to_code (get_public_key 3) = Ok pub_a /\
    pub_to_code (get_public_key 5) = Ok pub_b /\
    joint_key 3 pub_b = Ok key /\ joint_key 5 pub_a = Ok key /\
    length key = 32%nat /\
    forall (payload : share_payload) (iv : Z),
      (plain ← decrypt (encrypt (DataShare payload) key iv) key; json_loads_share plain)
      = Ok payload.
Proof. apply (joint_key_agreement 3 5); vm_compute; discriminate. Defined.

Lemma mod_inverse_not_coprime_raises_witness :
  mod_inverse 4 6 = Raise "ZeroDivisionError".
Proof.
  apply (mod_inverse_not_coprime_raises 4 6); [lia | vm_compute; discriminate..].
Defined.

Lemma langrange_coef_at_identifiers_witness :
  exists c, langrange_coef 1 3 [1; 2; 3] 1 = Ok c /\ c mod N = 0.
Proof.
  apply (langrange_coef_at_identifiers [1; 2; 3] 0 1).
  - apply (bool_decide_unpack _). vm_compute. exact I.
  - simpl. lia.
  - simpl. lia.
Defined.

Lemma schnorr_aggregate_signatures_signs_witness :
  exists signatures sg,
    traverse (fun id => schnorr_sign (evaluate (mkPolynomial 2 [3; 4]) id)
                          (evaluate (mkPolynomial 2 [5; 6]) id)
                          (pmul (evaluate (mkPolynomial 2 [5; 6]) 0) G) 11) [1; 2]
    = Ok signatures /\
    schnorr_aggregate_signatures 2 signatures [1; 2] = Ok sg /\
    schnorr_sign (evaluate (mkPolynomial 2 [3; 4]) 0) (evaluate (mkPolynomial 2 [5; 6]) 0)
      (pmul (evaluate (mkPolynomial 2 [5; 6]) 0) G) 11 = Ok sg /\
    schnorr_verify (pmul (evaluate (mkPolynomial 2 [3; 4]) 0) G) 11
      (stringify_signature sg) = Ok true.
Proof.
  destruct (is_ok_true
              (traverse (fun id => schnorr_sign (evaluate (mkPolynomial 2 [3; 4]) id)
                                     (evaluate (mkPolynomial 2 [5; 6]) id)
                                     (pmul (evaluate (mkPolynomial 2 [5; 6]) 0) G) 11)
                 [1; 2]))
    as [signatures E]; [vm_compute; reflexivity|].
  exists signatures.
  destruct (schnorr_aggregate_signatures_signs (mkPolynomial 2 [3; 4])
              (mkPolynomial 2 [5; 6]) [1; 2] 11 signatures) as [sg H].
  - lia.
  - discriminate.
  - apply (bool_decide_unpack _). vm_compute. exact I.
  - simpl. lia.
  - simpl. lia.
  - exact E.
  - exists sg. split; [exact E | exact H].
Defined.

(** The participants of the toy run. *)
Lemma toy_parts_NoDup : NoDup (map fst (parts toy_party toy_rnd 0)).
Proof. rewrite map_fst_parts. exact toy_party_NoDup. Qed.

Lemma toy_first_in : ("1"%string, toy_rnd 0) ∈ parts toy_party toy_rnd 0.
Proof. repeat constructor. Qed.

Lemma toy_round3_first :
  round3 (state2 "7" 2 None "ETH" (parts toy_party toy_rnd 0) ("1"%string, toy_rnd 0))
    [message_to 2 None ("2"%string, toy_rnd 1) ("1"%string, toy_rnd 0) 0;
     message_to 2 None ("3"%string, toy_rnd 2) ("1"%string, toy_rnd 0) 0]
  = Ok (state3 "7" 2 None "ETH" (parts toy_party toy_rnd 0) ("1"%string, toy_rnd 0),
        result3 2 None "ETH" (parts toy_party toy_rnd 0) ("1"%string, toy_rnd 0)).
Proof.
  apply (round3_honest "7" 2 None "ETH" (parts toy_party toy_rnd 0)
           ("1"%string, toy_rnd 0)
           [(("2"%string, toy_rnd 1), 0); (("3"%string, toy_rnd 2), 0)]).
  - exact toy_parts_NoDup.
  - exact toy_party_good.
  - exact toy_first_in.
  - reflexivity.
  - exact toy_total_nonzero.
  - vm_compute. discriminate.
Qed.

(** The broadcast of the participant "2" with another nonce in the proof
    of possession of the secret key. *)
Definition toy_bad_broadcast : round1_data :=
  let d := bcast "7" 2 None "ETH" ("2"%string, toy_rnd 1) in
  mkRound1 (r1_sender_id d) (r1_public_fx d) (r1_coefficient0_signature d)
    (r1_public_key d)
    (mkPop (pop_nonce (r1_secret_signature d) + 1) (pop_sig (r1_secret_signature d)))
    (r1_key_type d).

Lemma round2_sends_one_share_per_partner_witness :
  exists after2 messages,
    round2 (state1 "7" 2 None "ETH" ["2"; "3"]%string ("1"%string, toy_rnd 0))
      [bcast "7" 2 None "ETH" ("1"%string, toy_rnd 0); toy_bad_broadcast;
       bcast "7" 2 None "ETH" ("3"%string, toy_rnd 2)] (toy_ivs 0)
    = Ok (after2, messages) /\
    map r2_receiver_id messages = ["3"%string] /\
    kg_status after2 = "ROUND2"%string /\
    kg_round1_broadcasted_data after2
    = Some [bcast "7" 2 None "ETH" ("1"%string, toy_rnd 0); toy_bad_broadcast;
            bcast "7" 2 None "ETH" ("3"%string, toy_rnd 2)] /\
    kg_partners after2
    = filter (fun id => id ∉ map mal_id (kg_malicious after2)) ["2"; "3"]%string /\
    map r2_receiver_id messages = kg_partners after2 /\
    Forall (fun m => r2_sender_id m = "1"%string) messages /\
    Forall (fun id => exists d,
                d ∈ [bcast "7" 2 None "ETH" ("1"%string, toy_rnd 0); toy_bad_broadcast;
                     bcast "7" 2 None "ETH" ("3"%string, toy_rnd 2)]
                /\ r1_sender_id d = id) (kg_partners after2) /\
    Forall (fun entry =>
              entry ∈ [] \/
              failed_proof "1" "7"
                [bcast "7" 2 None "ETH" ("1"%string, toy_rnd 0); toy_bad_broadcast;
                 bcast "7" 2 None "ETH" ("3"%string, toy_rnd 2)] entry)
      (kg_malicious after2).
Proof.
  destruct (is_ok_true
              (round2 (state1 "7" 2 None "ETH" ["2"; "3"]%string ("1"%string, toy_rnd 0))
                 [bcast "7" 2 None "ETH" ("1"%string, toy_rnd 0); toy_bad_broadcast;
                  bcast "7" 2 None "ETH" ("3"%string, toy_rnd 2)] (toy_ivs 0)))
    as [[after2 messages] E]; [vm_compute; reflexivity|].
  exists after2, messages. split; [exact E|]. split.
  - assert (H : match round2 (state1 "7" 2 None "ETH" ["2"; "3"]%string
                                ("1"%string, toy_rnd 0))
                        [bcast "7" 2 None "ETH" ("1"%string, toy_rnd 0); toy_bad_broadcast;
                         bcast "7" 2 None "ETH" ("3"%string, toy_rnd 2)] (toy_ivs 0) with
                | Ok r => map r2_receiver_id r.2
                | Raise _ => []
                end = ["3"%string]) by (vm_compute; reflexivity).
    rewrite E in H. exact H.
  - apply (round2_sends_one_share_per_partner
             (state1 "7" 2 None "ETH" ["2"; "3"]%string ("1"%string, toy_rnd 0)) after2
             [bcast "7" 2 None "ETH" ("1"%string, toy_rnd 0); toy_bad_broadcast;
              bcast "7" 2 None "ETH" ("3"%string, toy_rnd 2)] (toy_ivs 0) messages).
    + apply (bool_decide_unpack _). vm_compute. exact I.
    + exact E.
Defined.

Lemma round2_excludes_failed_proof_witness :
  exists after2 messages,
    round2 (state1 "7" 2 None "ETH" ["2"; "3"]%string ("1"%string, toy_rnd 0))
      [bcast "7" 2 None "ETH" ("1"%string, toy_rnd 0); toy_bad_broadcast;
       bcast "7" 2 None "ETH" ("3"%string, toy_rnd 2)] (toy_ivs 0)
    = Ok (after2, messages) /\
    (mkMalicious "2" toy_bad_broadcast ∈ kg_malicious after2) /\
    ("2"%string ∉ kg_partners after2) /\
    ("2"%string ∉ map r2_receiver_id messages).
Proof.
  destruct (is_ok_true
              (round2 (state1 "7" 2 None "ETH" ["2"; "3"]%string ("1"%string, toy_rnd 0))
                 [bcast "7" 2 None "ETH" ("1"%string, toy_rnd 0); toy_bad_broadcast;
                  bcast "7" 2 None "ETH" ("3"%string, toy_rnd 2)] (toy_ivs 0)))
    as [[after2 messages] E]; [vm_compute; reflexivity|].
  exists after2, messages. split; [exact E|].
  eapply (round2_excludes_failed_proof
            (state1 "7" 2 None "ETH" ["2"; "3"]%string ("1"%string, toy_rnd 0)) after2
            [bcast "7" 2 None "ETH" ("1"%string, toy_rnd 0); toy_bad_broadcast;
             bcast "7" 2 None "ETH" ("3"%string, toy_rnd 2)] (toy_ivs 0) messages
            toy_bad_broadcast).
  - apply (bool_decide_unpack _). vm_compute. exact I.
  - apply list_elem_of_further, list_elem_of_here.
  - discriminate.
  - vm_compute. reflexivity.
  - right. vm_compute. reflexivity.
  - exact E.
Defined.

Lemma round3_order_independent_witness :
  exists self messages done,
    round3 self messages = Ok done /\ round3 self (rev messages) = Ok done /\
    rev messages <> messages.
Proof.
  eexists _, _, _. split; [exact toy_round3_first|]. split.
  - apply (round3_order_independent _ _ _ _ (Permutation_rev _) toy_round3_first).
  - vm_compute. discriminate.
Defined.

Lemma round3_accepts_only_verified_shares_witness :
  exists self after3 messages result,
    round3 self messages = Ok (after3, result) /\
    exists keys broadcasted payloads fx i Y public_share,
      kg_partners_public_keys self = Some keys /\
      kg_round1_broadcasted_data self = Some broadcasted /\
      kg_fx self = Some fx /\ py_int (kg_node_id self) = Ok i /\
      Forall2 (share_checked self keys broadcasted) messages payloads /\
      result = Round3Successful Y public_share
                 (mkKeyPair (py_sum (evaluate fx i :: map sp_f payloads)) Y)
                 (kg_key_type self) /\
      kg_status after3 = "COMPLETED"%string /\
      kg_dkg_key_pair after3
      = Some (mkKeyPair (py_sum (evaluate fx i :: map sp_f payloads)) Y).
Proof.
  eexists _, _, _, _. split; [exact toy_round3_first|].
  exact (round3_accepts_only_verified_shares _ _ _ _ toy_round3_first).
Defined.

Lemma dkg_shares_reconstruct_group_key_witness :
  exists secret,
    run_dkg "7" 2 toy_party None "ETH" toy_rnd toy_ivs
    = Ok (map (fun p => (state3 "7" 2 None "ETH" (parts toy_party toy_rnd 0) p,
                         result3 2 None "ETH" (parts toy_party toy_rnd 0) p))
            (parts toy_party toy_rnd 0)) /\
    reconstruct_share
      (map (fun p : participant =>
              mkShare (id_int p.1) (share_of 2 None (parts toy_party toy_rnd 0) p))
         [("1"%string, toy_rnd 0); ("3"%string, toy_rnd 2)]) 2 0 = Ok secret /\
    0 <= secret < N /\
    pub_to_code (get_public_key secret)
    = Ok (code (group_key 2 None (parts toy_party toy_rnd 0))).
Proof.
  apply (dkg_shares_reconstruct_group_key "7" 2 None "ETH" toy_party toy_rnd toy_ivs
           [("1"%string, toy_rnd 0); ("3"%string, toy_rnd 2)]).
  - lia.
  - exact toy_party_NoDup.
  - exact toy_party_good.
  - exact toy_total_nonzero.
  - exact toy_shares_nonzero.
  - repeat constructor.
  - apply (bool_decide_unpack _). vm_compute. exact I.
  - simpl. lia.
Defined.

Lemma key_of_dkg_key_pair_raises_witness :
  exists results,
    run_dkg "7" 2 toy_party None "ETH" toy_rnd toy_ivs = Ok results /\
    Forall (fun done : KeyGen * round3_result =>
              make_sign_key done.1 = Raise "KeyError" /\
              exists pair,
                kg_dkg_key_pair done.1 = Some pair /\
                Key_init (mkKeyDict (kp_share pair) (kp_dkg_public_key pair)
                            (Some "ETH"%string)) (kg_node_id done.1)
                = Ok (mkKey (kp_share pair) (group_key 2 None (parts toy_party toy_rnd 0))
                        (kg_node_id done.1) "ETH")) results.
Proof.
  apply (key_of_dkg_key_pair_raises "7" 2 None "ETH" toy_party toy_rnd toy_ivs).
  - exact toy_party_NoDup.
  - exact toy_party_good.
  - exact toy_total_nonzero.
  - exact toy_shares_nonzero.
Defined.

Lemma round1_broadcast_passes_round2_checks_witness :
  exists after1 d c,
    round1 (KeyGen_init "7" 2 "1" ["2"; "3"]%string None "ETH") (toy_rnd 0)
    = Ok (after1, d) /\
    kg_status after1 = "ROUND1"%string /\
    r1_sender_id d = "1"%string /\ r1_key_type d = "ETH"%string /\
    traverse code_to_pub (r1_public_fx d) = Ok (coef_pub_keys (poly_of 2 None (toy_rnd 0))) /\
    kg_public_fx after1 = Some (coef_pub_keys (poly_of 2 None (toy_rnd 0))) /\
    py_index (r1_public_fx d) 0 = Ok c /\
    verify_pop "1" "7" c (r1_coefficient0_signature d) = Ok true /\
    verify_pop "1" "7" (r1_public_key d) (r1_secret_signature d) = Ok true.
Proof.
  apply (round1_broadcast_passes_round2_checks "7" 2 None "ETH" "1" ["2"; "3"]%string
           (toy_rnd 0)).
  exact (proj2 (Forall_inv toy_party_good)).
Defined.

Lemma public_share_from_broadcasts_witness :
  exists results,
    run_dkg "7" 2 toy_party None "ETH" toy_rnd toy_ivs = Ok results /\
    Forall (fun done : KeyGen * round3_result =>
              exists broadcasts i points Y public_share key_pair,
                kg_round1_broadcasted_data done.1 = Some broadcasts /\
                py_int (kg_node_id done.1) = Ok i /\
                traverse (fun d => coefs ← traverse code_to_pub (r1_public_fx d);
                                   calc_poly_point coefs i) broadcasts = Ok points /\
                done.2 = Round3Successful Y public_share key_pair "ETH" /\
                pub_to_code (fold_right padd IDENTITY points) = Ok public_share) results.
Proof.
  apply (public_share_from_broadcasts "7" 2 None "ETH" toy_party toy_rnd toy_ivs).
  - exact toy_party_NoDup.
  - exact toy_party_good.
  - exact toy_total_nonzero.
  - exact toy_shares_nonzero.
Defined.

Lemma single_sign_nonce_is_aggregate_nonce_witness :
  exists sh,
    single_sign 3 33 6 1 "Hello Frost" (commitments toy_single)
      (code (group_key 2 None (parts toy_party toy_rnd 0))) "ETH" = Ok sh /\
    ("ETH"%string = "ETH"%string \/ "ETH"%string = "BTC"%string) /\
    exists R,
      aggregate_nonce "Hello Frost" (commitments toy_single) = Ok (Some R) /\
      pub_to_code R = Ok (ss_aggregated_public_nonce sh) /\
      ss_id sh = 3 /\ ss_key_type sh = "ETH"%string.
Proof.
  destruct (is_ok_true
              (single_sign 3 33 6 1 "Hello Frost" (commitments toy_single)
                 (code (group_key 2 None (parts toy_party toy_rnd 0))) "ETH"))
    as [sh E]; [vm_compute; reflexivity|].
  exists sh. split; [exact E|].
  exact (single_sign_nonce_is_aggregate_nonce _ _ _ _ _ _ _ _ _ E).
Defined.

Lemma create_nonces_consistent_witness :
  exists publics privates,
    create_nonces 3 2 (fun k => (Z.of_nat k + 1, Z.of_nat k + 2)) = Ok (publics, privates) /\
    length publics = 2%nat /\ length privates = 2%nat /\
    Forall2 (fun c p =>
               nc_id c = 3 /\
               public_nonce_d c = np_public_d p /\ public_nonce_e c = np_public_e p /\
               code_to_pub (np_public_d p) = Ok (get_public_key (np_d p)) /\
               code_to_pub (np_public_e p) = Ok (get_public_key (np_e p)))
      publics privates.
Proof.
  apply (create_nonces_consistent 3 2 (fun k => (Z.of_nat k + 1, Z.of_nat k + 2))).
  intros [|[|k]] Hk; [split; vm_compute; discriminate..|lia].
Defined.

Lemma aggregate_signatures_fields_witness :
  exists gs,
    aggregate_signatures "Hello Frost" [mkSigShare 3 4 0 0 "ETH"; mkSigShare 2 5 0 0 "ETH"]
      (pmul 3 G) (code (pmul 5 G)) "ETH" = Ok gs /\
    gs_signature gs
    = py_sum (map ss_signature [mkSigShare 3 4 0 0 "ETH"; mkSigShare 2 5 0 0 "ETH"]) mod N /\
    0 <= gs_signature gs < N /\
    pub_to_addr (pmul 3 G) = Ok (gs_nonce gs) /\
    pub_decompress (gs_public_nonce gs) = Ok (pmul 3 G) /\
    pub_decompress (gs_public_key gs) = Ok (pmul 5 G) /\
    gs_message gs = "Hello Frost"%string /\ gs_key_type gs = "ETH"%string.
Proof.
  apply (aggregate_signatures_fields "Hello Frost"
           [mkSigShare 3 4 0 0 "ETH"; mkSigShare 2 5 0 0 "ETH"] (pmul 3 G) (pmul 5 G)
           "ETH");
    apply pmul_G_not_identity; vm_compute; discriminate.
Defined.

Lemma aggregate_nonce_value_witness :
  aggregate_nonce "Hello Frost" (commitments toy_single)
  = Ok (Some (pmul (fold_right Z.add 0
                      (map (fun s => signer_nonce_d s
                                     + rho (str_encode "Hello Frost")
                                         (subset_hash toy_single) (signer_id s)
                                       * signer_nonce_e s) toy_single)) G)).
Proof.
  apply (aggregate_nonce_value "Hello Frost" toy_single).
  repeat constructor; vm_compute; discriminate.
Defined.

End FurtherRuns.
